(** * Code-Archaeology: a shallow embedding of the repository analysis engine

    The development follows the Python sources file by file:

    - Python built-ins on [str] that the analyzers rely on;
    - [ast_analyzer.py]: line-pattern symbol and import extraction;
    - [complexity_analyzer.py]: classification and risk bands;
    - [dependency_analyzer.py]: the import graph and its metrics;
    - [learning_path_tool.py], [entry_point_tool.py]: keyword matching,
      scores and difficulty labels;
    - [git_analyzer.py]: history queries over a git subprocess;
    - [github_cloner.py]: normalisation of repository URLs.

    Python [str] values are modelled as Rocq strings over the ASCII range,
    [int] as [Z] (or [nat] for counters that only grow from zero), [float]
    as [Q], [dict] as [gmap], and [set] as [gset].  All definitions come
    first; the properties follow in the second half of the file. *)

From Stdlib Require Import Ascii ZArith QArith Qminmax Bool Lia.
From stdpp Require Import gmap strings list fin_maps fin_sets pretty sorting.

Local Open Scope Z_scope.
Local Open Scope nat_scope.

(* ===================================================================== *)
(** * Part I: the embedding                                               *)
(* ===================================================================== *)

(* --------------------------------------------------------------------- *)
(** ** Python string built-ins                                            *)
(* --------------------------------------------------------------------- *)

(** [c.isspace()] on the ASCII range. *)
Definition isspace (c : ascii) : bool :=
  match c with
  | "009" | "010" | "011" | "012" | "013"
  | "028" | "029" | "030" | "031" | " " => true
  | _ => false
  end%char.

(** [c in chars] for a one-character [c]. *)
Fixpoint char_in (chars : string) (c : ascii) : bool :=
  match chars with
  | "" => false
  | String d chars' => Ascii.eqb c d || char_in chars' c
  end.

(** [s.startswith(p)]. *)
Definition startswith (s p : string) : bool := String.prefix p s.

Fixpoint lstrip_by (f : ascii → bool) (s : string) : string :=
  match s with
  | "" => ""
  | String c s' => if f c then lstrip_by f s' else s
  end.

Fixpoint rstrip_by (f : ascii → bool) (s : string) : string :=
  match s with
  | "" => ""
  | String c s' =>
      match rstrip_by f s' with
      | "" => if f c then "" else String c ""
      | r => String c r
      end
  end.

(** [s.strip()], [s.strip(chars)] and [s.lstrip(chars)]: the argument of
    the last two is a _set_ of characters, not a prefix. *)
Definition strip (s : string) : string := rstrip_by isspace (lstrip_by isspace s).
Definition strip_chars (chars s : string) : string :=
  rstrip_by (char_in chars) (lstrip_by (char_in chars) s).
Definition lstrip_chars (chars s : string) : string := lstrip_by (char_in chars) s.

(** [s.lower()] on the ASCII range. *)
Definition lower_char (c : ascii) : ascii :=
  let n := nat_of_ascii c in
  if (65 <=? n) && (n <=? 90) then ascii_of_nat (n + 32) else c.

Fixpoint lower (s : string) : string :=
  match s with
  | "" => ""
  | String c s' => String (lower_char c) (lower s')
  end.

(** [sub in s]. *)
Fixpoint contains (sub s : string) : bool :=
  String.prefix sub s ||
  match s with
  | "" => false
  | String _ s' => contains sub s'
  end.

(** [s.split()] without argument: maximal runs of non-space characters. *)
Fixpoint split_ws (s : string) : list string :=
  match s with
  | "" => []
  | String c s' =>
      if isspace c then split_ws s'
      else match s' with
           | "" => [String c ""]
           | String c' _ =>
               if isspace c' then String c "" :: split_ws s'
               else match split_ws s' with
                    | w :: ws => String c w :: ws
                    | [] => [String c ""]
                    end
           end
  end.

(** [s.split(sep)] for a non-empty separator: non-overlapping occurrences
    are consumed left to right; [skip] counts the characters of a matched
    separator that are still to be dropped. *)
Fixpoint split_go (sep : string) (skip : nat) (s : string) : list string :=
  match s with
  | "" => [""]
  | String c s' =>
      match skip with
      | S k => split_go sep k s'
      | O =>
          if String.prefix sep s
          then "" :: split_go sep (String.length sep - 1) s'
          else match split_go sep 0 s' with
               | w :: ws => String c w :: ws
               | [] => [String c ""]
               end
      end
  end.

Definition str_split (sep s : string) : list string := split_go sep 0 s.

(** [s.replace(old, new)] for a non-empty [old]. *)
Fixpoint replace_go (old new : string) (skip : nat) (s : string) : string :=
  match s with
  | "" => ""
  | String c s' =>
      match skip with
      | S k => replace_go old new k s'
      | O =>
          if String.prefix old s
          then new +:+ replace_go old new (String.length old - 1) s'
          else String c (replace_go old new 0 s')
      end
  end.

Definition replace (old new s : string) : string := replace_go old new 0 s.

(** [int(s)] for a decimal literal: optional sign, digits, single
    underscores between digits, surrounding whitespace; [None] stands for
    [ValueError]. *)
Definition digit_of (c : ascii) : option Z :=
  let n := Z.of_N (N_of_ascii c) in
  if (48 <=? n)%Z && (n <=? 57)%Z then Some (n - 48)%Z else None.

Definition isdigit (c : ascii) : bool :=
  match digit_of c with Some _ => true | None => false end.

Fixpoint parse_digits (acc : Z) (s : string) : option Z :=
  match s with
  | "" => Some acc
  | String c s' =>
      match digit_of c with
      | Some d => parse_digits (10 * acc + d)%Z s'
      | None =>
          match s' with
          | String c' _ =>
              if Ascii.eqb c "_" && isdigit c' then parse_digits acc s' else None
          | "" => None
          end
      end
  end.

Definition parse_unsigned (s : string) : option Z :=
  match s with
  | String c _ => if isdigit c then parse_digits 0%Z s else None
  | "" => None
  end.

Definition int (s : string) : option Z :=
  match strip s with
  | String "-" r => Z.opp <$> parse_unsigned r
  | String "+" r => parse_unsigned r
  | r => parse_unsigned r
  end.

(** Characters that cannot be written inside a string literal. *)
Definition NL : string := String "010" "".
Definition TAB : string := String "009" "".
Definition DQUOTE : string := String "034" "".

(** [s.split(sep)[0]]: the part before the first separator. *)
Definition first_part (sep s : string) : string :=
  match str_split sep s with
  | w :: _ => w
  | [] => ""
  end.

(** [s.split(sep)[1]]; [None] stands for [IndexError]. *)
Definition second_part (sep s : string) : option string := str_split sep s !! 1.

(* --------------------------------------------------------------------- *)
(** ** [ast_analyzer.py]                                                  *)
(* --------------------------------------------------------------------- *)

(** The [type] field of [CodeSymbol] ranges over four literals. *)
Inductive SymbolType := SymFunction | SymClass | SymMethod | SymVariable.

Definition symbol_type_str (t : SymbolType) : string :=
  match t with
  | SymFunction => "function"
  | SymClass => "class"
  | SymMethod => "method"
  | SymVariable => "variable"
  end.

Record CodeSymbol := mkCodeSymbol {
  sym_name : string;
  sym_type : SymbolType;
  sym_file_path : string;
  sym_line_start : nat;
  sym_line_end : nat;
  sym_docstring : option string;
  sym_complexity : Z;
  sym_is_public : bool
}.

Record FileAnalysis := mkFileAnalysis {
  fa_file_path : string;
  fa_language : string;
  fa_symbols : list CodeSymbol;
  fa_imports : list string;
  fa_total_lines : nat;
  fa_code_lines : nat
}.

Definition LANGUAGE_MAP : gmap string string :=
  list_to_map
    [ (".py", "python"); (".js", "javascript"); (".ts", "typescript");
      (".jsx", "javascript"); (".tsx", "typescript"); (".java", "java");
      (".go", "go"); (".rs", "rust"); (".c", "c"); (".cpp", "cpp");
      (".h", "c"); (".hpp", "cpp") ].

(** One iteration of the loop of [_extract_python_symbols]; [i] is the
    zero-based index given by [enumerate]. *)
Definition python_symbols_of_line (i : nat) (line file_path : string)
  : list CodeSymbol :=
  let stripped := strip line in
  if startswith stripped "class " then
    let name :=
      strip (replace ":" "" (replace "class " "" (first_part "(" stripped))) in
    let is_public := negb (startswith name "_") in
    [ mkCodeSymbol name SymClass file_path (i + 1) (i + 1) None 0 is_public ]
  else if startswith stripped "def " then
    let name := strip (replace "def " "" (first_part "(" stripped)) in
    let is_public := negb (startswith name "_") in
    let symbol_type :=
      if startswith line "    " || startswith line TAB
      then SymMethod else SymFunction in
    [ mkCodeSymbol name symbol_type file_path (i + 1) (i + 1) None 0 is_public ]
  else [].

Fixpoint python_symbols_from (i : nat) (lines : list string) (file_path : string)
  : list CodeSymbol :=
  match lines with
  | [] => []
  | line :: rest =>
      python_symbols_of_line i line file_path
        ++ python_symbols_from (S i) rest file_path
  end.

Definition _extract_python_symbols (lines : list string) (file_path : string)
  : list CodeSymbol :=
  python_symbols_from 0 lines file_path.

(** One iteration of the loop of [_extract_js_symbols]. *)
Definition js_symbols_of_line (i : nat) (line file_path : string)
  : list CodeSymbol :=
  let stripped := strip line in
  let mk name ty := mkCodeSymbol name ty file_path (i + 1) (i + 1) None 0 true in
  if startswith stripped "class " then
    [ mk (strip (replace "extends" ""
                   (replace "class " "" (first_part "{" stripped)))) SymClass ]
  else if contains "function " stripped then
    match second_part "function " stripped with
    | Some rest =>
        let name := strip (first_part "(" rest) in
        if bool_decide (name = "") then [] else [ mk name SymFunction ]
    | None => []
    end
  else if contains "const " stripped || contains "let " stripped then
    if contains "=>" stripped then
      match (if contains "const " stripped
             then second_part "const " stripped
             else second_part "let " stripped) with
      | Some rest => [ mk (strip (first_part "=" rest)) SymFunction ]
      | None => []
      end
    else []
  else [].

Fixpoint js_symbols_from (i : nat) (lines : list string) (file_path : string)
  : list CodeSymbol :=
  match lines with
  | [] => []
  | line :: rest =>
      js_symbols_of_line i line file_path ++ js_symbols_from (S i) rest file_path
  end.

Definition _extract_js_symbols (lines : list string) (file_path : string)
  : list CodeSymbol :=
  js_symbols_from 0 lines file_path.

Definition is_js_or_ts (language : string) : bool :=
  bool_decide (language = "javascript") || bool_decide (language = "typescript").

Definition _extract_symbols_simple (content language file_path : string)
  : list CodeSymbol :=
  let lines := str_split NL content in
  if bool_decide (language = "python") then _extract_python_symbols lines file_path
  else if is_js_or_ts language then _extract_js_symbols lines file_path
  else [].

Definition python_imports_of_line (line : string) : list string :=
  let stripped := strip line in
  if startswith stripped "import " then
    [ strip (first_part "," (first_part " as " (replace "import " "" stripped))) ]
  else if startswith stripped "from " then
    match second_part "from " stripped with
    | Some rest => [ strip (first_part " import" rest) ]
    | None => []
    end
  else [].

Definition js_imports_of_line (line : string) : list string :=
  let stripped := strip line in
  if startswith stripped "import " then
    if contains "from " stripped then
      match second_part "from " stripped with
      | Some rest => [ strip_chars (";" +:+ DQUOTE +:+ "'") (strip rest) ]
      | None => []
      end
    else []
  else [].

Definition _extract_imports_simple (content language : string) : list string :=
  let lines := str_split NL content in
  if bool_decide (language = "python") then flat_map python_imports_of_line lines
  else if is_js_or_ts language then flat_map js_imports_of_line lines
  else [].

(** [Path(p).name] and [Path(p).suffix]. *)
Definition path_name (p : string) : string :=
  default "" (last (filter (λ w, w ≠ "") (str_split "/" p))).

Definition suffix (p : string) : string :=
  match reverse (str_split "." (path_name p)) with
  | ext :: before =>
      if bool_decide (ext ≠ "" ∧ before ≠ [] ∧ before ≠ [""])
      then "." +:+ ext else ""
  | [] => ""
  end.

(** [sum(1 for line in lines if line.strip() and not
    line.strip().startswith("#"))]. *)
Definition is_code_line (line : string) : bool :=
  negb (bool_decide (strip line = "")) && negb (startswith (strip line) "#").

Fixpoint count_code_lines (lines : list string) : nat :=
  match lines with
  | [] => 0
  | line :: rest =>
      (if is_code_line line then 1 else 0) + count_code_lines rest
  end.

(** The body of the [try] block of [analyze_file], once the file content
    has been read. *)
Definition analyze_content (content language file_path : string) : FileAnalysis :=
  let symbols := _extract_symbols_simple content language file_path in
  let imports := _extract_imports_simple content language in
  let lines := str_split NL content in
  let total_lines := length lines in
  let code_lines := count_code_lines lines in
  mkFileAnalysis file_path language symbols imports total_lines code_lines.

(** [analyze_file]: the file system is a function from paths to the text
    of the file; [None] covers a missing path and a file that cannot be
    opened or decoded (both make the method return [None]). *)
Definition analyze_file (fs : string → option string) (file_path : string)
  : option FileAnalysis :=
  match fs file_path with
  | None => None
  | Some content =>
      match LANGUAGE_MAP !! suffix file_path with
      | None => None
      | Some language =>
          if bool_decide (language = "") then None
          else Some (analyze_content content language file_path)
      end
  end.

(* --------------------------------------------------------------------- *)
(** ** Exceptions                                                         *)
(* --------------------------------------------------------------------- *)

(** A method either returns a value or raises; only the exception classes
    that the analyzers raise or catch are listed. *)
Inductive exn :=
  | ValueError (msg : string)
  | KeyError (key : string)
  | CalledProcessError
  | OSError
  | NetworkXError.

Inductive result (A : Type) :=
  | Ok (a : A)
  | Raise (e : exn).
Arguments Ok {A} a.
Arguments Raise {A} e.

Definition rbind {A B} (r : result A) (k : A → result B) : result B :=
  match r with
  | Ok a => k a
  | Raise e => Raise e
  end.

Notation "x ←r r ; k" := (rbind r (λ x, k))
  (at level 20, r at level 100, k at level 200, only parsing, right associativity).

(** [try: body except Exception: handler]. *)
Definition try_except {A} (body handler : result A) : result A :=
  match body with
  | Ok a => Ok a
  | Raise _ => handler
  end.

Definition raises {A} (r : result A) : Prop :=
  match r with
  | Ok _ => False
  | Raise _ => True
  end.

(* --------------------------------------------------------------------- *)
(** ** [complexity_analyzer.py]                                           *)
(* --------------------------------------------------------------------- *)

Definition SIMPLE : Z := 5.
Definition MODERATE : Z := 10.
Definition COMPLEX : Z := 20.

(** The [classification] strings, in increasing order of severity. *)
Inductive Classification := simple | moderate | complex | very_complex.

Definition classification_str (c : Classification) : string :=
  match c with
  | simple => "simple"
  | moderate => "moderate"
  | complex => "complex"
  | very_complex => "very_complex"
  end.

Definition _classify_complexity (complexity : Z) : Classification :=
  if (complexity <=? SIMPLE)%Z then simple
  else if (complexity <=? MODERATE)%Z then moderate
  else if (complexity <=? COMPLEX)%Z then complex
  else very_complex.

(** Position of a band in the ordering simple < moderate < complex <
    very_complex. *)
Definition band (c : Classification) : nat :=
  match c with
  | simple => 0
  | moderate => 1
  | complex => 2
  | very_complex => 3
  end.

Inductive RiskLevel := low | medium | high.

Definition risk_level_str (r : RiskLevel) : string :=
  match r with
  | low => "low"
  | medium => "medium"
  | high => "high"
  end.

(** [a > b] and [a < b] on numbers. *)
Definition Qgtb (a b : Q) : bool := negb (Qle_bool a b).
Definition Qltb (a b : Q) : bool := negb (Qle_bool b a).

Definition _determine_risk_level (avg_complexity mi_index : Q) : RiskLevel :=
  if Qgtb avg_complexity (inject_Z COMPLEX) || Qltb mi_index (inject_Z 10)
  then high
  else if Qgtb avg_complexity (inject_Z MODERATE) || Qltb mi_index (inject_Z 20)
  then medium
  else low.

(* --------------------------------------------------------------------- *)
(** ** [networkx.DiGraph], as far as the dependency analyzer uses it      *)
(* --------------------------------------------------------------------- *)

(** A directed graph without parallel edges: a set of nodes and a set of
    ordered pairs.  [add_edge] inserts missing endpoints, an existing
    edge is not duplicated, and a self-loop counts once in the out-degree
    and once in the in-degree of its node. *)
Record DiGraph := mkDiGraph {
  nodes : gset string;
  edges : gset (string * string)
}.

Definition empty_graph : DiGraph := mkDiGraph ∅ ∅.

Definition add_node (n : string) (g : DiGraph) : DiGraph :=
  mkDiGraph ({[ n ]} ∪ nodes g) (edges g).

Definition add_edge (u v : string) (g : DiGraph) : DiGraph :=
  mkDiGraph ({[ u; v ]} ∪ nodes g) ({[ (u, v) ]} ∪ edges g).

Definition has_node (g : DiGraph) (n : string) : bool :=
  bool_decide (n ∈ nodes g).

Definition out_edges (g : DiGraph) (n : string) : gset (string * string) :=
  filter (λ e, e.1 = n) (edges g).

Definition in_edges (g : DiGraph) (n : string) : gset (string * string) :=
  filter (λ e, e.2 = n) (edges g).

Definition out_degree (g : DiGraph) (n : string) : nat := size (out_edges g n).
Definition in_degree (g : DiGraph) (n : string) : nat := size (in_edges g n).

(* --------------------------------------------------------------------- *)
(** ** [dependency_analyzer.py]                                           *)
(* --------------------------------------------------------------------- *)

Record ModuleInfo := mkModuleInfo {
  path : string;
  imports : list string;
  exported_symbols : list string;
  is_entry_point : bool;
  dependency_count : nat;
  dependent_count : nat
}.

(** The two attributes of a [DependencyAnalyzer] instance that the
    methods read and update. *)
Record DependencyAnalyzer := mkDependencyAnalyzer {
  dependency_graph : DiGraph;
  modules : gmap string ModuleInfo
}.

(** [__init__]: raises when the repository path does not exist,
    otherwise starts from an empty graph and an empty module table. *)
Definition DependencyAnalyzer_init (path_exists : string → bool) (repo_path : string)
  : result DependencyAnalyzer :=
  if path_exists repo_path
  then Ok (mkDependencyAnalyzer empty_graph ∅)
  else Raise (ValueError ("Repository path does not exist: " +:+ repo_path)).

Definition fresh_analyzer : DependencyAnalyzer := mkDependencyAnalyzer empty_graph ∅.

(** The list [potential_paths] that [_resolve_import] builds. *)
Definition potential_paths (import_path : string) : list string :=
  let python_path := replace "." "/" import_path +:+ ".py" in
  [ python_path ] ++
  (if startswith import_path "./" || startswith import_path "../"
   then
     let js_path := lstrip_chars "./" import_path +:+ ".js" in
     let ts_path := lstrip_chars "./" import_path +:+ ".ts" in
     [ js_path; ts_path ]
   else []).

Fixpoint first_available (paths : list string) (available_files : gset string)
  : string :=
  match paths with
  | [] => ""
  | p :: rest =>
      if bool_decide (p ∈ available_files) then p
      else first_available rest available_files
  end.

Definition _resolve_import (import_path : string) (available_files : gset string)
  : string :=
  first_available (potential_paths import_path) available_files.

(** First pass of [build_dependency_graph]: one node per analysed file.
    Every value of the map is a [FileAnalysis], so the [hasattr] tests
    for [imports] and [symbols] succeed. *)
Definition create_node (self : DependencyAnalyzer) (item : string * FileAnalysis)
  : DependencyAnalyzer :=
  let file_path := item.1 in
  let analysis := item.2 in
  mkDependencyAnalyzer
    (add_node file_path (dependency_graph self))
    (<[ file_path :=
          mkModuleInfo file_path (fa_imports analysis)
            (sym_name <$> fa_symbols analysis) false 0 0 ]> (modules self)).

(** Second pass, inner loop body: one import of one file. *)
Definition create_edge (available_files : gset string) (file_path : string)
    (self : DependencyAnalyzer) (import_path : string) : DependencyAnalyzer :=
  let resolved := _resolve_import import_path available_files in
  if bool_decide (resolved ≠ "") && bool_decide (resolved ∈ dom (modules self))
  then mkDependencyAnalyzer
         (add_edge file_path resolved (dependency_graph self)) (modules self)
  else self.

Definition create_edges (available_files : gset string)
    (self : DependencyAnalyzer) (item : string * ModuleInfo) : DependencyAnalyzer :=
  foldl (create_edge available_files item.1) self (imports item.2).

(** Third pass: store the degrees in the module table. *)
Definition with_counts (g : DiGraph) (file_path : string) (m : ModuleInfo)
  : ModuleInfo :=
  mkModuleInfo (path m) (imports m) (exported_symbols m) (is_entry_point m)
    (out_degree g file_path) (in_degree g file_path).

Definition set_counts (self : DependencyAnalyzer) (file_path : string)
  : DependencyAnalyzer :=
  mkDependencyAnalyzer (dependency_graph self)
    (alter (with_counts (dependency_graph self) file_path) file_path (modules self)).

Definition build_dependency_graph (file_analyses : gmap string FileAnalysis)
    (self : DependencyAnalyzer) : DependencyAnalyzer :=
  let self1 := foldl create_node self (map_to_list file_analyses) in
  let self2 :=
    foldl (create_edges (dom file_analyses)) self1 (map_to_list (modules self1)) in
  foldl set_counts self2 (map_to_list (modules self2)).*1.

Section Importance.

(** [networkx.betweenness_centrality]: a dictionary from nodes to
    floats, or an exception. *)
Variable betweenness_centrality : DiGraph → result (gmap string Q).

Definition modules_getitem (self : DependencyAnalyzer) (file_path : string)
  : result ModuleInfo :=
  match modules self !! file_path with
  | Some m => Ok m
  | None => Raise (KeyError file_path)
  end.

Definition get_module_importance_score (self : DependencyAnalyzer)
    (file_path : string) : result Q :=
  if negb (has_node (dependency_graph self) file_path) then Ok 0%Q
  else
    try_except
      (centrality ←r betweenness_centrality (dependency_graph self);
       let centrality_score := (default 0 (centrality !! file_path) * 50)%Q in
       m ←r modules_getitem self file_path;
       let dependent_score := Nat.min (dependent_count m * 5) 50 in
       Ok (Qmin (centrality_score + inject_Z (Z.of_nat dependent_score)) 100))
      (m ←r modules_getitem self file_path;
       Ok (inject_Z (Z.of_nat (dependent_count m * 10)))).

End Importance.

(* --------------------------------------------------------------------- *)
(** ** [learning_path_tool.py]                                            *)
(* --------------------------------------------------------------------- *)

Definition _find_relevant_files (area : string)
    (file_analyses : gmap string FileAnalysis) : list string :=
  let keywords := split_ws area in
  List.filter
    (λ file_path,
       let file_path_lower := lower file_path in
       existsb (λ keyword, contains keyword file_path_lower) keywords)
    (map_to_list file_analyses).*1.

(** The value of [relevant_files] in [LearningPathTool._run]. *)
Definition learning_path_relevant_files (area : string)
    (file_analyses : gmap string FileAnalysis) : list string :=
  _find_relevant_files (lower area) file_analyses.

(* --------------------------------------------------------------------- *)
(** ** [entry_point_tool.py]                                              *)
(* --------------------------------------------------------------------- *)

Definition stop_words : gset string :=
  list_to_set
    [ "a"; "an"; "the"; "to"; "for"; "in"; "on"; "at"; "add"; "create";
      "update"; "fix"; "implement"; "new"; "and"; "or"; "is"; "are"; "was";
      "were" ].

Definition is_keyword_word (w : string) : bool :=
  negb (bool_decide (w ∈ stop_words)) && (2 <? String.length w).

Definition _extract_keywords (text : string) : list string :=
  let words := split_ws text in
  strip_chars ",.!?" <$> List.filter is_keyword_word words.

(** The loop over keywords that checks the file name; the accumulator is
    the pair of [score] and [reasons]. *)
Definition check_file_name (keywords : list string) (file_path : string)
    (acc : nat * list string) : nat * list string :=
  let file_name_lower := lower file_path in
  foldl
    (λ acc keyword,
       if contains keyword file_name_lower
       then (acc.1 + 10, acc.2 ++ [ "File name contains '" +:+ keyword +:+ "'" ])
       else acc)
    acc keywords.

(** The nested loop over symbols and keywords. *)
Definition check_symbol (keywords : list string) (acc : nat * list string)
    (symbol : CodeSymbol) : nat * list string :=
  let symbol_name_lower := lower (sym_name symbol) in
  foldl
    (λ acc keyword,
       if contains keyword symbol_name_lower
       then (acc.1 + 5, acc.2 ++ [ "Contains symbol '" +:+ sym_name symbol +:+ "'" ])
       else acc)
    acc keywords.

Definition keyword_matches (keywords : list string) (file_path : string)
    (analysis : FileAnalysis) : nat * list string :=
  foldl (check_symbol keywords)
    (check_file_name keywords file_path (0, [])) (fa_symbols analysis).

(** The files for which [EntryPointTool._run] reaches the branch
    [if score > 0] and appends a suggestion. *)
Definition suggested_files (task_description : string)
    (file_analyses : gmap string FileAnalysis) : list string :=
  let keywords := _extract_keywords (lower task_description) in
  (List.filter
     (λ item, 0 <? (keyword_matches keywords item.1 item.2).1)
     (map_to_list file_analyses)).*1.

(** Reading of the topic-area matching rule as the specification words
    it: keywords are the whitespace-delimited words of the query that are
    not stop words, and a file is relevant when one of them occurs in its
    path or in one of its symbol names. *)
Definition spec_keywords (query : string) : list string :=
  List.filter (λ w, negb (bool_decide (w ∈ stop_words))) (split_ws query).

Definition spec_relevant (query file_path : string) (analysis : FileAnalysis)
  : bool :=
  existsb
    (λ keyword,
       contains keyword file_path
       || existsb (λ symbol, contains keyword (sym_name symbol))
            (fa_symbols analysis))
    (spec_keywords query).

(* --------------------------------------------------------------------- *)
(** ** [git_analyzer.py]                                                  *)
(* --------------------------------------------------------------------- *)

Definition py_int (s : string) : result Z :=
  match int s with
  | Some n => Ok n
  | None => Raise (ValueError ("invalid literal for int(): " +:+ s))
  end.

(** [l[:limit]] for a list. *)
Definition slice_to {A} (limit : Z) (l : list A) : list A :=
  if (0 <=? limit)%Z then take (Z.to_nat limit) l
  else take (length l - Z.to_nat (- limit)) l.

Section Git.

(** The environment of a [GitAnalyzer]: which paths exist, what
    [subprocess.run(..., check=True)] gives for a command line (its
    standard output, or the exception it raises: [CalledProcessError]
    when git exits with a non-zero status, [OSError] when the git
    executable cannot be started), and the clock. *)
Variable path_exists : string → bool.
Variable subprocess_run : list string → result string.
Variable datetime : Type.
Variable fromtimestamp : Z → result datetime.
Variable now : datetime.

Record FileHistory := mkFileHistory {
  fh_file_path : string;
  fh_commit_count : Z;
  fh_authors : list string;
  fh_last_modified : datetime;
  fh_creation_date : datetime;
  fh_churn_score : Z
}.


Record GitAnalyzer := mkGitAnalyzer { repo_path : string }.


Definition _run_git_command (self : GitAnalyzer) (args : list string)
  : result string :=
  match subprocess_run ([ "git"; "-C"; repo_path self ] ++ args) with
  | Ok stdout => Ok (strip stdout)
  | Raise CalledProcessError => Ok ""
  | Raise e => Raise e
  end.

(** [list(set(l))] and [len(set(l))]. *)
Definition distinct (l : list string) : list string :=
  elements (list_to_set l : gset string).

Definition get_file_history (self : GitAnalyzer) (file_path : string)
  : result (option FileHistory) :=
  commit_count_output ←r
    _run_git_command self [ "rev-list"; "--count"; "HEAD"; "--"; file_path ];
  if bool_decide (commit_count_output = "") then Ok None
  else
    commit_count ←r py_int commit_count_output;
    authors_output ←r
      _run_git_command self [ "log"; "--format=%an"; "--"; file_path ];
    let authors :=
      if bool_decide (authors_output = "") then []
      else distinct (str_split NL authors_output) in
    last_modified_output ←r
      _run_git_command self [ "log"; "-1"; "--format=%ct"; "--"; file_path ];
    last_modified ←r
      (if bool_decide (last_modified_output = "") then Ok now
       else (t ←r py_int last_modified_output; fromtimestamp t));
    creation_output ←r
      _run_git_command self
        [ "log"; "--diff-filter=A"; "--format=%ct"; "--"; file_path ];
    let creation_lines :=
      if bool_decide (creation_output = "") then []
      else str_split NL creation_output in
    creation_date ←r
      (match last creation_lines with
       | Some l => (t ←r py_int l; fromtimestamp t)
       | None => Ok last_modified
       end);
    Ok (Some (mkFileHistory file_path commit_count authors last_modified
                creation_date commit_count)).

(** [sort(key=churn_score, reverse=True)]: stable, descending. *)
Fixpoint insert_by_churn (h : FileHistory) (l : list FileHistory)
  : list FileHistory :=
  match l with
  | [] => [ h ]
  | h' :: rest =>
      if (fh_churn_score h' <=? fh_churn_score h)%Z then h :: l
      else h' :: insert_by_churn h rest
  end.

Definition sort_by_churn (l : list FileHistory) : list FileHistory :=
  foldr insert_by_churn [] l.

Fixpoint collect_histories (self : GitAnalyzer) (files : list string)
  : result (list FileHistory) :=
  match files with
  | [] => Ok []
  | file_path :: rest =>
      history ←r get_file_history self file_path;
      histories ←r collect_histories self rest;
      Ok (match history with
          | Some h => h :: histories
          | None => histories
          end)
  end.

Definition get_hotspots (self : GitAnalyzer) (limit : Z)
  : result (list FileHistory) :=
  files_output ←r _run_git_command self [ "ls-files" ];
  if bool_decide (files_output = "") then Ok []
  else
    let files := str_split NL files_output in
    file_histories ←r collect_histories self files;
    Ok (slice_to limit (sort_by_churn file_histories)).





Definition count_file (file_counts : gmap string Z) (file_path : string)
  : gmap string Z :=
  if bool_decide (strip file_path = "") then file_counts
  else <[ file_path := (default 0 (file_counts !! file_path) + 1)%Z ]> file_counts.

Definition get_recent_activity (self : GitAnalyzer) (days : Z)
  : result (gmap string Z) :=
  output ←r
    _run_git_command self
      [ "log"; "--since=" +:+ pretty days +:+ ".days.ago"; "--name-only";
        "--format=" ];
  if bool_decide (output = "") then Ok ∅
  else Ok (foldl count_file ∅ (str_split NL output)).

Definition is_actively_maintained (self : GitAnalyzer) : result bool :=
  recent_commits ←r
    _run_git_command self [ "rev-list"; "--count"; "HEAD"; "--since=90.days.ago" ];
  if bool_decide (recent_commits = "") then Ok false
  else (n ←r py_int recent_commits; Ok (0 <? n)%Z).

Definition get_total_commits (self : GitAnalyzer) : result Z :=
  output ←r _run_git_command self [ "rev-list"; "--count"; "HEAD" ];
  if bool_decide (output = "") then Ok 0%Z else py_int output.

Definition get_branch_count (self : GitAnalyzer) : result nat :=
  output ←r _run_git_command self [ "branch"; "-a" ];
  if bool_decide (output = "") then Ok 0
  else Ok (length (str_split NL output)).


(** Git exits with a non-zero status on the command line [args]. *)
Definition git_fails (self : GitAnalyzer) (args : list string) : Prop :=
  subprocess_run ([ "git"; "-C"; repo_path self ] ++ args) = Raise CalledProcessError.

End Git.

(* --------------------------------------------------------------------- *)
(** ** Notions used to state the properties                               *)
(* --------------------------------------------------------------------- *)

(** [sub in s] holds exactly when [s] splits around an occurrence. *)
Definition occurs_in (sub s : string) : Prop :=
  ∃ pre post, s = pre +:+ sub +:+ post.

(** [line != line.lstrip()]: the line begins with white space. *)
Definition has_leading_indentation (line : string) : bool :=
  match line with
  | String c _ => isspace c
  | "" => false
  end.

(** The symbol that the [def] branch of [_extract_python_symbols] builds
    for the line with index [i]. *)
Definition def_symbol (i : nat) (line file_path : string) : CodeSymbol :=
  let name := strip (replace "def " "" (first_part "(" (strip line))) in
  mkCodeSymbol name
    (if startswith line "    " || startswith line TAB then SymMethod else SymFunction)
    file_path (i + 1) (i + 1) None 0 (negb (startswith name "_")).

(** The two guards of the chain, as propositions. *)
Definition high_guard (avg_complexity mi_index : Q) : Prop :=
  (20 < avg_complexity)%Q ∨ (mi_index < 10)%Q.
Definition medium_guard (avg_complexity mi_index : Q) : Prop :=
  (10 < avg_complexity)%Q ∨ (mi_index < 20)%Q.





(** The module record that the first pass stores for a file. *)
Definition initial_module (file_path : string) (analysis : FileAnalysis)
  : ModuleInfo :=
  mkModuleInfo file_path (fa_imports analysis) (sym_name <$> fa_symbols analysis)
    false 0 0.

(** An import of [file_path] becomes the edge [(file_path, target)] when
    it resolves to a non-empty path that has a module record. *)
Definition import_edge (avail : gset string) (known : gmap string ModuleInfo)
    (file_path import_path target : string) : Prop :=
  _resolve_import import_path avail = target
  ∧ target ≠ "" ∧ target ∈ dom known.

(** The distinct files that the imports of [file_path] resolve to, and
    the files with an import that resolves to [file_path]; both are read
    off the file-analysis map alone. *)
Definition resolved_imports (file_analyses : gmap string FileAnalysis)
    (file_path : string) : gset string :=
  match file_analyses !! file_path with
  | Some analysis =>
      list_to_set
        (filter (λ target, target ≠ "")
           ((λ import_path, _resolve_import import_path (dom file_analyses))
              <$> fa_imports analysis))
  | None => ∅
  end.

Definition importers (file_analyses : gmap string FileAnalysis)
    (file_path : string) : gset string :=
  filter (λ other, file_path ∈ resolved_imports file_analyses other)
    (dom file_analyses).


(** An analyzer holds nothing outside a set of paths. *)
Definition closed_within (keys : gset string) (self : DependencyAnalyzer) : Prop :=
  nodes (dependency_graph self) ⊆ keys
  ∧ dom (modules self) ⊆ keys
  ∧ ∀ u v, (u, v) ∈ edges (dependency_graph self) → u ∈ keys ∧ v ∈ keys.

(* --------------------------------------------------------------------- *)
(** ** Example repositories and environments                              *)
(* --------------------------------------------------------------------- *)

Definition js_example_fs (p : string) : option string :=
  if bool_decide (p = "web/app.js")
  then Some ("// entry point" +:+ NL +:+ "let x = 1;" +:+ NL +:+ "  " +:+ NL +:+ "# x")
  else None.

(** The repository of end-to-end scenario 1. *)
Definition scenario_files : gmap string FileAnalysis :=
  list_to_map
    [ ("simple.py", mkFileAnalysis "simple.py" "python" [] [] 4 3);
      ("main.py", mkFileAnalysis "main.py" "python" [] [ "simple"; "os" ] 3 3) ].


(** A repository in which every git command exits with an error. *)
Definition failing_git (args : list string) : result string :=
  Raise CalledProcessError.


(* --------------------------------------------------------------------- *)
(** ** Sorting with a key                                                 *)
(* --------------------------------------------------------------------- *)

(** [sorted(l, key=...)] and [l.sort(key=...)] are stable.  [before y x]
    says that the key of [y] comes strictly before the key of [x] in the
    requested order; an element is inserted in front of the first element
    that does not come strictly before it, so equal keys keep the order
    of the input. *)
Fixpoint insert_stable {A} (before : A → A → bool) (x : A) (l : list A)
  : list A :=
  match l with
  | [] => [ x ]
  | y :: rest =>
      if before y x then y :: insert_stable before x rest else x :: l
  end.

Definition sort_stable {A} (before : A → A → bool) (l : list A) : list A :=
  foldr (insert_stable before) [] l.

(** [s.endswith(suf)]. *)
Fixpoint endswith (s suf : string) : bool :=
  bool_decide (s = suf) ||
  match s with
  | "" => false
  | String _ s' => endswith s' suf
  end.

(* --------------------------------------------------------------------- *)
(** ** [ast_analyzer.py]: walking the repository                          *)
(* --------------------------------------------------------------------- *)

(** [sep.join(l)]. *)
Fixpoint join (sep : string) (l : list string) : string :=
  match l with
  | [] => ""
  | [ w ] => w
  | w :: rest => w +:+ sep +:+ join sep rest
  end.

(** The names in [Path(p).parts], without the root. *)
Definition path_parts (p : string) : list string :=
  filter (λ w, w ≠ "" ∧ w ≠ ".") (str_split "/" p).

(** [str(Path(p))]: empty names and [.] are dropped, exactly two leading
    slashes are kept, and the empty path is written [.]. *)
Definition path_root (p : string) : string :=
  if startswith p "//" && negb (startswith p "///") then "//"
  else if startswith p "/" then "/"
  else "".

Definition path_str (p : string) : string :=
  match path_root p, path_parts p with
  | "", [] => "."
  | root, parts => root +:+ join "/" parts
  end.

(** [str(Path(base) / rel)] for a relative [rel]. *)
Definition joinpath (base rel : string) : string :=
  if bool_decide (base = "") || bool_decide (base = ".") then rel
  else if bool_decide (base = "/") then "/" +:+ rel
  else base +:+ "/" +:+ rel.

(** The keys of [LANGUAGE_MAP], in the order of the dictionary. *)
Definition LANGUAGE_EXTENSIONS : list string :=
  [ ".py"; ".js"; ".ts"; ".jsx"; ".tsx"; ".java"; ".go"; ".rs"; ".c"; ".cpp";
    ".h"; ".hpp" ].

Definition AST_IGNORED_DIRS : list string :=
  [ "node_modules"; ".git"; "__pycache__"; "venv"; "env"; ".venv"; "dist";
    "build" ].

(** [any(part in file_path.parts for part in ignored)]. *)
Definition has_ignored_part (ignored : list string) (file_path : string) : bool :=
  existsb (λ part, bool_decide (part ∈ path_parts file_path)) ignored.

Section Repository.

(** The file system, and [Path(repo_path).rglob(pattern)] given as the
    paths of the matches relative to [repo_path]. *)
Variable fs : string → option string.
Variable rglob : string → string → list string.

(** Loop body of [analyze_repository] for one match. *)
Definition analyze_match (repo_path : string) (results : gmap string FileAnalysis)
    (rel_path : string) : gmap string FileAnalysis :=
  let file_path := joinpath repo_path rel_path in
  if has_ignored_part AST_IGNORED_DIRS file_path then results
  else
    match analyze_file fs file_path with
    | Some analysis => <[ rel_path := analysis ]> results
    | None => results
    end.

(** What the loop body of [analyze_repository] stores for a match. *)
Definition analysis_of_match (repo_path rel_path : string)
  : option FileAnalysis :=
  if has_ignored_part AST_IGNORED_DIRS (joinpath repo_path rel_path) then None
  else analyze_file fs (joinpath repo_path rel_path).

Definition analyze_repository (repo_path : string) : gmap string FileAnalysis :=
  foldl
    (λ results ext,
       foldl (analyze_match repo_path) results (rglob repo_path ("*" +:+ ext)))
    ∅ LANGUAGE_EXTENSIONS.

Definition get_all_symbols (repo_path : string) : list CodeSymbol :=
  flat_map fa_symbols (map_to_list (analyze_repository repo_path)).*2.

Definition COMMON_ENTRY_FILES : list string :=
  [ "main.py"; "app.py"; "index.py"; "__main__.py"; "run.py"; "server.py";
    "index.js"; "main.js"; "app.js"; "server.js"; "index.ts"; "main.ts" ].

Definition ENTRY_IGNORED_DIRS : list string :=
  [ "node_modules"; ".git"; "test"; "tests"; "__pycache__" ].

Definition find_entry_points (repo_path : string) : list string :=
  flat_map
    (λ file_name,
       List.filter
         (λ rel_path,
            negb (has_ignored_part ENTRY_IGNORED_DIRS (joinpath repo_path rel_path)))
         (rglob repo_path file_name))
    COMMON_ENTRY_FILES.

End Repository.

(* --------------------------------------------------------------------- *)
(** ** [complexity_analyzer.py]: files and reports                        *)
(* --------------------------------------------------------------------- *)

Record ComplexityMetrics := mkComplexityMetrics {
  cm_name : string;
  cm_file_path : string;
  cm_line_start : Z;
  cm_cyclomatic_complexity : Z;
  cm_maintainability_index : Q;
  cm_halstead_difficulty : Q;
  cm_classification : Classification
}.

Record FileComplexity := mkFileComplexity {
  fc_file_path : string;
  fc_average_complexity : Q;
  fc_max_complexity : Z;
  fc_maintainability_index : Q;
  fc_functions : list ComplexityMetrics;
  fc_risk_level : RiskLevel
}.

(** One block of [radon.complexity.cc_visit]. *)
Record cc_block := mk_cc_block {
  cc_name : string;
  cc_lineno : Z;
  cc_complexity : Z
}.

(** [sum(l)] and [max(l)] for a non-empty list of integers. *)
Definition sum_Z (l : list Z) : Z := foldl Z.add 0%Z l.

Definition max_Z (l : list Z) : Z :=
  match l with
  | [] => 0%Z
  | x :: rest => foldl Z.max x rest
  end.

Definition COMPLEXITY_IGNORED_DIRS : list string :=
  [ "node_modules"; ".git"; "__pycache__"; "venv"; "env"; ".venv"; "dist";
    "build"; "tests"; "test" ].

(** [a <= b] and [a >= b] on numbers. *)
Definition Qleb (a b : Q) : bool := Qle_bool a b.
Definition Qgeb (a b : Q) : bool := Qle_bool b a.

Section Radon.

Variable fs : string → option string.
Variable rglob : string → string → list string.

(** [radon]: the complexity blocks of a source text, its maintainability
    index and its Halstead difficulty ([None] when the report has no
    total); each call may raise on a source that does not parse. *)
Variable cc_visit : string → result (list cc_block).
Variable mi_visit : string → result Q.
Variable h_visit : string → result (option Q).

Definition metrics_of_block (file_path : string) (b : cc_block)
  : ComplexityMetrics :=
  mkComplexityMetrics (cc_name b) (path_str file_path) (cc_lineno b)
    (cc_complexity b) 0 0
    (_classify_complexity (cc_complexity b)).

(** The body of the [try] block of [ComplexityAnalyzer.analyze_file]. *)
Definition analyze_source (file_path content : string) : result FileComplexity :=
  cc_results ←r cc_visit content;
  let functions := metrics_of_block file_path <$> cc_results in
  mi_value ←r mi_visit content;
  h_metrics ←r h_visit content;
  let h_difficulty := default 0%Q h_metrics in
  let complexities := cm_cyclomatic_complexity <$> functions in
  let avg_complexity :=
    match complexities with
    | [] => 0%Q
    | _ => (inject_Z (sum_Z complexities)
            / inject_Z (Z.of_nat (length complexities)))%Q
    end in
  let max_complexity := max_Z complexities in
  let risk_level := _determine_risk_level avg_complexity mi_value in
  Ok (mkFileComplexity (path_str file_path) avg_complexity max_complexity mi_value
        functions risk_level).

Definition complexity_analyze_file (file_path : string) : option FileComplexity :=
  match fs file_path with
  | None => None
  | Some content =>
      if negb (endswith file_path ".py") then None
      else
        match analyze_source file_path content with
        | Ok fc => Some fc
        | Raise _ => None
        end
  end.

Definition complexity_analyze_match (repo_path : string)
    (results : gmap string FileComplexity) (rel_path : string)
  : gmap string FileComplexity :=
  let file_path := joinpath repo_path rel_path in
  if has_ignored_part COMPLEXITY_IGNORED_DIRS file_path then results
  else
    match complexity_analyze_file file_path with
    | Some complexity => <[ rel_path := complexity ]> results
    | None => results
    end.

Definition complexity_analyze_repository (repo_path : string)
  : gmap string FileComplexity :=
  foldl (complexity_analyze_match repo_path) ∅ (rglob repo_path "*.py").

Definition get_complex_files (repo_path : string) (threshold : Z)
  : list FileComplexity :=
  let all_files := complexity_analyze_repository repo_path in
  let complex_files :=
    List.filter (λ fc, Qgeb (fc_average_complexity fc) (inject_Z threshold))
      (map_to_list all_files).*2 in
  sort_stable
    (λ y x, Qgtb (fc_average_complexity y) (fc_average_complexity x))
    complex_files.

Definition get_simple_files (repo_path : string) (threshold : Z)
  : list FileComplexity :=
  let all_files := complexity_analyze_repository repo_path in
  let simple_files :=
    List.filter (λ fc, Qleb (fc_average_complexity fc) (inject_Z threshold))
      (map_to_list all_files).*2 in
  sort_stable
    (λ y x, Qltb (fc_average_complexity y) (fc_average_complexity x))
    simple_files.

Record ComplexityReport := mkComplexityReport {
  total_files : nat;
  average_complexity : Q;
  high_risk_files : list string;
  simple_files : list string;
  complex_files : list string
}.

Definition sum_Q (l : list Q) : Q := foldl Qplus 0%Q l.

Definition generate_complexity_report (repo_path : string) : ComplexityReport :=
  let all_files := complexity_analyze_repository repo_path in
  if bool_decide (size all_files = 0) then mkComplexityReport 0 0 [] [] []
  else
    let values := (map_to_list all_files).*2 in
    let all_complexities := fc_average_complexity <$> values in
    let avg_complexity :=
      (sum_Q all_complexities / inject_Z (Z.of_nat (length all_complexities)))%Q in
    let high_risk :=
      List.filter
        (λ fc, match fc_risk_level fc with high => true | _ => false end)
        values in
    let simple := get_simple_files repo_path 5 in
    let complex_files := get_complex_files repo_path 15 in
    mkComplexityReport (size all_files) avg_complexity
      (fc_file_path <$> high_risk)
      (fc_file_path <$> take 10 simple)
      (fc_file_path <$> take 10 complex_files).

End Radon.

(* --------------------------------------------------------------------- *)
(** ** [dependency_analyzer.py]: queries on the finished graph            *)
(* --------------------------------------------------------------------- *)

(** Dataclass equality compares all fields. *)
Global Instance ModuleInfo_eq_dec : EqDecision ModuleInfo.
Proof. solve_decision. Defined.

(** [self.modules.values()]. *)
Definition module_values (self : DependencyAnalyzer) : list ModuleInfo :=
  (map_to_list (modules self)).*2.

Definition identify_core_modules (self : DependencyAnalyzer) (top_n : Z)
  : list ModuleInfo :=
  let core_modules :=
    sort_stable (λ y x, dependent_count x <? dependent_count y)
      (module_values self) in
  slice_to top_n core_modules.

Definition identify_leaf_modules (self : DependencyAnalyzer) : list ModuleInfo :=
  List.filter (λ m, dependent_count m =? 0) (module_values self).

(** [Path(p).name] and [Path(p).stem]: the last component, and that
    component without its suffix. *)
Definition file_name (p : string) : string := default "" (last (path_parts p)).

Definition stem (p : string) : string :=
  match reverse (str_split "." (file_name p)) with
  | ext :: before =>
      if bool_decide (ext ≠ "" ∧ before ≠ [] ∧ before ≠ [""])
      then join "." (reverse before) else file_name p
  | [] => file_name p
  end.

Definition COMMON_ENTRY_NAMES : list string :=
  [ "main"; "app"; "index"; "server"; "run"; "cli" ].

Definition has_common_name (m : ModuleInfo) : bool :=
  bool_decide (stem (path m) ∈ COMMON_ENTRY_NAMES).

Definition has_few_dependencies (m : ModuleInfo) : bool :=
  (dependency_count m <=? 3) && (0 <=? dependent_count m).

(** [module.is_entry_point = True]. *)
Definition mark_entry_point (m : ModuleInfo) : ModuleInfo :=
  mkModuleInfo (path m) (imports m) (exported_symbols m) true
    (dependency_count m) (dependent_count m).

(** The module objects live in the table and [entry_points] holds
    references to them, so the list is kept as the keys of its objects
    and read through the table: a flag set on an object shows in the
    list as well. *)
Definition objects (table : gmap string ModuleInfo) (entries : list string)
  : list ModuleInfo :=
  omap (λ key, table !! key) entries.

(** Second loop of [identify_entry_points], one module. *)
Definition entry_point_step (st : gmap string ModuleInfo * list string)
    (key : string) : gmap string ModuleInfo * list string :=
  match st.1 !! key with
  | None => st
  | Some module =>
      if has_common_name module then
        let table := <[ key := mark_entry_point module ]> st.1 in
        if bool_decide (mark_entry_point module ∈ objects table st.2)
        then (table, st.2)
        else (table, st.2 ++ [ key ])
      else st
  end.

Definition identify_entry_points (self : DependencyAnalyzer)
  : list ModuleInfo * DependencyAnalyzer :=
  let keys := (map_to_list (modules self)).*1 in
  let entry_points :=
    List.filter
      (λ key,
         match modules self !! key with
         | Some m => has_few_dependencies m
         | None => false
         end)
      keys in
  let st := foldl entry_point_step (modules self, entry_points) keys in
  (objects st.1 st.2, mkDependencyAnalyzer (dependency_graph self) st.1).

(** Notions for the loop of [identify_entry_points]: the two tests by
    key, and the record of a key once the keys of [done] were visited. *)
Definition few_key (table : gmap string ModuleInfo) (key : string) : bool :=
  match table !! key with
  | Some m => has_few_dependencies m
  | None => false
  end.

Definition common_key (table : gmap string ModuleInfo) (key : string) : bool :=
  match table !! key with
  | Some m => has_common_name m
  | None => false
  end.

Definition flagged (done : list string) (key : string) (m : ModuleInfo)
  : ModuleInfo :=
  if bool_decide (key ∈ done) && has_common_name m then mark_entry_point m else m.

Record DependencyCluster := mkDependencyCluster {
  cluster_name : string;
  cluster_modules : list string;
  internal_dependencies : nat;
  external_dependencies : list string
}.

(** [str(Path(p).parent)]. *)
Definition parent_dir (p : string) : string :=
  match path_root p, removelast (path_parts p) with
  | "", [] => "."
  | root, init => root +:+ join "/" init
  end.

(** The dictionary key under which [identify_clusters] files a path. *)
Definition cluster_key (file_path : string) : string :=
  let directory := parent_dir file_path in
  if bool_decide (directory = ".") then "root" else directory.

Definition add_to_cluster (clusters : gmap string (list string))
    (file_path : string) : gmap string (list string) :=
  let directory := cluster_key file_path in
  <[ directory := default [] (clusters !! directory) ++ [ file_path ] ]> clusters.

(** [self.dependency_graph.neighbors(n)]: the successors of [n]; a node
    that is not in the graph raises. *)
Definition neighbors (g : DiGraph) (n : string) : result (gset string) :=
  if bool_decide (n ∈ nodes g) then Ok (set_map snd (out_edges g n))
  else Raise NetworkXError.

(** The inner loop of [identify_clusters] over the neighbours of one
    member. *)
Definition count_neighbor (module_paths : list string)
    (acc : nat * gset string) (neighbor : string) : nat * gset string :=
  if bool_decide (neighbor ∈ module_paths)
  then (acc.1 + 1, acc.2)
  else (acc.1, {[ neighbor ]} ∪ acc.2).

(** The counters after the loops over the members of one cluster and
    their neighbours. *)
Fixpoint cluster_dependencies (g : DiGraph) (module_paths members : list string)
    (acc : nat * gset string) : result (nat * gset string) :=
  match members with
  | [] => Ok acc
  | module_path :: rest =>
      successors ←r neighbors g module_path ;
      cluster_dependencies g module_paths rest
        (foldl (count_neighbor module_paths) acc (elements successors))
  end.

Fixpoint cluster_objects (g : DiGraph) (items : list (string * list string))
  : result (list DependencyCluster) :=
  match items with
  | [] => Ok []
  | (dir_name, module_paths) :: rest =>
      if length module_paths <? 2 then cluster_objects g rest
      else
        deps ←r cluster_dependencies g module_paths module_paths (0, ∅) ;
        others ←r cluster_objects g rest ;
        Ok (mkDependencyCluster dir_name module_paths deps.1 (elements deps.2)
              :: others)
  end.

Definition identify_clusters (self : DependencyAnalyzer)
  : result (list DependencyCluster) :=
  if bool_decide (size (nodes (dependency_graph self)) = 0) then Ok []
  else
    let clusters := foldl add_to_cluster ∅ (map_to_list (modules self)).*1 in
    cluster_objects (dependency_graph self) (map_to_list clusters).

(** The cluster built from a directory name and its members. *)
Definition cluster_of (g : DiGraph) (item : string * list string)
  : DependencyCluster :=
  mkDependencyCluster item.1 item.2
    (size (filter (λ e : string * string, e.1 ∈ item.2 ∧ e.2 ∈ item.2) (edges g)))
    (elements
       (filter (λ n, n ∉ item.2)
          (set_map snd (filter (λ e : string * string, e.1 ∈ item.2) (edges g))
           : gset string))).

(** The record an entry-point search leaves for a module. *)
Definition entry_point_final (m : ModuleInfo) : ModuleInfo :=
  if has_common_name m then mark_entry_point m else m.

(* --------------------------------------------------------------------- *)
(** ** [learning_path_tool.py]: difficulty labels                         *)
(* --------------------------------------------------------------------- *)

(** The four labels; the symbol that follows the word in the source is
    left out. *)
Inductive DifficultyLabel := Beginner | Intermediate | Advanced | Expert.

Definition _get_difficulty_label (complexity : Q) : DifficultyLabel :=
  if Qleb complexity 5 then Beginner
  else if Qleb complexity 10 then Intermediate
  else if Qleb complexity 20 then Advanced
  else Expert.

(* --------------------------------------------------------------------- *)
(** ** [github_cloner.py]                                                 *)
(* --------------------------------------------------------------------- *)

Definition normalize_github_url (url : string) : string :=
  let url := replace ".git" "" (rstrip_by (char_in "/") url) in
  let url :=
    if startswith url "git@github.com:"
    then replace "git@github.com:" "https://github.com/" url
    else url in
  if negb (startswith url "http") then "https://" +:+ url else url.

(** A repository with a package of two modules and a script beside it. *)
Definition cluster_files : gmap string FileAnalysis :=
  list_to_map
    [ ("pkg/a.py", mkFileAnalysis "pkg/a.py" "python" [] [ "pkg.b"; "main" ] 2 2);
      ("pkg/b.py", mkFileAnalysis "pkg/b.py" "python" [] [] 1 1);
      ("main.py", mkFileAnalysis "main.py" "python" [] [ "pkg.a" ] 1 1) ].

(** A file system with one Python module, and the answers of [radon] for
    it: two functions, a maintainability index of 55, no Halstead total. *)
Definition radon_example_fs (file_path : string) : option string :=
  if bool_decide (file_path = "pkg/util.py") then Some "def load(): pass"
  else None.

Definition radon_example_cc (content : string) : result (list cc_block) :=
  Ok [ mk_cc_block "load" 1 3; mk_cc_block "parse" 9 12 ].

Definition radon_example_mi (content : string) : result Q := Ok 55%Q.

Definition radon_example_h (content : string) : result (option Q) := Ok None.

(** What every symbol found on the line with index [i] looks like. *)
Definition symbol_at (i : nat) (file_path : string) (s : CodeSymbol) : Prop :=
  sym_file_path s = file_path
  ∧ sym_line_start s = i + 1
  ∧ sym_line_end s = i + 1
  ∧ sym_docstring s = None
  ∧ sym_complexity s = 0%Z.

(** The symbols of consecutive lines: in the order of the lines, at most
    one for each line. *)
Definition line_ordered (i n : nat) (symbols : list CodeSymbol) : Prop :=
  length symbols ≤ n
  ∧ StronglySorted (λ a b, sym_line_start a < sym_line_start b) symbols
  ∧ ∀ s, s ∈ symbols → i + 1 ≤ sym_line_start s ≤ i + n.

(** A checkout with a Python module, a script of its own and a vendored
    package, and what [rglob] finds in it. *)
Definition repo_example_fs (file_path : string) : option string :=
  if bool_decide (file_path = "proj/app.py") then
    Some ("import os" +:+ NL +:+ "class App:" +:+ NL
          +:+ "    def run(self):" +:+ NL +:+ "        pass" +:+ NL
          +:+ "def _main():" +:+ NL +:+ "    pass")
  else if bool_decide (file_path = "proj/web/index.js") then
    Some ("import x from 'y';" +:+ NL +:+ "function _go() {}")
  else if bool_decide (file_path = "proj/node_modules/lib/a.js") then
    Some "function f() {}"
  else None.

Definition repo_example_rglob (repo_path pattern : string) : list string :=
  if bool_decide (pattern = "*.py") then [ "app.py" ]
  else if bool_decide (pattern = "*.js")
       then [ "web/index.js"; "node_modules/lib/a.js" ]
  else if bool_decide (pattern = "index.js") then [ "web/index.js" ]
  else [].

(** Position of a difficulty label, in the order of the bands. *)
Definition label_band (l : DifficultyLabel) : nat :=
  match l with
  | Beginner => 0
  | Intermediate => 1
  | Advanced => 2
  | Expert => 3
  end.

(** The keywords that occur in a lower-cased name. *)
Definition hits (keywords : list string) (name : string) : list string :=
  List.filter (λ keyword, contains keyword (lower name)) keywords.

(** Answers of git for a repository with two tracked files; [rest] is
    the command line after [git -C <repo>]. *)
Definition example_git (args : list string) : result string :=
  let rest := drop 3 args in
  if bool_decide (rest = [ "ls-files" ]) then Ok ("a.py" +:+ NL +:+ "b.py")
  else if bool_decide (rest = [ "rev-list"; "--count"; "HEAD"; "--"; "a.py" ])
       then Ok "3"
  else if bool_decide (rest = [ "rev-list"; "--count"; "HEAD"; "--"; "b.py" ])
       then Ok "7"
  else if bool_decide (take 2 rest = [ "log"; "--format=%an" ])
       then Ok ("ann" +:+ NL +:+ "bob" +:+ NL +:+ "ann")
  else if bool_decide (rest = [ "log"; "--since=7.days.ago"; "--name-only";
                                "--format=" ])
       then Ok ("a.py" +:+ NL +:+ "b.py" +:+ NL +:+ NL +:+ "a.py")
  else if bool_decide (rest = [ "branch"; "-a" ])
       then Ok ("* main" +:+ NL +:+ "  remotes/origin/main")
  else Ok "100".

(** Every character of [s] passes the test [f]. *)
Fixpoint all_chars (f : ascii → bool) (s : string) : bool :=
  match s with
  | "" => true
  | String c s' => f c && all_chars f s'
  end.

(** A module name as it stands in an import statement: no white space
    and no comma. *)
Definition plain_name (m : string) : bool :=
  all_chars (λ c, negb (isspace c) && negb (Ascii.eqb c ",")) m.

(** No occurrence of [sep] in [a +:+ b] starts inside [a]. *)
Definition clear_of (sep a b : string) : Prop :=
  ∀ a1 a2, a = a1 +:+ a2 → a2 ≠ "" → String.prefix sep (a2 +:+ b) = false.

(* --------------------------------------------------------------------- *)
(** ** [dependency_analyzer.py]: the report                               *)
(* --------------------------------------------------------------------- *)

Record DependencyReport := mkDependencyReport {
  dr_total_modules : nat;
  dr_core_modules : list string;
  dr_entry_points : list string;
  dr_leaf_modules_count : nat;
  dr_circular_dependencies : nat;
  dr_circular_dependency_chains : list (list string);
  dr_clusters : list (string * nat)
}.

Section Report.

(** [networkx.simple_cycles], as a list or an exception. *)
Variable simple_cycles : DiGraph → result (list (list string)).

Definition detect_circular_dependencies (self : DependencyAnalyzer)
  : list (list string) :=
  match simple_cycles (dependency_graph self) with
  | Ok cycles => cycles
  | Raise _ => []
  end.

(** The report, and the analyzer as [identify_entry_points] leaves it. *)
Definition generate_dependency_report (self : DependencyAnalyzer)
  : result (DependencyReport * DependencyAnalyzer) :=
  let core_modules := identify_core_modules self 10 in
  let found := identify_entry_points self in
  let entry_points := found.1 in
  let self := found.2 in
  let leaf_modules := identify_leaf_modules self in
  let circular_deps := detect_circular_dependencies self in
  clusters ←r identify_clusters self;
  Ok (mkDependencyReport
        (size (modules self))
        (path <$> core_modules)
        (path <$> entry_points)
        (length leaf_modules)
        (length circular_deps)
        (take 5 circular_deps)
        ((λ c, (cluster_name c, length (cluster_modules c))) <$> clusters),
      self).

End Report.

(* ===================================================================== *)
(** * Part II: properties                                                 *)
(* ===================================================================== *)

(* --------------------------------------------------------------------- *)
(** ** Complexity bands and risk levels                                   *)
(* --------------------------------------------------------------------- *)

(** Case analysis on the three comparisons of [_classify_complexity]. *)
Ltac classify_cases :=
  unfold _classify_complexity, SIMPLE, MODERATE, COMPLEX; repeat case_match.

Lemma classify_simple c : (c ≤ 5)%Z ↔ _classify_complexity c = simple.
Proof.
  classify_cases; split; intros; try discriminate; try done; lia.
Qed.

Lemma classify_moderate c : (5 < c ≤ 10)%Z ↔ _classify_complexity c = moderate.
Proof.
  classify_cases; split; intros; try discriminate; try done; lia.
Qed.

Lemma classify_complex c : (10 < c ≤ 20)%Z ↔ _classify_complexity c = complex.
Proof.
  classify_cases; split; intros; try discriminate; try done; lia.
Qed.

Lemma classify_very_complex c : (20 < c)%Z ↔ _classify_complexity c = very_complex.
Proof.
  classify_cases; split; intros; try discriminate; try done; lia.
Qed.

Lemma band_classify_mono c1 c2 :
  (c1 ≤ c2)%Z → band (_classify_complexity c1) ≤ band (_classify_complexity c2).
Proof.
  intros Hle. classify_cases; simpl; lia.
Qed.

Create HintDb bands.
#[local] Hint Resolve classify_simple classify_moderate classify_complex
  classify_very_complex : bands.

(** C4.  The classification follows the thresholds 5, 10 and 20 (at most
    5 is simple, at most 10 moderate, at most 20 complex, anything larger
    very_complex), and for integers [c1 < c2] the band of [c1] is never
    above the band of [c2] in the order simple < moderate < complex <
    very_complex. *)
Theorem classify_complexity_monotone (c1 c2 : Z) :
  (c1 < c2)%Z →
  (∀ c : Z,
      ((c ≤ 5)%Z ↔ _classify_complexity c = simple) ∧
      ((5 < c ≤ 10)%Z ↔ _classify_complexity c = moderate) ∧
      ((10 < c ≤ 20)%Z ↔ _classify_complexity c = complex) ∧
      ((20 < c)%Z ↔ _classify_complexity c = very_complex)) ∧
  band (_classify_complexity c1) ≤ band (_classify_complexity c2).
Proof.
  intros Hlt. split.
  - intros c. auto with bands.
  - apply band_classify_mono. lia.
Qed.

Lemma classify_complexity_monotone_witness :
  (3 < 25)%Z ∧
  band (_classify_complexity 3) ≤ band (_classify_complexity 25).
Proof.
  split; [ reflexivity | ].
  exact (proj2 (classify_complexity_monotone 3 25 eq_refl)).
Defined.

Lemma Qgtb_spec a b : Qgtb a b = true ↔ (b < a)%Q.
Proof.
  unfold Qgtb. rewrite negb_true_iff, <- not_true_iff_false, Qle_bool_iff.
  split; [ apply Qnot_le_lt | apply Qlt_not_le ].
Qed.

Lemma Qltb_spec a b : Qltb a b = true ↔ (a < b)%Q.
Proof. unfold Qltb. apply Qgtb_spec. Qed.

Lemma Qgtb_proper a a' b : (a == a')%Q → Qgtb a b = Qgtb a' b.
Proof. intros E. unfold Qgtb. by rewrite E. Qed.

Lemma Qltb_proper a a' b : (a == a')%Q → Qltb a b = Qltb a' b.
Proof. intros E. unfold Qltb. by rewrite E. Qed.

Lemma high_guard_spec avg mi :
  Qgtb avg (inject_Z COMPLEX) || Qltb mi (inject_Z 10) = true ↔ high_guard avg mi.
Proof. rewrite orb_true_iff, Qgtb_spec, Qltb_spec. reflexivity. Qed.

Lemma medium_guard_spec avg mi :
  Qgtb avg (inject_Z MODERATE) || Qltb mi (inject_Z 20) = true ↔ medium_guard avg mi.
Proof. rewrite orb_true_iff, Qgtb_spec, Qltb_spec. reflexivity. Qed.

(** C3.  The risk level is the first match of the chain: high when the
    average complexity exceeds 20 or the maintainability index is below
    10; otherwise medium when the average exceeds 10 or the index is below
    20; otherwise low.  It depends on nothing but the values of its two
    arguments: equal numbers give equal levels. *)
Theorem determine_risk_level_chain (avg_complexity mi_index : Q) :
  (_determine_risk_level avg_complexity mi_index = high
     ↔ high_guard avg_complexity mi_index) ∧
  (_determine_risk_level avg_complexity mi_index = medium
     ↔ ¬ high_guard avg_complexity mi_index
       ∧ medium_guard avg_complexity mi_index) ∧
  (_determine_risk_level avg_complexity mi_index = low
     ↔ ¬ high_guard avg_complexity mi_index
       ∧ ¬ medium_guard avg_complexity mi_index) ∧
  (∀ avg' mi' : Q,
      (avg_complexity == avg')%Q → (mi_index == mi')%Q →
      _determine_risk_level avg' mi' = _determine_risk_level avg_complexity mi_index).
Proof.
  pose proof (high_guard_spec avg_complexity mi_index) as Hh.
  pose proof (medium_guard_spec avg_complexity mi_index) as Hm.
  split; [ | split; [ | split ] ].
  4: { intros avg' mi' Ea Em. unfold _determine_risk_level.
       by rewrite !(Qgtb_proper _ _ _ Ea), !(Qltb_proper _ _ _ Em). }
  all: unfold _determine_risk_level.
  all: destruct (Qgtb avg_complexity (inject_Z COMPLEX) || Qltb mi_index (inject_Z 10));
       destruct (Qgtb avg_complexity (inject_Z MODERATE) || Qltb mi_index (inject_Z 20)).
  all: split; [ intros H; try discriminate H | intros H ].
  all: try tauto.
  all: destruct Hh, Hm; intuition (auto; discriminate).
Qed.

Lemma determine_risk_level_chain_witness :
  _determine_risk_level 8 8 = high ∧
  _determine_risk_level (16 # 2) (24 # 3) = _determine_risk_level 8 8.
Proof.
  pose proof (determine_risk_level_chain 8 8) as (Hh & _ & _ & Hpure).
  split.
  - apply Hh. right. reflexivity.
  - apply Hpure; reflexivity.
Defined.

(* --------------------------------------------------------------------- *)
(** ** Facts about the string built-ins                                   *)
(* --------------------------------------------------------------------- *)

Lemma startswith_spec s p : startswith s p = true ↔ ∃ r, s = p +:+ r.
Proof.
  unfold startswith. revert s.
  induction p as [ | a p IH ]; intros [ | b s ]; cbn.
  - split; [ intros _; by exists "" | done ].
  - split; [ intros _; by exists (String b s) | done ].
  - split; [ done | intros [r Hr]; discriminate Hr ].
  - destruct (ascii_dec a b) as [ -> | Hne ].
    + rewrite IH. split; intros [r Hr]; exists r.
      * by rewrite Hr.
      * by injection Hr.
    + split; [ done | intros [r Hr]; injection Hr as Hab _; congruence ].
Qed.

Lemma startswith_app p r : startswith (p +:+ r) p = true.
Proof. apply startswith_spec. by exists r. Qed.

Lemma app_cons a s t : String a s +:+ t = String a (s +:+ t).
Proof. reflexivity. Qed.

Lemma app_empty_r s : s +:+ "" = s.
Proof. induction s as [ | a s IH ]; [ done | ]. by rewrite app_cons, IH. Qed.

Lemma app_assoc_str s1 s2 s3 : (s1 +:+ s2) +:+ s3 = s1 +:+ (s2 +:+ s3).
Proof. induction s1 as [ | a s1 IH ]; [ done | ]. by rewrite !app_cons, IH. Qed.

Lemma contains_spec sub s : contains sub s = true ↔ occurs_in sub s.
Proof.
  unfold occurs_in. induction s as [ | a s IH ].
  - cbn [contains]. rewrite orb_false_r. fold (startswith "" sub).
    rewrite startswith_spec. split.
    + intros [r Hr]. by exists "", r.
    + intros ([ | b pre ] & post & H); [ by exists post | discriminate H ].
  - cbn [contains]. rewrite orb_true_iff, IH. fold (startswith (String a s) sub).
    rewrite startswith_spec. split.
    + intros [ [r Hr] | (pre & post & H) ].
      * by exists "", r.
      * exists (String a pre), post. by rewrite app_cons, H.
    + intros ([ | b pre ] & post & H).
      * left. by exists post.
      * right. injection H as _ H. by exists pre, post.
Qed.


(* --------------------------------------------------------------------- *)
(** ** Symbol extraction and line counts                                  *)
(* --------------------------------------------------------------------- *)

Lemma count_code_lines_filter lines :
  count_code_lines lines = length (List.filter is_code_line lines).
Proof.
  induction lines as [ | l lines IH ]; [ done | ].
  cbn [count_code_lines List.filter]. rewrite IH. by destruct (is_code_line l).
Qed.

Lemma is_code_line_spec line :
  is_code_line line = true
  ↔ strip line ≠ "" ∧ ¬ ∃ rest, strip line = "#" +:+ rest.
Proof.
  unfold is_code_line.
  rewrite andb_true_iff, !negb_true_iff, bool_decide_eq_false.
  rewrite <- not_true_iff_false, startswith_spec. reflexivity.
Qed.

Lemma count_code_lines_le lines : count_code_lines lines ≤ length lines.
Proof.
  induction lines as [ | l lines IH ]; [ done | ].
  cbn [count_code_lines length]. destruct (is_code_line l); lia.
Qed.

(** C9.  For a file that [analyze_file] analyses, whatever its language,
    [code_lines] is the number of lines whose stripped form is non-empty
    and does not start with '#', [total_lines] is the number of lines,
    and [code_lines] never exceeds [total_lines].  The witness below is a
    JavaScript file whose '//' comment line is counted as code. *)
Theorem analyze_file_code_lines (fs : string → option string)
    (file_path : string) (analysis : FileAnalysis) :
  analyze_file fs file_path = Some analysis →
  ∃ content : string,
    fs file_path = Some content ∧
    fa_total_lines analysis = length (str_split NL content) ∧
    fa_code_lines analysis
      = length
          (filter (λ line, strip line ≠ "" ∧ startswith (strip line) "#" = false)
             (str_split NL content)) ∧
    fa_code_lines analysis ≤ fa_total_lines analysis.
Proof.
  unfold analyze_file. intros H.
  destruct (fs file_path) as [ content | ]; [ | discriminate H ].
  destruct (LANGUAGE_MAP !! suffix file_path) as [ language | ]; [ | discriminate H ].
  case_bool_decide; [ discriminate H | ].
  injection H as <-. exists content. cbn.
  repeat split; [ | apply count_code_lines_le ].
  generalize (str_split NL content). intros lines.
  induction lines as [ | l lines IH ]; [ done | ].
  cbn [count_code_lines]. rewrite IH. unfold is_code_line.
  rewrite filter_cons. case_bool_decide as Hs; cbn.
  - rewrite decide_False by tauto. done.
  - destruct (startswith (strip l) "#") eqn:Hc; cbn.
    + rewrite decide_False; [ done | ]. intros [_ ?]. discriminate.
    + rewrite decide_True by done. done.
Qed.

Lemma analyze_file_code_lines_witness :
  ∃ analysis,
    analyze_file js_example_fs "web/app.js" = Some analysis ∧
    fa_language analysis = "javascript" ∧
    fa_total_lines analysis = 4 ∧
    fa_code_lines analysis = 2 ∧
    fa_code_lines analysis ≤ fa_total_lines analysis.
Proof.
  destruct (analyze_file_code_lines js_example_fs "web/app.js" _ eq_refl)
    as (content & Hfs & Htotal & Hcode & Hle).
  eexists. split; [ reflexivity | ].
  repeat split. exact Hle.
Defined.

Lemma def_line_not_class s :
  startswith s "def " = true → startswith s "class " = false.
Proof. intros [r ->]%startswith_spec. reflexivity. Qed.

Lemma python_symbols_from_elem k lines file_path s :
  s ∈ python_symbols_from k lines file_path
  ↔ ∃ j line, lines !! j = Some line
              ∧ s ∈ python_symbols_of_line (k + j) line file_path.
Proof.
  revert k. induction lines as [ | l lines IH ]; intros k.
  - cbn. split; [ by intros ?%elem_of_nil | by intros (j & line & ? & _) ].
  - cbn [python_symbols_from]. rewrite elem_of_app, IH. split.
    + intros [ H | (j & line & Hj & H) ].
      * exists 0, l. by rewrite Nat.add_0_r.
      * exists (S j), line. split; [ done | ]. by rewrite Nat.add_succ_r.
    + intros ([ | j ] & line & Hj & H).
      * left. injection Hj as <-. by rewrite Nat.add_0_r in H.
      * right. exists j, line. split; [ done | ].
        by rewrite Nat.add_succ_r in H.
Qed.

Lemma python_symbols_of_line_start i line file_path s :
  s ∈ python_symbols_of_line i line file_path → sym_line_start s = i + 1.
Proof.
  unfold python_symbols_of_line.
  repeat case_match; try by intros ?%elem_of_nil.
  all: by intros ->%list_elem_of_singleton.
Qed.

Lemma python_symbols_of_def_line i line file_path :
  startswith (strip line) "def " = true →
  python_symbols_of_line i line file_path = [ def_symbol i line file_path ].
Proof.
  intros Hdef. unfold python_symbols_of_line.
  by rewrite (def_line_not_class _ Hdef), Hdef.
Qed.

(** C6, as the code has it.  Every line whose stripped form starts with
    'def ' yields exactly one symbol, at that line number; the symbol is
    a method exactly when the source line starts with four spaces or
    with a tab, and a function otherwise; it is public exactly when its
    name does not start with an underscore. *)
Theorem python_def_line_symbol (lines : list string) (file_path : string)
    (i : nat) (line : string) :
  lines !! i = Some line →
  startswith (strip line) "def " = true →
  ∃ s : CodeSymbol,
    s ∈ _extract_python_symbols lines file_path ∧
    sym_line_start s = i + 1 ∧
    (∀ s' : CodeSymbol,
        s' ∈ _extract_python_symbols lines file_path →
        sym_line_start s' = i + 1 → s' = s) ∧
    sym_name s = strip (replace "def " "" (first_part "(" (strip line))) ∧
    (sym_type s = SymMethod
       ↔ startswith line "    " = true ∨ startswith line TAB = true) ∧
    (sym_type s = SymFunction
       ↔ startswith line "    " = false ∧ startswith line TAB = false) ∧
    (sym_is_public s = true ↔ startswith (sym_name s) "_" = false).
Proof.
  intros Hi Hdef. exists (def_symbol i line file_path).
  split; [ | split; [ done | split; [ | split; [ done | ] ] ] ].
  - apply python_symbols_from_elem. exists i, line. split; [ done | ].
    rewrite python_symbols_of_def_line by done. apply list_elem_of_singleton. done.
  - intros s' [j [l [Hj Hs']]]%python_symbols_from_elem Hstart.
    pose proof (python_symbols_of_line_start _ _ _ _ Hs') as Hstart'.
    assert (j = i) as -> by (cbn in Hstart'; lia).
    assert (l = line) as -> by congruence.
    rewrite python_symbols_of_def_line in Hs' by done.
    by apply list_elem_of_singleton in Hs'.
  - cbn. rewrite negb_true_iff.
    destruct (startswith line "    "), (startswith line TAB); cbn;
      intuition (auto; discriminate).
Qed.

Lemma python_def_line_symbol_witness :
  ∃ s : CodeSymbol,
    s ∈ _extract_python_symbols [ "class A:"; "    def _run(self):" ] "a.py" ∧
    sym_line_start s = 2 ∧ sym_name s = "_run".
Proof.
  destruct (python_def_line_symbol [ "class A:"; "    def _run(self):" ] "a.py"
              1 "    def _run(self):" eq_refl eq_refl)
    as (s & Hin & Hstart & _ & Hname & _).
  exists s. repeat split; assumption.
Defined.

(** C6 as stated fails: a [def] indented by two spaces has leading
    indentation and is still classified as a function. *)
Lemma python_method_iff_indented_counterexample :
  ¬ (∀ (lines : list string) (file_path : string) (i : nat) (line : string)
       (s : CodeSymbol),
        lines !! i = Some line →
        startswith (strip line) "def " = true →
        s ∈ _extract_python_symbols lines file_path →
        sym_line_start s = i + 1 →
        (sym_type s = SymMethod ↔ has_leading_indentation line = true)).
Proof.
  intros H.
  assert (mkCodeSymbol "run" SymFunction "a.py" 2 2 None 0 true
            ∈ _extract_python_symbols [ "class A:"; "  def run(self):" ] "a.py")
    as Hin.
  { apply list_elem_of_In. right. left. reflexivity. }
  specialize (H [ "class A:"; "  def run(self):" ] "a.py" 1 "  def run(self):" _
                eq_refl eq_refl Hin eq_refl).
  destruct H as [_ H]. discriminate (H eq_refl).
Qed.
(* --------------------------------------------------------------------- *)
(** ** Import resolution                                                  *)
(* --------------------------------------------------------------------- *)


Lemma first_available_cons_out p rest (available_files : gset string) :
  p ∉ available_files →
  first_available (p :: rest) available_files = first_available rest available_files.
Proof. intros H. cbn. by rewrite bool_decide_eq_false_2. Qed.

Lemma first_available_none paths (available_files : gset string) :
  (∀ p, p ∈ paths → p ∉ available_files) →
  first_available paths available_files = "".
Proof.
  induction paths as [ | p rest IH ]; intros H; [ done | ].
  rewrite first_available_cons_out by (apply H; left).
  apply IH. intros q Hq. apply H. by right.
Qed.

Lemma first_available_found paths (available_files : gset string) r :
  first_available paths available_files = r →
  r = "" ∨ (r ∈ paths ∧ r ∈ available_files).
Proof.
  induction paths as [ | p rest IH ]; cbn; [ by left | ].
  case_bool_decide as Hp.
  - intros <-. right. split; [ left | done ].
  - intros [ -> | [? ?] ]%IH; [ by left | right ]. split; [ by right | done ].
Qed.

Lemma app_nonempty s t : t ≠ "" → s +:+ t ≠ "".
Proof. by destruct s, t. Qed.

Lemma potential_paths_nonempty import_path p :
  p ∈ potential_paths import_path → p ≠ "".
Proof.
  unfold potential_paths. rewrite elem_of_app, list_elem_of_singleton.
  intros [ -> | H ]; [ by apply app_nonempty | ].
  destruct (_ || _); [ | by apply elem_of_nil in H ].
  apply elem_of_cons in H as [ -> | ->%list_elem_of_singleton ];
    by apply app_nonempty.
Qed.

Lemma resolve_import_available import_path (available_files : gset string) :
  _resolve_import import_path available_files ≠ "" →
  _resolve_import import_path available_files ∈ available_files.
Proof.
  intros Hne.
  by destruct (first_available_found (potential_paths import_path) available_files _
                 eq_refl) as [ ? | [_ ?] ].
Qed.

Lemma resolve_import_nonempty import_path (available_files : gset string) :
  _resolve_import import_path available_files ∈ available_files →
  "" ∉ available_files →
  _resolve_import import_path available_files ≠ "".
Proof. intros Hin Hno E. by rewrite E in Hin. Qed.




(* --------------------------------------------------------------------- *)
(** ** The three passes of [build_dependency_graph]                       *)
(* --------------------------------------------------------------------- *)

Lemma create_nodes_graph self items :
  nodes (dependency_graph (foldl create_node self items))
  = nodes (dependency_graph self) ∪ list_to_set items.*1
  ∧ edges (dependency_graph (foldl create_node self items))
    = edges (dependency_graph self).
Proof.
  revert self. induction items as [ | [k a] items IH ]; intros self.
  - cbn. split; [ set_solver | done ].
  - cbn [foldl]. destruct (IH (create_node self (k, a))) as [-> ->].
    cbn. split; [ set_solver | done ].
Qed.

Lemma create_nodes_modules self items k :
  NoDup items.*1 →
  modules (foldl create_node self items) !! k
  = match (list_to_map items : gmap string FileAnalysis) !! k with
    | Some a => Some (initial_module k a)
    | None => modules self !! k
    end.
Proof.
  revert self. induction items as [ | [k' a] items IH ]; intros self Hnd.
  - by cbn.
  - apply NoDup_cons in Hnd as [Hk' Hnd]. cbn [foldl]. rewrite IH by done.
    cbn [list_to_map foldr uncurry]. destruct (decide (k' = k)) as [ -> | Hne ].
    + rewrite lookup_insert_eq.
      rewrite (not_elem_of_list_to_map_1 items k) by done.
      cbn. by rewrite lookup_insert_eq.
    + rewrite lookup_insert_ne by done.
      destruct (list_to_map items !! k); [ done | ].
      cbn. by rewrite lookup_insert_ne.
Qed.

Lemma create_edge_modules avail file_path self import_path :
  modules (create_edge avail file_path self import_path) = modules self.
Proof. unfold create_edge. by case_match. Qed.

Lemma create_edges_modules avail self item :
  modules (create_edges avail self item) = modules self.
Proof.
  unfold create_edges. generalize (imports item.2). intros imps. revert self.
  induction imps as [ | imp imps IH ]; intros self; [ done | ].
  cbn [foldl]. by rewrite IH, create_edge_modules.
Qed.

Lemma create_all_edges_modules avail self items :
  modules (foldl (create_edges avail) self items) = modules self.
Proof.
  revert self. induction items as [ | item items IH ]; intros self; [ done | ].
  cbn [foldl]. by rewrite IH, create_edges_modules.
Qed.

Lemma create_edge_edges avail file_path self import_path e :
  e ∈ edges (dependency_graph (create_edge avail file_path self import_path))
  ↔ e ∈ edges (dependency_graph self)
    ∨ ∃ target, e = (file_path, target)
                ∧ import_edge avail (modules self) file_path import_path target.
Proof.
  unfold create_edge, import_edge.
  destruct (bool_decide (_ ≠ "") && bool_decide (_ ∈ dom (modules self))) eqn:Hok.
  - apply andb_true_iff in Hok as [Hne%bool_decide_eq_true Hin%bool_decide_eq_true].
    cbn. rewrite elem_of_union, elem_of_singleton. split.
    + intros [ -> | ? ]; [ right | by left ]. eauto.
    + intros [ ? | (target & -> & <- & _) ]; [ by right | by left ].
  - apply andb_false_iff in Hok. split; [ by left | ].
    intros [ ? | (target & -> & <- & Hne & Hin) ]; [ done | ].
    destruct Hok as [ Hok%bool_decide_eq_false | Hok%bool_decide_eq_false ]; done.
Qed.

Lemma create_edge_nodes avail file_path self import_path n :
  n ∈ nodes (dependency_graph (create_edge avail file_path self import_path))
  ↔ n ∈ nodes (dependency_graph self)
    ∨ ∃ target, import_edge avail (modules self) file_path import_path target
                ∧ (n = file_path ∨ n = target).
Proof.
  unfold create_edge, import_edge.
  destruct (bool_decide (_ ≠ "") && bool_decide (_ ∈ dom (modules self))) eqn:Hok.
  - apply andb_true_iff in Hok as [Hne%bool_decide_eq_true Hin%bool_decide_eq_true].
    cbn. rewrite !elem_of_union, !elem_of_singleton. split.
    + intros [ [ -> | -> ] | ? ]; [ right | right | by left ]; eauto 10.
    + intros [ ? | (target & (<- & _) & [ -> | -> ]) ]; auto.
  - apply andb_false_iff in Hok. split; [ by left | ].
    intros [ ? | (target & (<- & Hne & Hin) & _) ]; [ done | ].
    destruct Hok as [ Hok%bool_decide_eq_false | Hok%bool_decide_eq_false ]; done.
Qed.

Lemma create_edges_edges avail self item e :
  e ∈ edges (dependency_graph (create_edges avail self item))
  ↔ e ∈ edges (dependency_graph self)
    ∨ ∃ import_path target,
        import_path ∈ imports item.2 ∧ e = (item.1, target)
        ∧ import_edge avail (modules self) item.1 import_path target.
Proof.
  unfold create_edges. generalize (imports item.2). intros imps. revert self.
  induction imps as [ | imp imps IH ]; intros self.
  - cbn. split; [ by left | ]. intros [ ? | (? & ? & ?%elem_of_nil & _) ]; done.
  - cbn [foldl]. rewrite IH, create_edge_edges, create_edge_modules. split.
    + intros [ [ ? | (t & ? & ?) ] | (i & t & ? & ? & ?) ]; [ by left | right.. ].
      * exists imp, t. split; [ left | done ].
      * exists i, t. split; [ by right | done ].
    + intros [ ? | (i & t & [ -> | ? ]%elem_of_cons & ? & ?) ].
      * by left; left.
      * left; right. by exists t.
      * right. by exists i, t.
Qed.

Lemma create_edges_nodes avail self item n :
  n ∈ nodes (dependency_graph (create_edges avail self item))
  ↔ n ∈ nodes (dependency_graph self)
    ∨ ∃ import_path target,
        import_path ∈ imports item.2
        ∧ import_edge avail (modules self) item.1 import_path target
        ∧ (n = item.1 ∨ n = target).
Proof.
  unfold create_edges. generalize (imports item.2). intros imps. revert self.
  induction imps as [ | imp imps IH ]; intros self.
  - cbn. split; [ by left | ]. intros [ ? | (? & ? & ?%elem_of_nil & _) ]; done.
  - cbn [foldl]. rewrite IH, create_edge_nodes, create_edge_modules. split.
    + intros [ [ ? | (t & ? & ?) ] | (i & t & ? & ? & ?) ]; [ by left | right.. ].
      * exists imp, t. split; [ left | done ].
      * exists i, t. split; [ by right | done ].
    + intros [ ? | (i & t & [ -> | ? ]%elem_of_cons & ? & ?) ].
      * by left; left.
      * left; right. by exists t.
      * right. by exists i, t.
Qed.

Lemma create_all_edges_edges avail self items e :
  e ∈ edges (dependency_graph (foldl (create_edges avail) self items))
  ↔ e ∈ edges (dependency_graph self)
    ∨ ∃ item import_path target,
        item ∈ items ∧ import_path ∈ imports item.2 ∧ e = (item.1, target)
        ∧ import_edge avail (modules self) item.1 import_path target.
Proof.
  revert self. induction items as [ | item items IH ]; intros self.
  - cbn. split; [ by left | ]. intros [ ? | (? & ? & ? & ?%elem_of_nil & _) ]; done.
  - cbn [foldl]. rewrite IH, create_edges_edges, create_edges_modules. split.
    + intros [ [ ? | (i & t & ? & ? & ?) ] | (it & i & t & ? & ? & ? & ?) ];
        [ by left | right.. ].
      * exists item, i, t. split; [ left | done ].
      * exists it, i, t. split; [ by right | done ].
    + intros [ ? | (it & i & t & [ -> | ? ]%elem_of_cons & ? & ? & ?) ].
      * by left; left.
      * left; right. by exists i, t.
      * right. by exists it, i, t.
Qed.

Lemma create_all_edges_nodes avail self items n :
  n ∈ nodes (dependency_graph (foldl (create_edges avail) self items))
  ↔ n ∈ nodes (dependency_graph self)
    ∨ ∃ item import_path target,
        item ∈ items ∧ import_path ∈ imports item.2
        ∧ import_edge avail (modules self) item.1 import_path target
        ∧ (n = item.1 ∨ n = target).
Proof.
  revert self. induction items as [ | item items IH ]; intros self.
  - cbn. split; [ by left | ]. intros [ ? | (? & ? & ? & ?%elem_of_nil & _) ]; done.
  - cbn [foldl]. rewrite IH, create_edges_nodes, create_edges_modules. split.
    + intros [ [ ? | (i & t & ? & ? & ?) ] | (it & i & t & ? & ? & ? & ?) ];
        [ by left | right.. ].
      * exists item, i, t. split; [ left | done ].
      * exists it, i, t. split; [ by right | done ].
    + intros [ ? | (it & i & t & [ -> | ? ]%elem_of_cons & ? & ? & ?) ].
      * by left; left.
      * left; right. by exists i, t.
      * right. by exists it, i, t.
Qed.

Lemma set_counts_graph self keys :
  dependency_graph (foldl set_counts self keys) = dependency_graph self.
Proof.
  revert self. induction keys as [ | k keys IH ]; intros self; [ done | ].
  cbn [foldl]. by rewrite IH.
Qed.

Lemma set_counts_modules self keys k :
  modules (foldl set_counts self keys) !! k
  = if decide (k ∈ keys)
    then with_counts (dependency_graph self) k <$> modules self !! k
    else modules self !! k.
Proof.
  revert self. induction keys as [ | k' keys IH ]; intros self.
  - cbn. by rewrite decide_False by apply not_elem_of_nil.
  - cbn [foldl]. rewrite IH. cbn [set_counts dependency_graph modules].
    destruct (decide (k = k')) as [ -> | Hne ].
    + rewrite lookup_alter_eq, (decide_True (P := k' ∈ k' :: keys)) by left.
      case_decide; [ | done ].
      by destruct (modules self !! k').
    + rewrite lookup_alter_ne by done.
      destruct (decide (k ∈ keys)) as [ Hin | Hout ].
      * by rewrite decide_True by (by right).
      * rewrite decide_False; [ done | ].
        by intros [ ? | ? ]%elem_of_cons.
Qed.

(* --------------------------------------------------------------------- *)
(** ** The graph of a freshly constructed analyzer                        *)
(* --------------------------------------------------------------------- *)

Lemma init_fresh path_exists repo_path self0 :
  DependencyAnalyzer_init path_exists repo_path = Ok self0 →
  self0 = fresh_analyzer.
Proof.
  unfold DependencyAnalyzer_init. destruct (path_exists repo_path); [ | done ].
  by intros [= <-].
Qed.

Section Fresh_build.

Variable file_analyses : gmap string FileAnalysis.

Let self1 := foldl create_node fresh_analyzer (map_to_list file_analyses).
Let self2 :=
  foldl (create_edges (dom file_analyses)) self1 (map_to_list (modules self1)).
Let self := build_dependency_graph file_analyses fresh_analyzer.

Lemma first_pass_modules k :
  modules self1 !! k = initial_module k <$> file_analyses !! k.
Proof.
  unfold self1. rewrite create_nodes_modules by apply NoDup_fst_map_to_list.
  rewrite list_to_map_to_list. by destruct (file_analyses !! k).
Qed.

Lemma first_pass_dom : dom (modules self1) = dom file_analyses.
Proof.
  apply set_eq. intros k. rewrite !elem_of_dom, first_pass_modules.
  by rewrite fmap_is_Some.
Qed.

Lemma first_pass_graph :
  nodes (dependency_graph self1) = dom file_analyses
  ∧ edges (dependency_graph self1) = ∅.
Proof.
  unfold self1.
  destruct (create_nodes_graph fresh_analyzer (map_to_list file_analyses))
    as [-> ->].
  split; [ | done ]. cbn. apply leibniz_equiv. rewrite dom_alt. set_solver.
Qed.

Lemma first_pass_items item :
  item ∈ map_to_list (modules self1)
  ↔ ∃ analysis, file_analyses !! item.1 = Some analysis
                ∧ item.2 = initial_module item.1 analysis.
Proof.
  destruct item as [k m]. rewrite elem_of_map_to_list, first_pass_modules. cbn.
  destruct (file_analyses !! k) as [ a | ]; cbn; split.
  - intros [= <-]. by exists a.
  - by intros (? & [= <-] & ->).
  - done.
  - by intros (? & ? & _).
Qed.

Lemma build_unfold :
  self = foldl set_counts self2 (map_to_list (modules self2)).*1.
Proof. reflexivity. Qed.

Lemma build_graph : dependency_graph self = dependency_graph self2.
Proof. rewrite build_unfold. apply set_counts_graph. Qed.

Lemma second_pass_modules : modules self2 = modules self1.
Proof. apply create_all_edges_modules. Qed.

(** The edges of the finished graph are the resolved imports. *)
Lemma build_edges u v :
  (u, v) ∈ edges (dependency_graph self)
  ↔ ∃ analysis import_path,
      file_analyses !! u = Some analysis
      ∧ import_path ∈ fa_imports analysis
      ∧ _resolve_import import_path (dom file_analyses) = v
      ∧ v ≠ "".
Proof.
  rewrite build_graph. unfold self2.
  rewrite create_all_edges_edges, (proj2 first_pass_graph). split.
  - intros [ ?%not_elem_of_empty
           | (item & imp & t & (a & Ha & Hm)%first_pass_items & Himp & [= -> ->]
              & Hres & Hne & _) ]; [ done | ].
    exists a, imp. rewrite Hm in Himp. done.
  - intros (a & imp & Ha & Himp & Hres & Hne). right.
    exists (u, initial_module u a), imp, v. split.
    { apply first_pass_items. by exists a. }
    split; [ done | ]. split; [ done | ]. split; [ done | ]. split; [ done | ].
    rewrite first_pass_dom, <- Hres. apply resolve_import_available. by rewrite Hres.
Qed.

Lemma build_edges_closed u v :
  (u, v) ∈ edges (dependency_graph self) →
  u ∈ dom file_analyses ∧ v ∈ dom file_analyses.
Proof.
  intros (a & imp & Ha & _ & Hres & Hne)%build_edges. split.
  - apply elem_of_dom. by exists a.
  - rewrite <- Hres. apply resolve_import_available. by rewrite Hres.
Qed.

Lemma build_nodes : nodes (dependency_graph self) = dom file_analyses.
Proof.
  apply set_eq. intros n. rewrite build_graph. unfold self2.
  rewrite create_all_edges_nodes, (proj1 first_pass_graph). split.
  - intros [ ? | (item & imp & t & (a & Ha & Hm)%first_pass_items & Himp
                  & (Hres & Hne & Hin) & [ -> | -> ]) ]; [ done | | ].
    + apply elem_of_dom. by exists a.
    + by rewrite first_pass_dom in Hin.
  - by left.
Qed.

Lemma build_modules k :
  modules self !! k
  = (λ analysis,
       with_counts (dependency_graph self) k (initial_module k analysis))
      <$> file_analyses !! k.
Proof.
  rewrite build_graph, build_unfold, set_counts_modules, second_pass_modules.
  rewrite first_pass_modules.
  destruct (file_analyses !! k) as [ a | ] eqn:Ha; cbn.
  - rewrite decide_True; [ done | ].
    apply list_elem_of_fmap. exists (k, initial_module k a). split; [ done | ].
    apply elem_of_map_to_list. by rewrite first_pass_modules, Ha.
  - by case_decide.
Qed.

Lemma build_modules_dom : dom (modules self) = dom file_analyses.
Proof.
  apply set_eq. intros k. rewrite !elem_of_dom, build_modules.
  by rewrite fmap_is_Some.
Qed.

End Fresh_build.



(* --------------------------------------------------------------------- *)
(** ** Building again on the same analyzer                                *)
(* --------------------------------------------------------------------- *)

Lemma create_nodes_dom self items :
  dom (modules (foldl create_node self items))
  = dom (modules self) ∪ list_to_set items.*1.
Proof.
  revert self. induction items as [ | [k a] items IH ]; intros self.
  - cbn. set_solver.
  - cbn [foldl]. rewrite IH. cbn. rewrite dom_insert_L. set_solver.
Qed.

Lemma set_counts_dom self keys :
  dom (modules (foldl set_counts self keys)) = dom (modules self).
Proof.
  apply set_eq. intros k. rewrite !elem_of_dom, set_counts_modules.
  case_decide; [ | done ]. by rewrite fmap_is_Some.
Qed.

Lemma fresh_closed_within keys : closed_within keys fresh_analyzer.
Proof. repeat split; set_solver. Qed.

(** The closure of C10 needs less than a new analyzer: it is enough that
    the analyzer holds nothing outside the key set of the map, as after
    an earlier build over the same files. *)
Lemma build_closed_within (file_analyses : gmap string FileAnalysis)
    (self0 : DependencyAnalyzer) :
  closed_within (dom file_analyses) self0 →
  let self := build_dependency_graph file_analyses self0 in
  nodes (dependency_graph self) = dom file_analyses
  ∧ dom (modules self) = dom file_analyses
  ∧ closed_within (dom file_analyses) self.
Proof.
  intros (Hnodes & Hdom & Hedges). cbn zeta. unfold build_dependency_graph.
  set (self1 := foldl create_node self0 (map_to_list file_analyses)).
  set (self2 := foldl _ self1 _).
  assert (dom (modules self1) = dom file_analyses) as Hdom1.
  { unfold self1. rewrite create_nodes_dom.
    apply set_eq. intros k. rewrite elem_of_union, elem_of_list_to_set.
    rewrite <- (elem_of_elements (dom file_analyses)).
    assert (k ∈ (map_to_list file_analyses).*1 ↔ k ∈ dom file_analyses) as ->.
    { rewrite elem_of_dom, list_elem_of_fmap. split.
      - intros ([k' a] & -> & H%elem_of_map_to_list). by exists a.
      - intros [a Ha]. exists (k, a). split; [ done | ].
        by apply elem_of_map_to_list. }
    rewrite elem_of_elements. set_solver. }
  assert (nodes (dependency_graph self1) = dom file_analyses) as Hnodes1.
  { unfold self1.
    destruct (create_nodes_graph self0 (map_to_list file_analyses)) as [-> _].
    apply leibniz_equiv. rewrite dom_alt in *. set_solver. }
  assert (edges (dependency_graph self1) = edges (dependency_graph self0)) as Hedges1.
  { unfold self1.
    by destruct (create_nodes_graph self0 (map_to_list file_analyses)) as [_ ->]. }
  assert (modules self2 = modules self1) as Hmod2
      by apply create_all_edges_modules.
  assert (nodes (dependency_graph self2) = dom file_analyses) as Hnodes2.
  { apply set_eq. intros n. unfold self2.
    rewrite create_all_edges_nodes, Hnodes1. split; [ | by left ].
    intros [ ? | ([k m] & imp & t & Hitem%elem_of_map_to_list & _
                  & (_ & _ & Ht) & [ -> | -> ]) ]; [ done | | ].
    - rewrite <- Hdom1. apply elem_of_dom. by exists m.
    - by rewrite <- Hdom1. }
  assert (∀ u v, (u, v) ∈ edges (dependency_graph self2)
                 → u ∈ dom file_analyses ∧ v ∈ dom file_analyses) as Hedges2.
  { intros u v. unfold self2. rewrite create_all_edges_edges, Hedges1.
    intros [ ?%Hedges | ([k m] & imp & t & Hitem%elem_of_map_to_list & _
                         & [= -> ->] & (_ & _ & Ht)) ]; [ done | ].
    rewrite <- Hdom1. split; [ | done ]. apply elem_of_dom. by exists m. }
  unfold closed_within.
  rewrite set_counts_graph, set_counts_dom, Hmod2, Hdom1, Hnodes2.
  split; [ done | ]. split; [ done | ]. split; [ done | ]. split; [ done | ].
  exact Hedges2.
Qed.

(** Without that condition earlier nodes stay in the graph. *)
Lemma build_keeps_nodes (file_analyses : gmap string FileAnalysis)
    (self0 : DependencyAnalyzer) :
  nodes (dependency_graph self0)
  ⊆ nodes (dependency_graph (build_dependency_graph file_analyses self0)).
Proof.
  unfold build_dependency_graph. rewrite set_counts_graph. intros n Hn.
  apply create_all_edges_nodes. left.
  destruct (create_nodes_graph self0 (map_to_list file_analyses)) as [-> _].
  set_solver.
Qed.

(* --------------------------------------------------------------------- *)
(** ** Degrees                                                            *)
(* --------------------------------------------------------------------- *)

Lemma size_set_map_inj (f : string → string * string) (X : gset string) :
  Inj (=) (=) f →
  size (set_map f X : gset (string * string)) = size X.
Proof.
  intros Hinj. induction X as [ | x X Hx IH ] using set_ind_L.
  - by rewrite set_map_empty, !size_empty.
  - rewrite set_map_union_L, set_map_singleton_L.
    rewrite !size_union, !size_singleton, IH; [ done | | ].
    + intros y ->%elem_of_singleton. done.
    + intros y ->%elem_of_singleton (z & ->%Hinj & Hz)%elem_of_map. done.
Qed.

Section Degree_sums.

Variable proj : string * string → string.
Variable E : gset (string * string).

Lemma sum_degree_filter (l : list string) :
  NoDup l →
  sum_list ((λ k, size (filter (λ e, proj e = k) E)) <$> l)
  = size (filter (λ e, proj e ∈ l) E).
Proof.
  induction 1 as [ | k l Hk Hnd IH ]; csimpl.
  - symmetry. apply size_empty_iff. intros e. rewrite elem_of_filter. split.
    + by intros [?%not_elem_of_nil _].
    + by intros ?%not_elem_of_empty.
  - rewrite IH, <- size_union.
    + f_equal. apply set_eq. intros e.
      rewrite elem_of_union, !elem_of_filter, elem_of_cons. tauto.
    + intros e [He _]%elem_of_filter [He' _]%elem_of_filter. congruence.
Qed.


End Degree_sums.

Lemma elem_of_resolved_imports file_analyses u v :
  v ∈ resolved_imports file_analyses u
  ↔ ∃ analysis import_path,
      file_analyses !! u = Some analysis
      ∧ import_path ∈ fa_imports analysis
      ∧ _resolve_import import_path (dom file_analyses) = v
      ∧ v ≠ "".
Proof.
  unfold resolved_imports. destruct (file_analyses !! u) as [ a | ].
  - rewrite elem_of_list_to_set, list_elem_of_filter, list_elem_of_fmap. split.
    + intros (Hne & imp & -> & Himp). by exists a, imp.
    + intros (? & imp & [= <-] & Himp & <- & Hne). split; [ done | ]. by exists imp.
  - split; [ by intros ?%not_elem_of_empty | by intros (? & ? & ? & _) ].
Qed.

Section Fresh_degrees.

Variable file_analyses : gmap string FileAnalysis.

Let self := build_dependency_graph file_analyses fresh_analyzer.
Let g := dependency_graph self.

Lemma build_edge_resolved u v :
  (u, v) ∈ edges g ↔ v ∈ resolved_imports file_analyses u.
Proof. unfold g, self. by rewrite build_edges, elem_of_resolved_imports. Qed.


Lemma build_in_edges v :
  in_edges g v = set_map (λ u, (u, v)) (importers file_analyses v).
Proof.
  apply set_eq. intros [a b]. unfold in_edges, importers.
  rewrite elem_of_filter, elem_of_map. cbn. split.
  - intros [-> H]. exists a. split; [ done | ]. apply elem_of_filter.
    split; [ by apply build_edge_resolved | ].
    by apply (build_edges_closed file_analyses a v).
  - intros (u & [= -> ->] & [H _]%elem_of_filter).
    split; [ done | ]. by apply build_edge_resolved.
Qed.


Lemma build_in_degree v :
  in_degree g v = size (importers file_analyses v).
Proof.
  unfold in_degree. rewrite build_in_edges. apply size_set_map_inj.
  by intros ? ? [= ->].
Qed.

Lemma build_counts k m :
  modules self !! k = Some m →
  dependency_count m = out_degree g k ∧ dependent_count m = in_degree g k.
Proof.
  unfold self. rewrite build_modules.
  destruct (file_analyses !! k); [ | done ]. by intros [= <-].
Qed.





End Fresh_degrees.




(* --------------------------------------------------------------------- *)
(** ** Importance score                                                   *)
(* --------------------------------------------------------------------- *)

Section Importance_facts.

Variable betweenness_centrality : DiGraph → result (gmap string Q).

Lemma importance_not_a_node self file_path :
  file_path ∉ nodes (dependency_graph self) →
  get_module_importance_score betweenness_centrality self file_path = Ok 0%Q.
Proof.
  intros Hout. unfold get_module_importance_score, has_node.
  by rewrite bool_decide_eq_false_2.
Qed.

Lemma importance_of_module self file_path m :
  file_path ∈ nodes (dependency_graph self) →
  modules self !! file_path = Some m →
  get_module_importance_score betweenness_centrality self file_path
  = match betweenness_centrality (dependency_graph self) with
    | Ok centrality =>
        Ok (Qmin (default 0 (centrality !! file_path) * 50
                  + inject_Z (Z.of_nat (Nat.min (dependent_count m * 5) 50)))
              100)%Q
    | Raise _ => Ok (inject_Z (Z.of_nat (dependent_count m * 10)))
    end.
Proof.
  intros Hin Hm. unfold get_module_importance_score, has_node, modules_getitem.
  rewrite bool_decide_eq_true_2, Hm by done. cbn.
  by destruct (betweenness_centrality (dependency_graph self)).
Qed.

(** C7.  On the graph completed from a newly constructed analyzer, the
    score of a path that is not a node is 0; for a node, it is
    min(100, centrality * 50 + min(dependent_count * 5, 50)) when the
    centrality computation returns, and dependent_count * 10, without a
    cap, when that computation raises. *)
Theorem importance_score_formula (path_exists : string → bool)
    (repo_path : string) (self0 : DependencyAnalyzer)
    (file_analyses : gmap string FileAnalysis) (file_path : string) :
  DependencyAnalyzer_init path_exists repo_path = Ok self0 →
  let self := build_dependency_graph file_analyses self0 in
  let g := dependency_graph self in
  let score := get_module_importance_score betweenness_centrality self file_path in
  (file_path ∉ nodes g → score = Ok 0%Q) ∧
  (file_path ∈ nodes g →
   ∃ m : ModuleInfo,
     modules self !! file_path = Some m ∧
     (∀ centrality : gmap string Q,
         betweenness_centrality g = Ok centrality →
         ∃ q : Q,
           score = Ok q ∧
           (q == Qmin 100
                  (default 0 (centrality !! file_path) * 50
                   + inject_Z (Z.of_nat (Nat.min (dependent_count m * 5) 50))))%Q) ∧
     (∀ e : exn,
         betweenness_centrality g = Raise e →
         score = Ok (inject_Z (Z.of_nat (dependent_count m * 10))))).
Proof.
  intros ->%init_fresh. cbn zeta. split; [ apply importance_not_a_node | ].
  intros Hin.
  assert (is_Some (modules (build_dependency_graph file_analyses fresh_analyzer)
                     !! file_path)) as [m Hm].
  { apply elem_of_dom. by rewrite build_modules_dom, <- build_nodes. }
  exists m. split; [ done | ].
  rewrite (importance_of_module _ _ m Hin Hm). split.
  - intros centrality ->. eexists. split; [ done | ]. apply Q.min_comm.
  - by intros e ->.
Qed.

End Importance_facts.

Lemma importance_score_formula_witness :
  get_module_importance_score (λ _, Raise NetworkXError)
    (build_dependency_graph scenario_files fresh_analyzer) "simple.py"
  = Ok (inject_Z 10).
Proof.
  destruct (importance_score_formula (λ _, Raise NetworkXError) (λ _, true) "repo"
              fresh_analyzer scenario_files "simple.py" eq_refl)
    as [_ Hnode].
  destruct Hnode as (m & Hm & _ & Hfail).
  { vm_compute. reflexivity. }
  rewrite (Hfail NetworkXError eq_refl).
  vm_compute in Hm. by injection Hm as <-.
Defined.

(* --------------------------------------------------------------------- *)
(** ** Keyword matching in the two tools                                  *)
(* --------------------------------------------------------------------- *)

Lemma existsb_elem_of {A} (f : A → bool) (l : list A) :
  existsb f l = true ↔ ∃ x, x ∈ l ∧ f x = true.
Proof.
  rewrite existsb_exists. split; intros (x & Hx & Hf); exists x;
    by rewrite list_elem_of_In in *.
Qed.

Lemma elem_of_bool_filter {A} (f : A → bool) (l : list A) x :
  x ∈ List.filter f l ↔ x ∈ l ∧ f x = true.
Proof. by rewrite !list_elem_of_In, filter_In. Qed.

(** A scoring loop adds a positive weight for every keyword that
    matches, so the score is positive exactly when it started positive
    or some keyword matched. *)
Lemma score_loop_positive (matches : string → bool) (weight : nat)
    (reason : string → string) (keywords : list string) (acc : nat * list string) :
  0 < weight →
  0 < (foldl (λ acc keyword,
                if matches keyword
                then (acc.1 + weight, acc.2 ++ [ reason keyword ])
                else acc) acc keywords).1
  ↔ 0 < acc.1 ∨ ∃ keyword, keyword ∈ keywords ∧ matches keyword = true.
Proof.
  intros Hw. revert acc. induction keywords as [ | k keywords IH ]; intros acc.
  - cbn. split; [ by left | ]. intros [ ? | (? & ?%elem_of_nil & _) ]; done.
  - cbn [foldl]. rewrite IH. destruct (matches k) eqn:Hk; cbn; split.
    + intros [ _ | (k' & Hin & Hm) ]; right; [ exists k | exists k' ];
        (split; [ | done ]); [ left | by right ].
    + intros _. left. lia.
    + intros [ ? | (k' & Hin & Hm) ]; [ by left | right ].
      exists k'. split; [ by right | done ].
    + intros [ ? | (k' & [ -> | Hin ]%elem_of_cons & Hm) ]; [ by left | | ].
      * congruence.
      * right. by exists k'.
Qed.

Lemma check_file_name_positive keywords file_path acc :
  0 < (check_file_name keywords file_path acc).1
  ↔ 0 < acc.1
    ∨ ∃ keyword, keyword ∈ keywords ∧ occurs_in keyword (lower file_path).
Proof.
  unfold check_file_name.
  rewrite (score_loop_positive (λ keyword, contains keyword (lower file_path)) 10
             (λ keyword, "File name contains '" +:+ keyword +:+ "'")) by lia.
  by setoid_rewrite contains_spec.
Qed.

Lemma check_symbol_positive keywords acc symbol :
  0 < (check_symbol keywords acc symbol).1
  ↔ 0 < acc.1
    ∨ ∃ keyword, keyword ∈ keywords
                 ∧ occurs_in keyword (lower (sym_name symbol)).
Proof.
  unfold check_symbol.
  rewrite (score_loop_positive
             (λ keyword, contains keyword (lower (sym_name symbol))) 5
             (λ _, "Contains symbol '" +:+ sym_name symbol +:+ "'")) by lia.
  by setoid_rewrite contains_spec.
Qed.

Lemma check_symbols_positive keywords symbols acc :
  0 < (foldl (check_symbol keywords) acc symbols).1
  ↔ 0 < acc.1
    ∨ ∃ keyword symbol,
        keyword ∈ keywords ∧ symbol ∈ symbols
        ∧ occurs_in keyword (lower (sym_name symbol)).
Proof.
  revert acc. induction symbols as [ | s symbols IH ]; intros acc.
  - cbn. split; [ by left | ]. intros [ ? | (? & ? & _ & ?%elem_of_nil & _) ]; done.
  - cbn [foldl]. rewrite IH, check_symbol_positive. split.
    + intros [ [ ? | (k & ? & ?) ] | (k & s' & ? & ? & ?) ]; [ by left | right.. ].
      * exists k, s. split; [ done | ]. split; [ left | done ].
      * exists k, s'. split; [ done | ]. split; [ by right | done ].
    + intros [ ? | (k & s' & ? & [ -> | ? ]%elem_of_cons & ?) ].
      * by left; left.
      * left; right. by exists k.
      * right. by exists k, s'.
Qed.

Lemma keyword_matches_positive keywords file_path analysis :
  0 < (keyword_matches keywords file_path analysis).1
  ↔ ∃ keyword,
      keyword ∈ keywords
      ∧ (occurs_in keyword (lower file_path)
         ∨ ∃ symbol, symbol ∈ fa_symbols analysis
                     ∧ occurs_in keyword (lower (sym_name symbol))).
Proof.
  unfold keyword_matches. rewrite check_symbols_positive, check_file_name_positive.
  cbn. split.
  - intros [ [ ? | (k & ? & ?) ] | (k & s & ? & ? & ?) ]; [ lia | | ].
    + exists k. auto.
    + exists k. split; [ done | ]. right. by exists s.
  - intros (k & ? & [ ? | (s & ? & ?) ]).
    + left; right. by exists k.
    + right. by exists k, s.
Qed.

Lemma extract_keywords_elem text keyword :
  keyword ∈ _extract_keywords text
  ↔ ∃ word, word ∈ split_ws text ∧ (word ∉ stop_words)
            ∧ 2 < String.length word ∧ keyword = strip_chars ",.!?" word.
Proof.
  unfold _extract_keywords. rewrite list_elem_of_fmap.
  setoid_rewrite elem_of_bool_filter. unfold is_keyword_word.
  setoid_rewrite andb_true_iff. setoid_rewrite negb_true_iff.
  setoid_rewrite bool_decide_eq_false. setoid_rewrite Nat.ltb_lt.
  naive_solver.
Qed.

(** C5, as the code has it.  The two tools select files by different
    rules.  The learning-path tool lower-cases the query, takes all of
    its whitespace-delimited words (stop words included) and selects a
    file when one of them occurs in the lower-cased path; symbol names
    play no part.  The entry-point tool lower-cases the query, drops the
    stop words and the words of at most two characters, strips ',', '.',
    '!' and '?' from both ends of the remaining words, and selects a
    file when one of these keywords occurs in the lower-cased path or in
    the lower-cased name of one of the file's symbols. *)
Theorem tools_relevance_rules (query : string)
    (file_analyses : gmap string FileAnalysis) (file_path : string) :
  (file_path ∈ learning_path_relevant_files query file_analyses
   ↔ file_path ∈ dom file_analyses
     ∧ ∃ keyword, keyword ∈ split_ws (lower query)
                  ∧ occurs_in keyword (lower file_path)) ∧
  (file_path ∈ suggested_files query file_analyses
   ↔ ∃ analysis keyword,
       file_analyses !! file_path = Some analysis
       ∧ keyword ∈ _extract_keywords (lower query)
       ∧ (occurs_in keyword (lower file_path)
          ∨ ∃ symbol, symbol ∈ fa_symbols analysis
                      ∧ occurs_in keyword (lower (sym_name symbol)))) ∧
  (∀ keyword : string,
      keyword ∈ _extract_keywords (lower query)
      ↔ ∃ word, word ∈ split_ws (lower query) ∧ (word ∉ stop_words)
                ∧ 2 < String.length word
                ∧ keyword = strip_chars ",.!?" word).
Proof.
  split; [ | split; [ | intros keyword; apply extract_keywords_elem ] ].
  - unfold learning_path_relevant_files, _find_relevant_files.
    rewrite elem_of_bool_filter, existsb_elem_of.
    setoid_rewrite contains_spec.
    rewrite elem_of_dom, list_elem_of_fmap. split.
    + intros [([k a] & -> & H%elem_of_map_to_list) Hk]. split; [ by exists a | done ].
    + intros [[a Ha] Hk]. split; [ | done ].
      exists (file_path, a). split; [ done | ]. by apply elem_of_map_to_list.
  - unfold suggested_files. rewrite list_elem_of_fmap.
    setoid_rewrite elem_of_bool_filter. setoid_rewrite Nat.ltb_lt.
    setoid_rewrite keyword_matches_positive. split.
    + intros ([k a] & -> & Ha%elem_of_map_to_list & kw & Hkw & Hm).
      by exists a, kw.
    + intros (a & kw & Ha & Hkw & Hm). exists (file_path, a).
      split; [ done | ]. split; [ by apply elem_of_map_to_list | ]. by exists kw.
Qed.

(** C5 as stated fails for both tools: the learning-path tool keeps the
    stop word 'add' and never looks at symbol names, and the entry-point
    tool drops the two-letter keyword 'db'. *)
Lemma relevance_rule_counterexample :
  let address := mkFileAnalysis "address.py" "python" [] [] 1 1 in
  let auth :=
    mkFileAnalysis "auth.py" "python"
      [ mkCodeSymbol "login" SymFunction "auth.py" 1 1 None 0 true ] [] 1 1 in
  let db := mkFileAnalysis "db.py" "python" [] [] 1 1 in
  ("address.py" ∈ learning_path_relevant_files "add" {[ "address.py" := address ]}
   ∧ spec_relevant "add" "address.py" address = false) ∧
  (("auth.py" ∉ learning_path_relevant_files "login" {[ "auth.py" := auth ]})
   ∧ spec_relevant "login" "auth.py" auth = true) ∧
  (("db.py" ∉ suggested_files "db" {[ "db.py" := db ]})
   ∧ spec_relevant "db" "db.py" db = true).
Proof.
  cbn zeta. repeat split.
  - apply list_elem_of_In. vm_compute. by left.
  - intros H%list_elem_of_In. vm_compute in H. done.
  - intros H%list_elem_of_In. vm_compute in H. done.
Qed.

(* --------------------------------------------------------------------- *)
(** ** Failures of the git subprocess                                     *)
(* --------------------------------------------------------------------- *)

Section Git_facts.

Variable path_exists : string → bool.
Variable subprocess_run : list string → result string.
Variable datetime : Type.
Variable fromtimestamp : Z → result datetime.
Variable now : datetime.



Lemma run_git_absorbs self args :
  git_fails subprocess_run self args → _run_git_command subprocess_run self args = Ok "".
Proof. unfold git_fails, _run_git_command. by intros ->. Qed.












End Git_facts.



(* --------------------------------------------------------------------- *)
(** ** Stable sorting                                                     *)
(* --------------------------------------------------------------------- *)

Section Sort_facts.

Context {A : Type} (before : A → A → bool).

Lemma insert_stable_perm x l : insert_stable before x l ≡ₚ x :: l.
Proof.
  induction l as [ | y l IH ]; cbn; [ done | ].
  destruct (before y x); [ | done ].
  rewrite IH. apply Permutation_swap.
Qed.

Lemma sort_stable_perm l : sort_stable before l ≡ₚ l.
Proof.
  induction l as [ | x l IH ]; cbn; [ done | ].
  fold (sort_stable before l). by rewrite insert_stable_perm, IH.
Qed.

Lemma sort_stable_length l : length (sort_stable before l) = length l.
Proof. by rewrite sort_stable_perm. Qed.

Lemma sort_stable_elem l x : x ∈ sort_stable before l ↔ x ∈ l.
Proof. by rewrite sort_stable_perm. Qed.

Section Order.

Variable R : A → A → Prop.
Hypothesis before_true : ∀ x y, before y x = true → R y x.
Hypothesis before_false : ∀ x y, before y x = false → R x y.
Hypothesis R_trans : ∀ x y z, R x y → R y z → R x z.

Lemma insert_stable_sorted x l :
  StronglySorted R l → StronglySorted R (insert_stable before x l).
Proof.
  induction 1 as [ | y l Hs IH Hy ]; cbn.
  - repeat constructor.
  - destruct (before y x) eqn:Hb.
    + constructor; [ done | ]. rewrite insert_stable_perm.
      constructor; [ by apply before_true | done ].
    + constructor; [ by constructor | ].
      constructor; [ by apply before_false | ].
      eapply Forall_impl; [ exact Hy | ].
      intros z Hz. eapply R_trans; [ by apply before_false | done ].
Qed.

Lemma sort_stable_sorted l : StronglySorted R (sort_stable before l).
Proof.
  induction l as [ | x l IH ]; cbn; [ constructor | ].
  by apply insert_stable_sorted.
Qed.

End Order.

Section Stability.

Context {K : Type} `{EqDecision K} (key : A → K).
Hypothesis before_key : ∀ x y, before y x = true → key y ≠ key x.

Lemma insert_stable_filter_same x l :
  filter (λ y, key y = key x) (insert_stable before x l)
  = x :: filter (λ y, key y = key x) l.
Proof.
  induction l as [ | y l IH ]; cbn [insert_stable].
  - by rewrite filter_cons_True.
  - destruct (before y x) eqn:Hb.
    + rewrite !(filter_cons_False _ y) by by apply before_key. done.
    + by rewrite filter_cons_True.
Qed.

Lemma insert_stable_filter_other x l k :
  key x ≠ k →
  filter (λ y, key y = k) (insert_stable before x l)
  = filter (λ y, key y = k) l.
Proof.
  intros Hk. induction l as [ | y l IH ]; cbn [insert_stable].
  - by rewrite filter_cons_False.
  - destruct (before y x).
    + rewrite !(filter_cons _ y). by rewrite IH.
    + by rewrite filter_cons_False.
Qed.

(** Elements with equal keys keep the order they had in the input. *)
Lemma sort_stable_stable l k :
  filter (λ y, key y = k) (sort_stable before l) = filter (λ y, key y = k) l.
Proof.
  induction l as [ | x l IH ]; cbn [sort_stable foldr]; [ done | ].
  fold (sort_stable before l). destruct (decide (key x = k)) as [ <- | Hne ].
  - by rewrite insert_stable_filter_same, filter_cons_True, IH.
  - by rewrite insert_stable_filter_other, filter_cons_False, IH.
Qed.

End Stability.

End Sort_facts.

Lemma slice_to_take {A} (limit : Z) (l : list A) :
  (0 ≤ limit)%Z → slice_to limit l = take (Z.to_nat limit) l.
Proof. intros H. unfold slice_to. by rewrite (proj2 (Z.leb_le _ _) H). Qed.

Lemma StronglySorted_take {A} (R : A → A → Prop) n l :
  StronglySorted R l → StronglySorted R (take n l).
Proof.
  intros Hs. revert n. induction Hs as [ | x l Hs IH Hx ]; intros [ | n ]; cbn;
    try constructor; [ apply IH | ].
  apply Forall_take. done.
Qed.

Lemma StronglySorted_take_drop {A} (R : A → A → Prop) n l x y :
  StronglySorted R l → x ∈ take n l → y ∈ drop n l → R x y.
Proof.
  intros Hs. revert n. induction Hs as [ | z l Hs IH Hz ]; intros [ | n ]; cbn.
  - by intros ?%elem_of_nil.
  - by intros ?%elem_of_nil.
  - by intros ?%elem_of_nil.
  - intros [ -> | Hx ]%elem_of_cons Hy.
    + rewrite Forall_forall in Hz. apply Hz. by eapply subseteq_drop.
    + by eapply IH.
Qed.

(* --------------------------------------------------------------------- *)
(** ** Core and leaf modules                                              *)
(* --------------------------------------------------------------------- *)

(** X1.  [identify_core_modules] with a non-negative [top_n] returns
    the first [top_n] modules (all of them when there are fewer) in
    decreasing order of [dependent_count]: no module left out has more
    dependents than a module returned, and modules with the same count
    stay in the order in which the module table enumerates them. *)
Theorem identify_core_modules_top (self : DependencyAnalyzer) (top_n : Z) :
  (0 ≤ top_n)%Z →
  let core := identify_core_modules self top_n in
  length core = Nat.min (Z.to_nat top_n) (size (modules self)) ∧
  StronglySorted (λ a b, dependent_count b ≤ dependent_count a) core ∧
  (∃ rest, core ++ rest ≡ₚ module_values self
           ∧ ∀ a b, a ∈ core → b ∈ rest →
                    dependent_count b ≤ dependent_count a) ∧
  (∀ count : nat,
      filter (λ m, dependent_count m = count) core
      `prefix_of` filter (λ m, dependent_count m = count) (module_values self)).
Proof.
  intros Hn. cbn zeta. unfold identify_core_modules.
  rewrite slice_to_take by done.
  set (before := λ y x : ModuleInfo, dependent_count x <? dependent_count y).
  assert (StronglySorted (λ a b, dependent_count b ≤ dependent_count a)
            (sort_stable before (module_values self))) as Hsorted.
  { apply sort_stable_sorted.
    - intros x y Hb%Nat.ltb_lt. lia.
    - intros x y Hb%Nat.ltb_ge. lia.
    - intros x y z ? ?. lia. }
  split; [ | split; [ | split ] ].
  - rewrite length_take, sort_stable_length. unfold module_values.
    by rewrite length_fmap, length_map_to_list.
  - by apply StronglySorted_take.
  - exists (drop (Z.to_nat top_n) (sort_stable before (module_values self))).
    split; [ by rewrite take_drop, sort_stable_perm | ].
    intros a b Ha Hb. by eapply (StronglySorted_take_drop _ _ _ a b Hsorted).
  - intros count.
    assert (∀ x y, before y x = true → dependent_count y ≠ dependent_count x)
      as Hkey by (intros x y Hb%Nat.ltb_lt; lia).
    rewrite <- (sort_stable_stable before dependent_count Hkey
                  (module_values self) count).
    exists (filter (λ m, dependent_count m = count)
              (drop (Z.to_nat top_n) (sort_stable before (module_values self)))).
    by rewrite <- filter_app, take_drop.
Qed.

Lemma identify_core_modules_top_witness :
  (0 ≤ 1)%Z
  ∧ length (identify_core_modules
              (build_dependency_graph scenario_files fresh_analyzer) 1)
    = Nat.min 1 (size (modules (build_dependency_graph scenario_files
                                  fresh_analyzer))).
Proof.
  split; [ done | ].
  apply (identify_core_modules_top
           (build_dependency_graph scenario_files fresh_analyzer) 1).
  done.
Defined.

Lemma elem_of_module_values self m :
  m ∈ module_values self ↔ ∃ key, modules self !! key = Some m.
Proof.
  unfold module_values. rewrite list_elem_of_fmap. split.
  - intros ([k m'] & -> & H%elem_of_map_to_list). by exists k.
  - intros [k Hk]. exists (k, m). split; [ done | ]. by apply elem_of_map_to_list.
Qed.

Lemma build_module_paths (file_analyses : gmap string FileAnalysis) key m :
  modules (build_dependency_graph file_analyses fresh_analyzer) !! key = Some m →
  path m = key.
Proof.
  rewrite build_modules. destruct (file_analyses !! key); [ | done ].
  by intros [= <-].
Qed.

(** X2.  After a build on a new analyzer, the leaf modules are
    exactly the modules that no file imports (the module itself
    included): no edge of the graph ends in a leaf. *)
Theorem identify_leaf_modules_unimported
    (file_analyses : gmap string FileAnalysis) (m : ModuleInfo) :
  let self := build_dependency_graph file_analyses fresh_analyzer in
  m ∈ identify_leaf_modules self
  ↔ ∃ file_path : string,
      modules self !! file_path = Some m
      ∧ path m = file_path
      ∧ importers file_analyses file_path = ∅
      ∧ ∀ u : string, (u, file_path) ∉ edges (dependency_graph self).
Proof.
  cbn zeta. unfold identify_leaf_modules.
  rewrite elem_of_bool_filter, elem_of_module_values, Nat.eqb_eq. split.
  - intros [[k Hk] Hzero]. exists k.
    destruct (build_counts file_analyses k m Hk) as [_ Hin].
    rewrite Hzero, build_in_degree in Hin. symmetry in Hin.
    apply size_empty_iff, leibniz_equiv in Hin.
    split; [ done | ]. split; [ by eapply build_module_paths | ].
    split; [ done | ]. intros u Hu.
    assert (u ∈ importers file_analyses k) as Hmem; [ | by rewrite Hin in Hmem ].
    unfold importers. apply elem_of_filter. split.
    + by apply build_edge_resolved.
    + by apply (build_edges_closed file_analyses u k).
  - intros (k & Hk & _ & Hin & _). split; [ by exists k | ].
    destruct (build_counts file_analyses k m Hk) as [_ ->].
    by rewrite build_in_degree, Hin, size_empty.
Qed.

(* --------------------------------------------------------------------- *)
(** ** Entry points                                                       *)
(* --------------------------------------------------------------------- *)

Lemma flagged_nil key m : flagged [] key m = m.
Proof. unfold flagged. by rewrite bool_decide_eq_false_2 by apply not_elem_of_nil. Qed.

Lemma flagged_snoc_ne done k key m :
  key ≠ k → flagged (done ++ [ k ]) key m = flagged done key m.
Proof.
  intros Hne. unfold flagged.
  rewrite (bool_decide_ext (key ∈ done ++ [ k ]) (key ∈ done)); [ done | ].
  rewrite elem_of_app, list_elem_of_singleton. tauto.
Qed.

Lemma flagged_snoc_eq done k m :
  flagged (done ++ [ k ]) k m
  = if has_common_name m then mark_entry_point m else m.
Proof.
  unfold flagged. rewrite bool_decide_eq_true_2; [ done | ].
  apply elem_of_app. right. left.
Qed.

Lemma flagged_path done key m : path (flagged done key m) = path m.
Proof. unfold flagged. by case_match. Qed.

Lemma objects_elem (table : gmap string ModuleInfo) entries m :
  m ∈ objects table entries ↔ ∃ key, key ∈ entries ∧ table !! key = Some m.
Proof. unfold objects. by rewrite list_elem_of_omap. Qed.

Section Entry_points.

Variable table0 : gmap string ModuleInfo.
Hypothesis paths_are_keys : ∀ key m, table0 !! key = Some m → path m = key.

Let keys := (map_to_list table0).*1.

Lemma entry_point_loop done rest :
  keys = done ++ rest →
  let st :=
    foldl entry_point_step (table0, List.filter (few_key table0) keys) done in
  (∀ key, st.1 !! key = flagged done key <$> table0 !! key)
  ∧ st.2 = List.filter (few_key table0) keys
           ++ List.filter
                (λ key, common_key table0 key && negb (few_key table0 key)) done.
Proof.
  revert rest. induction done as [ | k done IH ] using rev_ind; intros rest Hkeys.
  - cbn. split; [ | by rewrite app_nil_r ].
    intros key. destruct (table0 !! key); [ | done ]. cbn. by rewrite flagged_nil.
  - rewrite <- app_assoc in Hkeys.
    destruct (IH _ Hkeys) as [Htable Hentries]. clear IH.
    rewrite foldl_app. cbn [foldl].
    set (st := foldl entry_point_step
                 (table0, List.filter (few_key table0) keys) done) in *.
    assert (NoDup keys) as Hnd by apply NoDup_fst_map_to_list.
    assert (k ∉ done) as Hk.
    { rewrite Hkeys in Hnd. apply NoDup_app in Hnd as (_ & Hnd & _).
      intros Hin. apply (Hnd k Hin). left. }
    assert (k ∈ keys) as Hkin.
    { rewrite Hkeys. apply elem_of_app. right. left. }
    assert (∃ m, table0 !! k = Some m) as [m Hm].
    { unfold keys in Hkin. apply list_elem_of_fmap in Hkin as ([k' m] & -> & H).
      exists m. by apply elem_of_map_to_list. }
    assert (st.1 !! k = Some m) as Hst.
    { rewrite Htable, Hm. cbn. unfold flagged.
      by rewrite bool_decide_eq_false_2. }
    assert (∀ key, key ≠ k →
              flagged (done ++ [ k ]) key <$> table0 !! key
              = flagged done key <$> table0 !! key) as Hother.
    { intros key Hne. destruct (table0 !! key); [ | done ]. cbn.
      by rewrite flagged_snoc_ne. }
    unfold entry_point_step. rewrite Hst.
    rewrite List.filter_app. cbn [List.filter].
    unfold common_key at 2, few_key at 3. rewrite Hm.
    destruct (has_common_name m) eqn:Hcommon; cbn [andb].
    + assert (∀ key,
                <[k:=mark_entry_point m]> st.1 !! key
                = flagged (done ++ [ k ]) key <$> table0 !! key) as Htable'.
      { intros key. destruct (decide (k = key)) as [ <- | Hne ].
        - by rewrite lookup_insert_eq, Hm; cbn; rewrite flagged_snoc_eq, Hcommon.
        - by rewrite lookup_insert_ne, Htable, Hother. }
      assert (mark_entry_point m
                ∈ objects (<[k:=mark_entry_point m]> st.1) st.2
              ↔ has_few_dependencies m = true) as Hcheck.
      { rewrite objects_elem. split.
        - intros (k' & Hk' & Hlook).
          assert (k' = k) as ->.
          { rewrite Htable' in Hlook.
            destruct (table0 !! k') as [ m' | ] eqn:Hm'; [ | done ].
            cbn in Hlook. injection Hlook as Hlook.
            apply (f_equal path) in Hlook. rewrite flagged_path in Hlook.
            cbn in Hlook.
            by rewrite (paths_are_keys _ _ Hm'), (paths_are_keys _ _ Hm) in Hlook. }
          rewrite Hentries in Hk'. apply elem_of_app in Hk' as [ Hk' | Hk' ].
          + apply elem_of_bool_filter in Hk' as [_ Hfew].
            unfold few_key in Hfew. by rewrite Hm in Hfew.
          + apply elem_of_bool_filter in Hk' as [? _]. done.
        - intros Hfew. exists k. split; [ | by rewrite lookup_insert_eq ].
          rewrite Hentries. apply elem_of_app. left.
          apply elem_of_bool_filter. split; [ done | ].
          unfold few_key. by rewrite Hm. }
      destruct (has_few_dependencies m) eqn:Hfew; cbn.
      * rewrite bool_decide_eq_true_2 by by apply Hcheck.
        cbn. by rewrite app_nil_r.
      * rewrite bool_decide_eq_false_2; last first.
        { intros H%Hcheck. done. }
        cbn. split; [ done | by rewrite Hentries, <- app_assoc ].
    + cbn. rewrite app_nil_r. split; [ | done ].
      intros key. rewrite Htable.
      destruct (decide (key = k)) as [ -> | Hne ]; [ | by rewrite Hother ].
      rewrite Hm. cbn. rewrite flagged_snoc_eq, Hcommon. unfold flagged.
      by rewrite Hcommon, andb_false_r.
Qed.

End Entry_points.

Lemma objects_filter_keys (table0 table' : gmap string ModuleInfo)
    (f : ModuleInfo → ModuleInfo) (test : ModuleInfo → bool)
    (l : list (string * ModuleInfo)) :
  (∀ key m, (key, m) ∈ l → table0 !! key = Some m) →
  (∀ key m, (key, m) ∈ l → table' !! key = Some (f m)) →
  objects table'
    (List.filter
       (λ key, match table0 !! key with Some m => test m | None => false end)
       l.*1)
  = f <$> List.filter test l.*2.
Proof.
  induction l as [ | [k m] l IH ]; intros H0 H'; [ done | ].
  cbn. rewrite (H0 k m) by left.
  assert (objects table' (List.filter
            (λ key, match table0 !! key with Some m => test m | None => false end)
            l.*1) = f <$> List.filter test l.*2) as IH'.
  { apply IH; intros key m' Hin; [ apply H0 | apply H' ]; by right. }
  destruct (test m); [ | done ].
  unfold objects in *. cbn. rewrite (H' k m) by left. cbn. by f_equal.
Qed.

Lemma identify_entry_points_run (self : DependencyAnalyzer) :
  (∀ key m, modules self !! key = Some m → path m = key) →
  (identify_entry_points self).1
  = entry_point_final
      <$> (List.filter (λ m, dependency_count m <=? 3) (module_values self)
           ++ List.filter
                (λ m, has_common_name m && negb (dependency_count m <=? 3))
                (module_values self))
  ∧ modules (identify_entry_points self).2 = entry_point_final <$> modules self
  ∧ dependency_graph (identify_entry_points self).2 = dependency_graph self.
Proof.
  intros Hpaths. unfold identify_entry_points.
  set (keys := (map_to_list (modules self)).*1).
  destruct (entry_point_loop (modules self) Hpaths keys [])
    as [Htable Hentries]; [ by rewrite app_nil_r | ].
  fold keys in Hentries.
  change (List.filter _ keys) with (List.filter (few_key (modules self)) keys).
  set (st := foldl entry_point_step
               (modules self, List.filter (few_key (modules self)) keys) keys) in *.
  cbn [fst snd dependency_graph modules].
  assert (∀ key m, (key, m) ∈ map_to_list (modules self) →
            st.1 !! key = Some (entry_point_final m)) as Hfinal.
  { intros key m Hin. rewrite Htable.
    assert (key ∈ keys) as Hkey.
    { unfold keys. apply list_elem_of_fmap. by exists (key, m). }
    apply elem_of_map_to_list in Hin. rewrite Hin. cbn.
    unfold flagged, entry_point_final. by rewrite bool_decide_eq_true_2. }
  split; [ | split; [ | done ] ].
  - rewrite Hentries. unfold objects, module_values.
    rewrite omap_app, fmap_app. f_equal.
    + rewrite <- (objects_filter_keys (modules self) st.1 entry_point_final
                    (λ m, dependency_count m <=? 3) (map_to_list (modules self))).
      * unfold objects, few_key, has_few_dependencies. f_equal.
        apply List.filter_ext. intros key. destruct (modules self !! key); [ | done ].
        by rewrite andb_true_r.
      * intros key m. apply elem_of_map_to_list.
      * done.
    + rewrite <- (objects_filter_keys (modules self) st.1 entry_point_final
                    (λ m, has_common_name m && negb (dependency_count m <=? 3))
                    (map_to_list (modules self))).
      * unfold objects, few_key, common_key, has_few_dependencies. f_equal.
        apply List.filter_ext. intros key. destruct (modules self !! key); [ | done ].
        by rewrite andb_true_r.
      * intros key m. apply elem_of_map_to_list.
      * done.
  - apply map_eq. intros key. rewrite Htable, lookup_fmap.
    destruct (modules self !! key) as [ m | ] eqn:Hm; [ | done ]. cbn.
    f_equal. unfold flagged, entry_point_final.
    rewrite bool_decide_eq_true_2; [ done | ].
    unfold keys. apply list_elem_of_fmap. exists (key, m).
    split; [ done | ]. by apply elem_of_map_to_list.
Qed.

(** X3.  When every module is stored under its own path,
    [identify_entry_points] returns the modules with at most three
    dependencies, in the order of the table, followed by the modules
    with a common entry name and more than three dependencies; the flag
    [is_entry_point] is set on exactly the modules with a common entry
    name, in the table and in the returned list alike, and a module
    returned for its few dependencies alone keeps its flag. *)
Theorem identify_entry_points_result (self : DependencyAnalyzer) :
  (∀ key m, modules self !! key = Some m → path m = key) →
  let result := identify_entry_points self in
  result.1
  = entry_point_final
      <$> (List.filter (λ m, dependency_count m <=? 3) (module_values self)
           ++ List.filter
                (λ m, has_common_name m && negb (dependency_count m <=? 3))
                (module_values self))
  ∧ modules result.2 = entry_point_final <$> modules self
  ∧ dependency_graph result.2 = dependency_graph self.
Proof.
  intros Hpaths. cbn zeta. by apply identify_entry_points_run.
Qed.

Lemma identify_entry_points_result_witness :
  let self :=
    mkDependencyAnalyzer empty_graph
      {[ "src/main.py" := mkModuleInfo "src/main.py" [] [] false 5 0 ]} in
  (∀ key m, modules self !! key = Some m → path m = key)
  ∧ (identify_entry_points self).1
    = [ mkModuleInfo "src/main.py" [] [] true 5 0 ].
Proof.
  cbn zeta.
  assert (∀ key m,
            modules
              (mkDependencyAnalyzer empty_graph
                 {[ "src/main.py" := mkModuleInfo "src/main.py" [] [] false 5 0 ]})
              !! key = Some m → path m = key) as Hpaths.
  { cbn. intros key m [ <- <- ]%lookup_singleton_Some. reflexivity. }
  split; [ exact Hpaths | ].
  rewrite (proj1 (identify_entry_points_result _ Hpaths)).
  vm_compute. reflexivity.
Defined.

(* --------------------------------------------------------------------- *)
(** ** Clusters                                                           *)
(* --------------------------------------------------------------------- *)

Lemma add_to_cluster_fold (keys : list string) (clusters : gmap string (list string))
    (d : string) :
  foldl add_to_cluster clusters keys !! d
  = match filter (λ p, cluster_key p = d) keys with
    | [] => clusters !! d
    | extra => Some (default [] (clusters !! d) ++ extra)
    end.
Proof.
  revert clusters. induction keys as [ | k keys IH ]; intros clusters; [ done | ].
  cbn [foldl]. rewrite IH. unfold add_to_cluster at 1 2.
  rewrite filter_cons. destruct (decide (cluster_key k = d)) as [ -> | Hne ].
  - rewrite lookup_insert_eq. cbn.
    destruct (filter _ keys); [ done | ]. by rewrite <- app_assoc.
  - by rewrite lookup_insert_ne.
Qed.

Lemma clusters_lookup (keys : list string) (d : string) (l : list string) :
  foldl add_to_cluster ∅ keys !! d = Some l
  ↔ l = filter (λ p, cluster_key p = d) keys ∧ l ≠ [].
Proof.
  rewrite add_to_cluster_fold, lookup_empty.
  destruct (filter _ keys) as [ | p extra ]; cbn.
  - split; [ done | ]. by intros [-> ?].
  - split; [ by intros [= <-] | by intros [-> _] ].
Qed.

Lemma count_neighbor_fold (module_paths l : list string) (acc : nat * gset string) :
  foldl (count_neighbor module_paths) acc l
  = (acc.1 + length (filter (λ n, n ∈ module_paths) l),
     acc.2 ∪ list_to_set (filter (λ n, n ∉ module_paths) l)).
Proof.
  revert acc. induction l as [ | n l IH ]; intros [count ext]; cbn [foldl].
  - cbn. f_equal; [ lia | set_solver ].
  - rewrite IH. unfold count_neighbor. rewrite !filter_cons.
    destruct (decide (n ∈ module_paths)) as [ Hin | Hout ].
    + rewrite bool_decide_eq_true_2 by done.
      rewrite decide_False by (intros ?; done). cbn. f_equal. lia.
    + rewrite bool_decide_eq_false_2 by done.
      rewrite decide_True by done. cbn. f_equal. set_solver.
Qed.

Lemma length_filter_elements (P : string → Prop) `{∀ x, Decision (P x)}
    (X : gset string) :
  length (filter P (elements X)) = size (filter P X).
Proof.
  unfold size, set_size. cbn. apply Permutation_length, NoDup_Permutation.
  - apply NoDup_filter, NoDup_elements.
  - apply NoDup_elements.
  - intros x. rewrite list_elem_of_filter, !elem_of_elements, elem_of_filter. done.
Qed.

Lemma size_successors_within (g : DiGraph) (module_paths : list string) (p : string) :
  size (filter (λ n, n ∈ module_paths)
          (set_map snd (out_edges g p) : gset string))
  = size (filter (λ e, e.1 = p)
            (filter (λ e : string * string, e.2 ∈ module_paths) (edges g))).
Proof.
  rewrite <- (size_set_map_inj (λ n, (p, n))) by (intros ? ? [= ->]; done).
  f_equal. apply set_eq. intros [u v].
  rewrite elem_of_map, !elem_of_filter. setoid_rewrite elem_of_filter.
  setoid_rewrite elem_of_map. unfold out_edges.
  setoid_rewrite elem_of_filter. cbn. split.
  - intros (n & [= -> ->] & Hn & [u' v'] & -> & Hu & He). cbn in *. by subst.
  - intros (-> & Hv & He). exists v. split; [ done | ]. split; [ done | ].
    by exists (p, v).
Qed.

Lemma cluster_dependencies_ok (g : DiGraph) (module_paths members : list string)
    (acc : nat * gset string) :
  (∀ p, p ∈ members → p ∈ nodes g) →
  cluster_dependencies g module_paths members acc
  = Ok (acc.1
        + sum_list
            ((λ p, size (filter (λ e, e.1 = p)
                           (filter (λ e : string * string, e.2 ∈ module_paths)
                              (edges g))))
               <$> members),
        acc.2
        ∪ filter (λ n, n ∉ module_paths)
            (set_map snd (filter (λ e : string * string, e.1 ∈ members) (edges g)))).
Proof.
  revert acc. induction members as [ | p members IH ]; intros [count ext] Hnodes.
  - cbn. f_equal. f_equal; [ lia | ]. apply set_eq. intros n.
    rewrite elem_of_union, elem_of_filter, elem_of_map.
    setoid_rewrite elem_of_filter. split; [ by left | ].
    intros [ ? | (_ & e & _ & ?%not_elem_of_nil & _) ]; done.
  - cbn [cluster_dependencies]. unfold neighbors.
    rewrite bool_decide_eq_true_2 by (apply Hnodes; left). cbn [rbind].
    rewrite IH by (intros q Hq; apply Hnodes; by right).
    rewrite count_neighbor_fold, length_filter_elements, size_successors_within.
    cbn [fst snd]. f_equal. f_equal; [ cbn; lia | ].
    apply set_eq. intros n.
    rewrite !elem_of_union, elem_of_list_to_set, list_elem_of_filter,
      elem_of_elements, !elem_of_filter, !elem_of_map.
    unfold out_edges. repeat setoid_rewrite elem_of_filter.
    setoid_rewrite elem_of_cons. naive_solver.
Qed.

Lemma cluster_internal_count (g : DiGraph) (module_paths : list string) :
  NoDup module_paths →
  sum_list
    ((λ p, size (filter (λ e, e.1 = p)
                   (filter (λ e : string * string, e.2 ∈ module_paths) (edges g))))
       <$> module_paths)
  = size (filter (λ e : string * string,
                    e.1 ∈ module_paths ∧ e.2 ∈ module_paths) (edges g)).
Proof.
  intros Hnd. rewrite (sum_degree_filter fst) by done. f_equal.
  apply set_eq. intros e. rewrite !elem_of_filter. tauto.
Qed.

Lemma cluster_objects_ok (g : DiGraph) (items : list (string * list string)) :
  (∀ d l p, (d, l) ∈ items → p ∈ l → p ∈ nodes g) →
  (∀ d l, (d, l) ∈ items → NoDup l) →
  cluster_objects g items
  = Ok (cluster_of g <$> List.filter (λ item, negb (length item.2 <? 2)) items).
Proof.
  induction items as [ | [d l] items IH ]; intros Hnodes Hnd; [ done | ].
  cbn [cluster_objects List.filter snd].
  rewrite IH; cycle 1.
  { intros d' l' p Hin. apply (Hnodes d' l' p). by right. }
  { intros d' l' Hin. apply (Hnd d' l'). by right. }
  destruct (length l <? 2); cbn [negb]; [ done | ].
  rewrite cluster_dependencies_ok by (intros p Hp; apply (Hnodes d l p); [ left | done ]).
  cbn [rbind fst snd]. rewrite cluster_internal_count by (apply (Hnd d l); left).
  rewrite fmap_cons. unfold cluster_of at 2. cbn [fst snd].
  by rewrite (left_id_L ∅ (∪)).
Qed.

Lemma identify_clusters_run (self : DependencyAnalyzer) :
  dom (modules self) ⊆ nodes (dependency_graph self) →
  let g := dependency_graph self in
  let members := λ d : string,
    filter (λ p, cluster_key p = d) (map_to_list (modules self)).*1 in
  ∃ clusters : list DependencyCluster,
    identify_clusters self = Ok clusters
    ∧ NoDup (cluster_name <$> clusters)
    ∧ (∀ d, d ∈ cluster_name <$> clusters ↔ 2 ≤ length (members d))
    ∧ ∀ c, c ∈ clusters →
        cluster_modules c = members (cluster_name c)
        ∧ internal_dependencies c
          = size (filter (λ e : string * string,
                            e.1 ∈ cluster_modules c ∧ e.2 ∈ cluster_modules c)
                    (edges g))
        ∧ NoDup (external_dependencies c)
        ∧ ∀ n, n ∈ external_dependencies c
               ↔ (n ∉ cluster_modules c)
                 ∧ ∃ p, p ∈ cluster_modules c ∧ (p, n) ∈ edges g.
Proof.
  intros Hdom g members.
  set (keys := (map_to_list (modules self)).*1) in *.
  set (table := foldl add_to_cluster ∅ keys).
  assert (NoDup keys) as Hkeys by apply NoDup_fst_map_to_list.
  assert (∀ p, p ∈ keys → p ∈ nodes g) as Hnodes.
  { intros p Hp. apply Hdom, elem_of_dom.
    apply list_elem_of_fmap in Hp as ([k m] & -> & H%elem_of_map_to_list).
    by exists m. }
  assert (∀ d l, (d, l) ∈ map_to_list table ↔ l = members d ∧ l ≠ []) as Htable.
  { intros d l. rewrite elem_of_map_to_list. apply clusters_lookup. }
  assert (identify_clusters self
          = Ok (cluster_of g
                  <$> List.filter (λ item, negb (length item.2 <? 2))
                        (map_to_list table))) as Hrun.
  { unfold identify_clusters. fold g keys table. case_bool_decide as Hsize.
    - apply size_empty_iff in Hsize.
      assert (keys = []) as Hnil.
      { destruct keys as [ | k ? ]; [ done | ].
        exfalso. apply (not_elem_of_empty (C:=gset string) k).
        rewrite <- Hsize. apply Hnodes. left. }
      unfold table. by rewrite Hnil.
    - apply cluster_objects_ok.
      + intros d l p [-> _]%Htable [_ Hp]%list_elem_of_filter. by apply Hnodes.
      + intros d l [-> _]%Htable. by apply NoDup_filter. }
  eexists. split; [ exact Hrun | ].
  assert (∀ item, item ∈ List.filter (λ item, negb (length item.2 <? 2))
                            (map_to_list table)
                  ↔ item.2 = members item.1 ∧ 2 ≤ length item.2) as Hitems.
  { intros [d l]. rewrite elem_of_bool_filter, Htable, negb_true_iff, Nat.ltb_ge.
    cbn. split; [ tauto | ]. intros [-> Hlen]. repeat split; [ | done ].
    intros Hnil. rewrite Hnil in Hlen. cbn in Hlen. lia. }
  split; [ | split ].
  - rewrite <- list_fmap_compose.
    apply (NoDup_fmap_2_strong _).
    + intros [d l] [d' l'] [Hl _]%Hitems [Hl' _]%Hitems Heq. cbn in *. congruence.
    + apply NoDup_ListNoDup, List.NoDup_filter, NoDup_ListNoDup, NoDup_map_to_list.
  - intros d. rewrite <- list_fmap_compose, list_elem_of_fmap. split.
    + intros ([d' l] & -> & [Hl Hlen]%Hitems). cbn in *. by rewrite <- Hl.
    + intros Hlen. exists (d, members d). split; [ done | ]. by apply Hitems.
  - intros c ([d l] & -> & [Hl Hlen]%Hitems)%list_elem_of_fmap. cbn in *.
    split; [ done | ]. split; [ done | ]. split; [ apply NoDup_elements | ].
    intros n. rewrite elem_of_elements, elem_of_filter, elem_of_map.
    setoid_rewrite elem_of_filter. split.
    + intros (Hn & [p n'] & -> & Hp & He). split; [ done | ]. by exists p.
    + intros (Hn & p & Hp & He). split; [ done | ]. by exists (p, n).
Qed.

(** X4.  When every module of the table is a node of the graph,
    [identify_clusters] returns without an exception, one cluster for
    each directory that holds at least two modules and none for the
    others.  A cluster lists the modules of its directory,
    [internal_dependencies] is the number of edges with both ends in the
    cluster, and [external_dependencies] lists, once each, the targets
    outside the cluster of the edges that leave it. *)
Theorem identify_clusters_by_directory (self : DependencyAnalyzer) :
  dom (modules self) ⊆ nodes (dependency_graph self) →
  let g := dependency_graph self in
  let members := λ d : string,
    filter (λ p, cluster_key p = d) (map_to_list (modules self)).*1 in
  ∃ clusters : list DependencyCluster,
    identify_clusters self = Ok clusters
    ∧ NoDup (cluster_name <$> clusters)
    ∧ (∀ d, d ∈ cluster_name <$> clusters ↔ 2 ≤ length (members d))
    ∧ ∀ c, c ∈ clusters →
        cluster_modules c = members (cluster_name c)
        ∧ internal_dependencies c
          = size (filter (λ e : string * string,
                            e.1 ∈ cluster_modules c ∧ e.2 ∈ cluster_modules c)
                    (edges g))
        ∧ NoDup (external_dependencies c)
        ∧ ∀ n, n ∈ external_dependencies c
               ↔ (n ∉ cluster_modules c)
                 ∧ ∃ p, p ∈ cluster_modules c ∧ (p, n) ∈ edges g.
Proof. apply identify_clusters_run. Qed.

Lemma identify_clusters_by_directory_witness :
  let self := build_dependency_graph cluster_files fresh_analyzer in
  dom (modules self) ⊆ nodes (dependency_graph self)
  ∧ ∃ clusters,
      identify_clusters self = Ok clusters
      ∧ cluster_name <$> clusters = [ "pkg" ].
Proof.
  cbn zeta.
  assert (dom (modules (build_dependency_graph cluster_files fresh_analyzer))
          ⊆ nodes (dependency_graph
                     (build_dependency_graph cluster_files fresh_analyzer)))
    as Hdom.
  { refine (@bool_decide_unpack _ (gset_subseteq_dec _ _) _). vm_compute. exact I. }
  split; [ exact Hdom | ].
  destruct (identify_clusters_by_directory _ Hdom) as (clusters & Hrun & _).
  exists clusters. split; [ exact Hrun | ].
  vm_compute in Hrun. injection Hrun as <-. reflexivity.
Defined.

(* --------------------------------------------------------------------- *)
(** ** Complexity of a file                                               *)
(* --------------------------------------------------------------------- *)

Lemma foldl_max_le (l : list Z) (x : Z) :
  (x ≤ foldl Z.max x l)%Z ∧ ∀ y, y ∈ l → (y ≤ foldl Z.max x l)%Z.
Proof.
  revert x. induction l as [ | z l IH ]; intros x; cbn.
  - split; [ lia | ]. by intros y ?%not_elem_of_nil.
  - destruct (IH (Z.max x z)) as [Hx Hl]. split; [ lia | ].
    intros y [ -> | Hy ]%elem_of_cons; [ lia | by apply Hl ].
Qed.

Lemma foldl_max_elem (l : list Z) (x : Z) :
  foldl Z.max x l = x ∨ foldl Z.max x l ∈ l.
Proof.
  revert x. induction l as [ | z l IH ]; intros x; cbn; [ by left | ].
  destruct (IH (Z.max x z)) as [ -> | Hin ].
  - destruct (Z.max_spec x z) as [ [_ ->] | [_ ->] ]; [ right; left | by left ].
  - right. by right.
Qed.

Lemma max_Z_upper (l : list Z) (y : Z) : y ∈ l → (y ≤ max_Z l)%Z.
Proof.
  destruct l as [ | x l ]; [ by intros ?%not_elem_of_nil | ].
  cbn. destruct (foldl_max_le l x) as [Hx Hl].
  intros [ -> | Hy ]%elem_of_cons; [ done | by apply Hl ].
Qed.

Lemma max_Z_elem (l : list Z) : l ≠ [] → max_Z l ∈ l.
Proof.
  destruct l as [ | x l ]; [ done | ]. intros _. cbn.
  destruct (foldl_max_elem l x) as [ -> | Hin ]; [ left | by right ].
Qed.

Lemma foldl_add_shift (l : list Z) (x : Z) :
  foldl Z.add x l = (x + foldl Z.add 0 l)%Z.
Proof.
  revert x. induction l as [ | z l IH ]; intros x; cbn; [ lia | ].
  rewrite (IH (x + z)%Z), (IH (0 + z)%Z). lia.
Qed.

Lemma sum_Z_cons (x : Z) (l : list Z) : sum_Z (x :: l) = (x + sum_Z l)%Z.
Proof. unfold sum_Z. cbn. apply foldl_add_shift. Qed.

Lemma sum_Z_upper (l : list Z) (hi : Z) :
  (∀ y, y ∈ l → (y ≤ hi)%Z) → (sum_Z l ≤ hi * Z.of_nat (length l))%Z.
Proof.
  induction l as [ | x l IH ]; intros Hall; [ cbn; lia | ].
  rewrite sum_Z_cons. cbn [length].
  assert (x ≤ hi)%Z by (apply Hall; left).
  assert (sum_Z l ≤ hi * Z.of_nat (length l))%Z
    by (apply IH; intros y Hy; apply Hall; by right).
  lia.
Qed.

Lemma sum_Z_lower (l : list Z) (lo : Z) :
  (∀ y, y ∈ l → (lo ≤ y)%Z) → (lo * Z.of_nat (length l) ≤ sum_Z l)%Z.
Proof.
  induction l as [ | x l IH ]; intros Hall; [ cbn; lia | ].
  rewrite sum_Z_cons. cbn [length].
  assert (lo ≤ x)%Z by (apply Hall; left).
  assert (lo * Z.of_nat (length l) ≤ sum_Z l)%Z
    by (apply IH; intros y Hy; apply Hall; by right).
  lia.
Qed.

Lemma length_positive {A} (l : list A) :
  l ≠ [] → (0 < inject_Z (Z.of_nat (length l)))%Q.
Proof.
  intros Hne. change 0%Q with (inject_Z 0). rewrite <- Zlt_Qlt.
  destruct l; [ done | cbn; lia ].
Qed.

(** The mean of a non-empty list of integers lies between any bounds of
    its elements. *)
Lemma mean_upper (l : list Z) (hi : Z) :
  l ≠ [] →
  (∀ y, y ∈ l → (y ≤ hi)%Z) →
  (inject_Z (sum_Z l) / inject_Z (Z.of_nat (length l)) <= inject_Z hi)%Q.
Proof.
  intros Hne Hall. apply Qle_shift_div_r; [ by apply length_positive | ].
  rewrite <- inject_Z_mult, <- Zle_Qle. by apply sum_Z_upper.
Qed.

Lemma mean_lower (l : list Z) (lo : Z) :
  l ≠ [] →
  (∀ y, y ∈ l → (lo ≤ y)%Z) →
  (inject_Z lo <= inject_Z (sum_Z l) / inject_Z (Z.of_nat (length l)))%Q.
Proof.
  intros Hne Hall. apply Qle_shift_div_l; [ by apply length_positive | ].
  rewrite <- inject_Z_mult, <- Zle_Qle. by apply sum_Z_lower.
Qed.

Section Radon_facts.

Variable fs : string → option string.
Variable cc_visit : string → result (list cc_block).
Variable mi_visit : string → result Q.
Variable h_visit : string → result (option Q).

Lemma nil_or_not {A} (l : list A) : l = [] ∨ l ≠ [].
Proof. destruct l; [ left | right ]; done. Qed.

Lemma analyze_source_ok (file_path content : string) (fc : FileComplexity) :
  analyze_source cc_visit mi_visit h_visit file_path content = Ok fc →
  ∃ blocks,
    cc_visit content = Ok blocks
    ∧ fc_file_path fc = path_str file_path
    ∧ fc_functions fc = metrics_of_block file_path <$> blocks
    ∧ fc_max_complexity fc = max_Z (cc_complexity <$> blocks)
    ∧ fc_average_complexity fc
      = match blocks with
        | [] => 0%Q
        | _ => (inject_Z (sum_Z (cc_complexity <$> blocks))
                / inject_Z (Z.of_nat (length blocks)))%Q
        end
    ∧ fc_risk_level fc
      = _determine_risk_level (fc_average_complexity fc)
          (fc_maintainability_index fc).
Proof.
  unfold analyze_source. intros Hrun.
  destruct (cc_visit content) as [ blocks | ] eqn:Hcc; [ | done ].
  destruct (mi_visit content) as [ mi | ]; [ | done ].
  destruct (h_visit content) as [ h | ]; [ | done ].
  cbn in Hrun. injection Hrun as <-. exists blocks. cbn.
  rewrite <- !list_fmap_compose.
  replace (cm_cyclomatic_complexity ∘ metrics_of_block file_path)
    with cc_complexity by done.
  repeat split. destruct blocks; [ done | ]. cbn [fmap list_fmap].
  cbn [length]. by rewrite length_fmap.
Qed.

Lemma complexity_analyze_file_ok (file_path : string) (fc : FileComplexity) :
  complexity_analyze_file fs cc_visit mi_visit h_visit file_path = Some fc →
  ∃ content,
    fs file_path = Some content
    ∧ endswith file_path ".py" = true
    ∧ analyze_source cc_visit mi_visit h_visit file_path content = Ok fc.
Proof.
  unfold complexity_analyze_file. intros Hrun.
  destruct (fs file_path) as [ content | ]; [ | done ].
  destruct (endswith file_path ".py"); cbn [negb] in Hrun; [ | done ].
  destruct (analyze_source _ _ _ file_path content) as [ fc' | ] eqn:Hsrc;
    [ | done ].
  exists content. injection Hrun as <-. done.
Qed.

Lemma analyze_source_aggregates (file_path content : string)
    (fc : FileComplexity) :
  analyze_source cc_visit mi_visit h_visit file_path content = Ok fc →
  let complexities := cm_cyclomatic_complexity <$> fc_functions fc in
  (∀ f, f ∈ fc_functions fc →
     (cm_cyclomatic_complexity f ≤ fc_max_complexity fc)%Z
     ∧ cm_classification f = _classify_complexity (cm_cyclomatic_complexity f)
     ∧ cm_file_path f = fc_file_path fc
     ∧ cm_maintainability_index f = 0%Q
     ∧ cm_halstead_difficulty f = 0%Q)
  ∧ (fc_functions fc = [] →
     fc_average_complexity fc = 0%Q ∧ fc_max_complexity fc = 0%Z)
  ∧ (fc_functions fc ≠ [] →
     fc_max_complexity fc ∈ complexities
     ∧ (fc_average_complexity fc <= inject_Z (fc_max_complexity fc))%Q
     ∧ ∀ lo : Z, (∀ c, c ∈ complexities → (lo ≤ c)%Z) →
         (inject_Z lo <= fc_average_complexity fc)%Q).
Proof.
  intros Hrun. apply analyze_source_ok in Hrun
    as (blocks & _ & Hpath & Hfun & Hmax & Havg & _).
  cbn zeta. rewrite Hfun, Hmax, Havg, Hpath, <- list_fmap_compose.
  replace (cm_cyclomatic_complexity ∘ metrics_of_block file_path)
    with cc_complexity by done.
  split; [ | split ].
  - intros f (b & -> & Hb)%list_elem_of_fmap. cbn. repeat split.
    apply max_Z_upper, list_elem_of_fmap. by exists b.
  - intros Hnil%fmap_nil_inv. by rewrite Hnil.
  - intros Hne.
    assert (cc_complexity <$> blocks ≠ []) as Hne'.
    { intros Hnil%fmap_nil_inv. by rewrite Hnil in Hne. }
    split; [ by apply max_Z_elem | ].
    destruct blocks as [ | b blocks ]; [ done | ].
    rewrite <- (length_fmap cc_complexity). split.
    + apply mean_upper; [ done | ]. intros y Hy. by apply max_Z_upper.
    + intros lo Hlo. by apply mean_lower.
Qed.

(** X5.  In a file complexity returned by [analyze_file], every
    function's complexity is at most [max_complexity], its
    classification is the band of its complexity and its own
    maintainability and Halstead fields are 0; without functions the
    average and the maximum are both 0; otherwise the maximum is the
    complexity of one of the functions and the average lies between any
    lower bound of the complexities and the maximum. *)
Theorem complexity_analyze_file_aggregates (file_path : string)
    (fc : FileComplexity) :
  complexity_analyze_file fs cc_visit mi_visit h_visit file_path = Some fc →
  let complexities := cm_cyclomatic_complexity <$> fc_functions fc in
  (∀ f, f ∈ fc_functions fc →
     (cm_cyclomatic_complexity f ≤ fc_max_complexity fc)%Z
     ∧ cm_classification f = _classify_complexity (cm_cyclomatic_complexity f)
     ∧ cm_file_path f = fc_file_path fc
     ∧ cm_maintainability_index f = 0%Q
     ∧ cm_halstead_difficulty f = 0%Q)
  ∧ (fc_functions fc = [] →
     fc_average_complexity fc = 0%Q ∧ fc_max_complexity fc = 0%Z)
  ∧ (fc_functions fc ≠ [] →
     fc_max_complexity fc ∈ complexities
     ∧ (fc_average_complexity fc <= inject_Z (fc_max_complexity fc))%Q
     ∧ ∀ lo : Z, (∀ c, c ∈ complexities → (lo ≤ c)%Z) →
         (inject_Z lo <= fc_average_complexity fc)%Q).
Proof.
  intros (content & _ & _ & Hrun)%complexity_analyze_file_ok.
  by apply (analyze_source_aggregates file_path content).
Qed.

(** X6.  The risk level of a file against the bands of its
    functions: a high risk comes with a maintainability index below 10
    or with a very complex function; functions that are all simple or
    moderate and a maintainability index of at least 20 give a low risk;
    and a low-risk file with functions has a simple or moderate one. *)
Theorem complexity_risk_from_functions (file_path : string) (fc : FileComplexity) :
  complexity_analyze_file fs cc_visit mi_visit h_visit file_path = Some fc →
  (fc_risk_level fc = high →
     (fc_maintainability_index fc < 10)%Q
     ∨ ∃ f, f ∈ fc_functions fc ∧ cm_classification f = very_complex)
  ∧ ((∀ f, f ∈ fc_functions fc →
        cm_classification f = simple ∨ cm_classification f = moderate) →
     (20 <= fc_maintainability_index fc)%Q →
     fc_risk_level fc = low)
  ∧ (fc_risk_level fc = low →
     (20 <= fc_maintainability_index fc)%Q
     ∧ (fc_functions fc ≠ [] →
        ∃ f, f ∈ fc_functions fc
             ∧ (cm_classification f = simple ∨ cm_classification f = moderate))).
Proof.
  intros (content & _ & _ & Hrun)%complexity_analyze_file_ok.
  pose proof (analyze_source_aggregates file_path content fc Hrun)
    as (Hfun & Hempty & Hfull).
  apply analyze_source_ok in Hrun as (blocks & _ & _ & _ & _ & _ & Hrisk).
  rewrite Hrisk. unfold _determine_risk_level, COMPLEX, MODERATE.
  split; [ | split ].
  - intros Hhigh.
    destruct (Qgtb (fc_average_complexity fc) (inject_Z 20)) eqn:Havg; cycle 1.
    { cbn in Hhigh. destruct (Qltb (fc_maintainability_index fc) (inject_Z 10))
        eqn:Hmi; [ left; by apply Qltb_spec | ].
      by destruct (_ || _). }
    right. apply Qgtb_spec in Havg.
    destruct (nil_or_not (fc_functions fc)) as [ Hnil | Hcons ].
    { destruct (Hempty Hnil) as [Hzero _]. rewrite Hzero in Havg. done. }
    destruct (Hfull Hcons) as (Hmax & Hle & _).
    apply list_elem_of_fmap in Hmax as (f & Hf & Hin).
    exists f. split; [ done | ].
    destruct (Hfun f Hin) as (_ & -> & _).
    assert (20 < cm_cyclomatic_complexity f)%Z as Hbig.
    { rewrite <- Hf. rewrite Zlt_Qlt. eapply Qlt_le_trans; [ exact Havg | exact Hle ]. }
    unfold _classify_complexity, SIMPLE, MODERATE, COMPLEX.
    repeat case_match; try done; lia.
  - intros Hall Hmi.
    assert (fc_average_complexity fc <= inject_Z 10)%Q as Havg.
    { destruct (nil_or_not (fc_functions fc)) as [ Hnil | Hcons ].
      - destruct (Hempty Hnil) as [-> _]; done.
      - destruct (Hfull Hcons) as (Hmax & Hle & _).
        eapply Qle_trans; [ exact Hle | ]. rewrite <- Zle_Qle.
        apply list_elem_of_fmap in Hmax as (f & -> & Hin).
        destruct (Hfun f Hin) as (_ & Hclass & _).
        specialize (Hall f Hin). rewrite Hclass in Hall.
        unfold _classify_complexity, SIMPLE, MODERATE, COMPLEX in Hall.
        repeat case_match; destruct Hall; try done; lia. }
    assert (Qgtb (fc_average_complexity fc) (inject_Z 20) = false) as ->.
    { apply not_true_is_false. intros H%Qgtb_spec.
      apply (Qlt_irrefl (inject_Z 20)).
      eapply Qlt_le_trans; [ exact H | ]. eapply Qle_trans; [ exact Havg | done ]. }
    assert (Qgtb (fc_average_complexity fc) (inject_Z 10) = false) as ->.
    { apply not_true_is_false. intros H%Qgtb_spec.
      apply (Qlt_irrefl (inject_Z 10)). eapply Qlt_le_trans; [ exact H | done ]. }
    assert (Qltb (fc_maintainability_index fc) (inject_Z 20) = false) as ->.
    { apply not_true_is_false. intros H%Qltb_spec.
      apply (Qlt_irrefl 20). eapply Qle_lt_trans; [ exact Hmi | exact H ]. }
    assert (Qltb (fc_maintainability_index fc) (inject_Z 10) = false) as ->.
    { apply not_true_is_false. intros H%Qltb_spec.
      apply (Qlt_irrefl 20). eapply Qle_lt_trans; [ exact Hmi | ].
      eapply Qlt_trans; [ exact H | done ]. }
    done.
  - intros Hlow.
    destruct (Qgtb (fc_average_complexity fc) (inject_Z 20)
              || Qltb (fc_maintainability_index fc) (inject_Z 10)); [ done | ].
    destruct (Qgtb (fc_average_complexity fc) (inject_Z 10)) eqn:Havg;
      [ done | ].
    destruct (Qltb (fc_maintainability_index fc) (inject_Z 20)) eqn:Hmi;
      [ done | ].
    split.
    { apply Qnot_lt_le. intros H. apply (Qltb_spec _ (inject_Z 20)) in H.
      by rewrite H in Hmi. }
    intros Hne. destruct (Hfull Hne) as (_ & _ & Hlower).
    destruct (decide (Exists (λ f, (cm_cyclomatic_complexity f ≤ 10)%Z)
                        (fc_functions fc))) as [ Hex | Hnone ].
    + apply Exists_exists in Hex as (f & Hin & Hsmall). exists f.
      split; [ done | ]. destruct (Hfun f Hin) as (_ & -> & _).
      unfold _classify_complexity, SIMPLE, MODERATE, COMPLEX.
      repeat case_match; auto; lia.
    + exfalso. apply not_Exists_Forall in Hnone; [ | intros f; cbn; apply _ ].
      rewrite Forall_forall in Hnone.
      assert (inject_Z 11 <= fc_average_complexity fc)%Q as Hbig.
      { apply Hlower. intros c (f & -> & Hin)%list_elem_of_fmap.
        specialize (Hnone f Hin). cbn in Hnone. lia. }
      apply not_true_iff_false in Havg. apply Havg, Qgtb_spec.
      eapply Qlt_le_trans; [ | exact Hbig ]. done.
Qed.

End Radon_facts.

Lemma complexity_analyze_file_aggregates_witness :
  ∃ fc,
    complexity_analyze_file radon_example_fs radon_example_cc radon_example_mi
      radon_example_h "pkg/util.py" = Some fc
    ∧ fc_max_complexity fc = 12%Z
    ∧ (fc_average_complexity fc <= inject_Z (fc_max_complexity fc))%Q.
Proof.
  eexists. split; [ vm_compute; reflexivity | ]. split; [ reflexivity | ].
  refine (proj1 (proj2 (proj2 (proj2
    (complexity_analyze_file_aggregates radon_example_fs radon_example_cc
       radon_example_mi radon_example_h "pkg/util.py" _ eq_refl)) _))).
  discriminate.
Defined.

Lemma complexity_risk_from_functions_witness :
  ∃ fc,
    complexity_analyze_file radon_example_fs radon_example_cc radon_example_mi
      radon_example_h "pkg/util.py" = Some fc
    ∧ fc_risk_level fc = low
    ∧ (20 <= fc_maintainability_index fc)%Q.
Proof.
  eexists. split; [ vm_compute; reflexivity | ]. split; [ reflexivity | ].
  refine (proj1 (proj2 (proj2
    (complexity_risk_from_functions radon_example_fs radon_example_cc
       radon_example_mi radon_example_h "pkg/util.py" _ eq_refl)) _)).
  reflexivity.
Defined.

(* --------------------------------------------------------------------- *)
(** ** Symbols and imports of a file                                      *)
(* --------------------------------------------------------------------- *)

Lemma split_go_nonempty sep skip s : split_go sep skip s ≠ [].
Proof.
  revert skip. induction s as [ | c s IH ]; intros skip; cbn [split_go];
    [ done | ].
  destruct skip; [ | apply IH ].
  destruct (String.prefix sep (String c s)); [ done | ].
  destruct (split_go sep 0 s); done.
Qed.

Lemma python_symbols_of_line_shape i line file_path :
  length (python_symbols_of_line i line file_path) ≤ 1
  ∧ ∀ s, s ∈ python_symbols_of_line i line file_path →
      symbol_at i file_path s
      ∧ sym_type s ≠ SymVariable
      ∧ sym_is_public s = negb (startswith (sym_name s) "_").
Proof.
  unfold python_symbols_of_line, symbol_at. repeat case_match; cbn; split;
    try lia; intros sym Hsym; try (by apply elem_of_nil in Hsym);
    apply list_elem_of_singleton in Hsym as ->; cbn; repeat split; done.
Qed.

Lemma js_symbols_of_line_shape i line file_path :
  length (js_symbols_of_line i line file_path) ≤ 1
  ∧ ∀ s, s ∈ js_symbols_of_line i line file_path →
      symbol_at i file_path s
      ∧ (sym_type s = SymClass ∨ sym_type s = SymFunction)
      ∧ sym_is_public s = true.
Proof.
  unfold js_symbols_of_line, symbol_at. repeat case_match; cbn; split;
    try lia; intros sym Hsym; try (by apply elem_of_nil in Hsym);
    apply list_elem_of_singleton in Hsym as ->; cbn; repeat split; auto.
Qed.

Lemma line_ordered_cons i n (first rest : list CodeSymbol) :
  length first ≤ 1 →
  (∀ s, s ∈ first → sym_line_start s = i + 1) →
  line_ordered (S i) n rest →
  line_ordered i (S n) (first ++ rest).
Proof.
  intros Hlen Hfirst (Hn & Hsorted & Hrange). split; [ | split ].
  - rewrite length_app. lia.
  - destruct first as [ | s [ | ? ? ] ]; [ done | | cbn in Hlen; lia ].
    cbn. constructor; [ done | ]. apply Forall_forall. intros t Ht.
    rewrite (Hfirst s) by left. specialize (Hrange t Ht). lia.
  - intros s [ Hs | Hs ]%elem_of_app.
    + rewrite (Hfirst s Hs). lia.
    + specialize (Hrange s Hs). lia.
Qed.

Lemma python_symbols_from_ordered i lines file_path :
  line_ordered i (length lines) (python_symbols_from i lines file_path).
Proof.
  revert i. induction lines as [ | line lines IH ]; intros i.
  - cbn. split; [ done | ]. split; [ constructor | by intros s ?%elem_of_nil ].
  - cbn [python_symbols_from length].
    destruct (python_symbols_of_line_shape i line file_path) as [Hlen Hshape].
    apply line_ordered_cons; [ done | | apply IH ].
    intros s Hs. by destruct (Hshape s Hs) as ((_ & ? & _) & _).
Qed.

Lemma js_symbols_from_ordered i lines file_path :
  line_ordered i (length lines) (js_symbols_from i lines file_path).
Proof.
  revert i. induction lines as [ | line lines IH ]; intros i.
  - cbn. split; [ done | ]. split; [ constructor | by intros s ?%elem_of_nil ].
  - cbn [js_symbols_from length].
    destruct (js_symbols_of_line_shape i line file_path) as [Hlen Hshape].
    apply line_ordered_cons; [ done | | apply IH ].
    intros s Hs. by destruct (Hshape s Hs) as ((_ & ? & _) & _).
Qed.

Lemma python_symbols_from_shape i lines file_path s :
  s ∈ python_symbols_from i lines file_path →
  sym_file_path s = file_path
  ∧ sym_line_end s = sym_line_start s
  ∧ sym_docstring s = None
  ∧ sym_complexity s = 0%Z
  ∧ sym_type s ≠ SymVariable
  ∧ sym_is_public s = negb (startswith (sym_name s) "_").
Proof.
  revert i. induction lines as [ | line lines IH ]; intros i; cbn.
  - by intros ?%elem_of_nil.
  - intros [ Hs | Hs ]%elem_of_app; [ | by eapply IH ].
    destruct (python_symbols_of_line_shape i line file_path) as [_ Hshape].
    destruct (Hshape s Hs) as ((? & -> & -> & ? & ?) & ? & ?). done.
Qed.

Lemma js_symbols_from_shape i lines file_path s :
  s ∈ js_symbols_from i lines file_path →
  sym_file_path s = file_path
  ∧ sym_line_end s = sym_line_start s
  ∧ sym_docstring s = None
  ∧ sym_complexity s = 0%Z
  ∧ (sym_type s = SymClass ∨ sym_type s = SymFunction)
  ∧ sym_is_public s = true.
Proof.
  revert i. induction lines as [ | line lines IH ]; intros i; cbn.
  - by intros ?%elem_of_nil.
  - intros [ Hs | Hs ]%elem_of_app; [ | by eapply IH ].
    destruct (js_symbols_of_line_shape i line file_path) as [_ Hshape].
    destruct (Hshape s Hs) as ((? & -> & -> & ? & ?) & ? & ?). done.
Qed.

Lemma length_flat_map_le {A B} (f : A → list B) (l : list A) :
  (∀ x, length (f x) ≤ 1) → length (flat_map f l) ≤ length l.
Proof.
  intros Hf. induction l as [ | x l IH ]; cbn; [ done | ].
  rewrite length_app. specialize (Hf x). lia.
Qed.

Lemma python_imports_of_line_length line :
  length (python_imports_of_line line) ≤ 1.
Proof. unfold python_imports_of_line. repeat case_match; cbn; lia. Qed.

Lemma js_imports_of_line_length line : length (js_imports_of_line line) ≤ 1.
Proof. unfold js_imports_of_line. repeat case_match; cbn; lia. Qed.

Lemma str_split_length sep s : 1 ≤ length (str_split sep s).
Proof.
  pose proof (split_go_nonempty sep 0 s). unfold str_split.
  destruct (split_go sep 0 s); [ done | cbn; lia ].
Qed.

Section Analysis_facts.

Variable fs : string → option string.



(** X7.  In an analysis returned by [analyze_file] the language
    is the one [LANGUAGE_MAP] gives for the suffix and there is at least
    one line; the symbols come in the order of their lines, at most one
    for each line, with line numbers between 1 and [total_lines]; each
    symbol carries the path of the analysis, ends on the line on which it
    starts, has no docstring, complexity 0 and is never a variable; and
    there are no more imports than lines. *)
Theorem analyze_file_symbols (file_path : string) (analysis : FileAnalysis) :
  analyze_file fs file_path = Some analysis →
  LANGUAGE_MAP !! suffix file_path = Some (fa_language analysis)
  ∧ 1 ≤ fa_total_lines analysis
  ∧ length (fa_symbols analysis) ≤ fa_total_lines analysis
  ∧ length (fa_imports analysis) ≤ fa_total_lines analysis
  ∧ StronglySorted (λ a b, sym_line_start a < sym_line_start b)
      (fa_symbols analysis)
  ∧ ∀ s, s ∈ fa_symbols analysis →
      1 ≤ sym_line_start s ≤ fa_total_lines analysis
      ∧ sym_line_end s = sym_line_start s
      ∧ sym_file_path s = fa_file_path analysis
      ∧ sym_docstring s = None
      ∧ sym_complexity s = 0%Z
      ∧ sym_type s ≠ SymVariable.
Proof.
  unfold analyze_file. intros Hrun.
  destruct (fs file_path) as [ content | ]; [ | done ].
  destruct (LANGUAGE_MAP !! suffix file_path) as [ language | ]; [ | done ].
  case_bool_decide; [ done | ]. injection Hrun as <-.
  unfold analyze_content. cbn [fa_language fa_total_lines fa_symbols fa_imports
                                 fa_file_path].
  split; [ done | ]. split; [ apply str_split_length | ].
  unfold _extract_symbols_simple, _extract_imports_simple,
    _extract_python_symbols, _extract_js_symbols.
  set (lines := str_split NL content).
  destruct (bool_decide (language = "python")).
  { destruct (python_symbols_from_ordered 0 lines file_path)
      as (Hlen & Hsorted & Hrange).
    split; [ done | ].
    split; [ apply length_flat_map_le, python_imports_of_line_length | ].
    split; [ done | ]. intros s Hs.
    destruct (python_symbols_from_shape 0 lines file_path s Hs)
      as (? & ? & ? & ? & ? & _).
    specialize (Hrange s Hs). repeat split; try done; lia. }
  destruct (is_js_or_ts language).
  { destruct (js_symbols_from_ordered 0 lines file_path)
      as (Hlen & Hsorted & Hrange).
    split; [ done | ].
    split; [ apply length_flat_map_le, js_imports_of_line_length | ].
    split; [ done | ]. intros s Hs.
    destruct (js_symbols_from_shape 0 lines file_path s Hs)
      as (? & ? & ? & ? & Htype & _).
    specialize (Hrange s Hs). repeat split; try done; try lia.
    intros Hvar. rewrite Hvar in Htype. by destruct Htype. }
  cbn. split; [ lia | ]. split; [ lia | ]. split; [ constructor | ].
  by intros s ?%elem_of_nil.
Qed.

(** X8.  What [analyze_file] extracts by language: symbols and
    imports only for Python, JavaScript and TypeScript; a method only in
    a Python file; in a JavaScript or TypeScript file every symbol is
    public, whatever its name; in a Python file a symbol is public
    exactly when its name does not start with an underscore. *)
Theorem analyze_file_by_language (file_path : string) (analysis : FileAnalysis) :
  analyze_file fs file_path = Some analysis →
  let language := fa_language analysis in
  (language ≠ "python" → language ≠ "javascript" → language ≠ "typescript" →
     fa_symbols analysis = [] ∧ fa_imports analysis = [])
  ∧ (∀ s, s ∈ fa_symbols analysis → sym_type s = SymMethod →
       language = "python")
  ∧ (language = "javascript" ∨ language = "typescript" →
     ∀ s, s ∈ fa_symbols analysis → sym_is_public s = true)
  ∧ (language = "python" →
     ∀ s, s ∈ fa_symbols analysis →
       sym_is_public s = negb (startswith (sym_name s) "_")).
Proof.
  unfold analyze_file. intros Hrun.
  destruct (fs file_path) as [ content | ]; [ | done ].
  destruct (LANGUAGE_MAP !! suffix file_path) as [ language | ]; [ | done ].
  case_bool_decide; [ done | ]. injection Hrun as <-.
  unfold analyze_content. cbn [fa_language fa_total_lines fa_symbols fa_imports
                                 fa_file_path]. cbn zeta.
  unfold _extract_symbols_simple, _extract_imports_simple,
    _extract_python_symbols, _extract_js_symbols, is_js_or_ts.
  set (lines := str_split NL content).
  destruct (decide (language = "python")) as [ -> | Hpy ].
  { rewrite !bool_decide_eq_true_2 by done.
    split; [ done | ]. split; [ done | ]. split; [ by intros [ ? | ? ] | ].
    intros _ s Hs.
    by destruct (python_symbols_from_shape 0 lines file_path s Hs)
      as (_ & _ & _ & _ & _ & ?). }
  rewrite !(bool_decide_eq_false_2 (language = "python")) by done.
  destruct (decide (language = "javascript")) as [ -> | Hjs ];
    [ | destruct (decide (language = "typescript")) as [ -> | Hts ] ].
  1, 2: cbn [bool_decide orb]; split; [ done | ]; split;
    [ intros s Hs Hm;
      destruct (js_symbols_from_shape 0 lines file_path s Hs)
        as (_ & _ & _ & _ & [ Ht | Ht ] & _); congruence
    | split; [ | done ]; intros _ s Hs;
      by destruct (js_symbols_from_shape 0 lines file_path s Hs)
        as (_ & _ & _ & _ & _ & ?) ].
  rewrite !bool_decide_eq_false_2 by done. cbn [orb].
  split; [ done | ]. split; [ by intros s ?%elem_of_nil | ].
  split; [ by intros [ ? | ? ] | done ].
Qed.

End Analysis_facts.

Lemma analyze_file_symbols_witness :
  ∃ analysis,
    analyze_file repo_example_fs "proj/app.py" = Some analysis
    ∧ sym_name <$> fa_symbols analysis = [ "App"; "run"; "_main" ]
    ∧ length (fa_symbols analysis) ≤ fa_total_lines analysis.
Proof.
  eexists. split; [ vm_compute; reflexivity | ]. split; [ reflexivity | ].
  refine (proj1 (proj2 (proj2
    (analyze_file_symbols repo_example_fs "proj/app.py" _ eq_refl)))).
Defined.

Lemma analyze_file_by_language_witness :
  ∃ analysis,
    analyze_file repo_example_fs "proj/web/index.js" = Some analysis
    ∧ sym_name <$> fa_symbols analysis = [ "_go" ]
    ∧ ∀ s, s ∈ fa_symbols analysis → sym_is_public s = true.
Proof.
  eexists. split; [ vm_compute; reflexivity | ]. split; [ reflexivity | ].
  refine (proj1 (proj2 (proj2
    (analyze_file_by_language repo_example_fs "proj/web/index.js" _ eq_refl))) _).
  left. reflexivity.
Defined.

(* --------------------------------------------------------------------- *)
(** ** Walking a repository                                               *)
(* --------------------------------------------------------------------- *)

Lemma prefix_slash c s :
  String.prefix "/" (String c s) = bool_decide (c = "/"%char).
Proof.
  change (String.prefix "/" (String c s))
    with (if ascii_dec "/" c then String.prefix "" s else false).
  destruct (ascii_dec "/" c) as [ <- | Hne ].
  - rewrite bool_decide_eq_true_2 by done. by destruct s.
  - by rewrite bool_decide_eq_false_2 by congruence.
Qed.

(** Splitting at slashes distributes over joining with a slash. *)
Lemma str_split_slash_app (a b : string) :
  str_split "/" (a +:+ "/" +:+ b) = str_split "/" a ++ str_split "/" b.
Proof.
  unfold str_split. induction a as [ | c a IH ].
  - change ("" +:+ "/" +:+ b) with (String "/" b). cbn [split_go].
    rewrite prefix_slash, bool_decide_eq_true_2 by done. done.
  - rewrite app_cons. cbn [split_go]. rewrite !prefix_slash.
    case_bool_decide.
    + cbn [String.length Nat.sub]. by rewrite IH.
    + rewrite IH. pose proof (split_go_nonempty "/" 0 a).
      destruct (split_go "/" 0 a); done.
Qed.

Lemma path_parts_joinpath (base rel : string) :
  path_parts base ⊆ path_parts (joinpath base rel).
Proof.
  unfold joinpath.
  destruct (decide (base = "")) as [ -> | H1 ]; [ by intros x ?%elem_of_nil | ].
  destruct (decide (base = ".")) as [ -> | H2 ]; [ by intros x ?%elem_of_nil | ].
  destruct (decide (base = "/")) as [ -> | H3 ]; [ by intros x ?%elem_of_nil | ].
  rewrite !bool_decide_eq_false_2 by done. cbn [orb].
  unfold path_parts. rewrite str_split_slash_app, filter_app.
  intros x Hx. apply elem_of_app. by left.
Qed.

Lemma has_ignored_part_joinpath ignored base rel :
  has_ignored_part ignored base = true →
  has_ignored_part ignored (joinpath base rel) = true.
Proof.
  unfold has_ignored_part. rewrite !existsb_elem_of.
  intros (part & Hin & Hpart%bool_decide_eq_true). exists part.
  split; [ done | ]. apply bool_decide_eq_true. by apply path_parts_joinpath.
Qed.

(** A loop that stores [f rel] under [rel] for each match on which [f]
    is defined. *)
Lemma foldl_store_lookup {V} (f : string → option V) (l : list string)
    (results : gmap string V) (rel : string) :
  foldl (λ results rel,
           match f rel with
           | Some v => <[ rel := v ]> results
           | None => results
           end) results l !! rel
  = if bool_decide (rel ∈ l)
    then match f rel with Some v => Some v | None => results !! rel end
    else results !! rel.
Proof.
  revert results. induction l as [ | r l IH ]; intros results; [ done | ].
  cbn [foldl]. rewrite IH. destruct (decide (rel = r)) as [ -> | Hne ].
  - rewrite (bool_decide_eq_true_2 (r ∈ r :: l)) by left.
    destruct (f r) as [ v | ] eqn:Hf.
    + rewrite lookup_insert_eq. by case_bool_decide.
    + by case_bool_decide.
  - assert (bool_decide (rel ∈ r :: l) = bool_decide (rel ∈ l)) as ->.
    { apply bool_decide_ext. rewrite elem_of_cons. naive_solver. }
    destruct (f r); [ by rewrite lookup_insert_ne | done ].
Qed.

Lemma foldl_pointwise {A B} (f g : A → B → A) (l : list B) (a : A) :
  (∀ a b, f a b = g a b) → foldl f a l = foldl g a l.
Proof.
  intros Hfg. revert a. induction l as [ | b l IH ]; intros a; [ done | ].
  cbn. by rewrite Hfg, IH.
Qed.

Section Repository_facts.

Variable fs : string → option string.
Variable rglob : string → string → list string.

Lemma analyze_matches_lookup repo_path (l : list string)
    (results : gmap string FileAnalysis) rel :
  foldl (analyze_match fs repo_path) results l !! rel
  = if bool_decide (rel ∈ l)
    then match analysis_of_match fs repo_path rel with
         | Some v => Some v
         | None => results !! rel
         end
    else results !! rel.
Proof.
  rewrite <- foldl_store_lookup. f_equal.
  apply foldl_pointwise. intros acc r. unfold analyze_match, analysis_of_match.
  by destruct (has_ignored_part _ _).
Qed.

Lemma analyze_extensions_lookup repo_path (exts : list string)
    (results : gmap string FileAnalysis) rel :
  foldl
    (λ results ext,
       foldl (analyze_match fs repo_path) results (rglob repo_path ("*" +:+ ext)))
    results exts !! rel
  = if existsb (λ ext, bool_decide (rel ∈ rglob repo_path ("*" +:+ ext))) exts
    then match analysis_of_match fs repo_path rel with
         | Some v => Some v
         | None => results !! rel
         end
    else results !! rel.
Proof.
  revert results. induction exts as [ | ext exts IH ]; intros results; [ done | ].
  cbn [foldl existsb]. rewrite IH, analyze_matches_lookup.
  destruct (bool_decide (rel ∈ rglob repo_path ("*" +:+ ext))); cbn [orb];
    [ | done ].
  destruct (existsb _ exts); by destruct (analysis_of_match fs repo_path rel).
Qed.

Lemma analyze_repository_lookup (repo_path rel : string) :
  analyze_repository fs rglob repo_path !! rel
  = if existsb (λ ext, bool_decide (rel ∈ rglob repo_path ("*" +:+ ext)))
         LANGUAGE_EXTENSIONS
    then analysis_of_match fs repo_path rel
    else None.
Proof.
  unfold analyze_repository. rewrite analyze_extensions_lookup, lookup_empty.
  destruct (existsb _ _); [ | done ].
  by destruct (analysis_of_match fs repo_path rel).
Qed.

Lemma analyze_repository_file (repo_path rel : string) (analysis : FileAnalysis) :
  analyze_repository fs rglob repo_path !! rel = Some analysis →
  has_ignored_part AST_IGNORED_DIRS (joinpath repo_path rel) = false
  ∧ analyze_file fs (joinpath repo_path rel) = Some analysis.
Proof.
  rewrite analyze_repository_lookup. unfold analysis_of_match.
  destruct (existsb _ _); [ | done ].
  by destruct (has_ignored_part _ _).
Qed.

(** X9.  [analyze_repository] maps a relative path to an analysis
    exactly when the path matches the pattern of a supported extension,
    no component of the full path is an ignored directory, and
    [analyze_file] accepts the full path; the analysis stored is the one
    [analyze_file] returns for it. *)
Theorem analyze_repository_entries (repo_path rel : string)
    (analysis : FileAnalysis) :
  analyze_repository fs rglob repo_path !! rel = Some analysis
  ↔ (∃ ext, ext ∈ LANGUAGE_EXTENSIONS ∧ rel ∈ rglob repo_path ("*" +:+ ext))
    ∧ has_ignored_part AST_IGNORED_DIRS (joinpath repo_path rel) = false
    ∧ analyze_file fs (joinpath repo_path rel) = Some analysis.
Proof.
  rewrite analyze_repository_lookup. unfold analysis_of_match.
  destruct (existsb _ LANGUAGE_EXTENSIONS) eqn:Hmatch.
  - apply existsb_elem_of in Hmatch as (ext & Hext & Hrel%bool_decide_eq_true).
    destruct (has_ignored_part _ _).
    + split; [ done | by intros (_ & ? & _) ].
    + destruct (analyze_file fs _) as [ a | ].
      * split; [ intros [= <-]; by eauto | by intros (_ & _ & ->) ].
      * split; [ done | by intros (_ & _ & ?) ].
  - split; [ done | ]. intros ((ext & Hext & Hrel) & _).
    apply not_true_iff_false in Hmatch. destruct Hmatch.
    apply existsb_elem_of. exists ext. split; [ done | ].
    by apply bool_decide_eq_true.
Qed.


(** X11.  The ignore test looks at every component of the full
    path, those of the repository path included: for a repository that
    lies under a directory with an ignored name, [analyze_repository]
    and [get_all_symbols] return nothing, and so does
    [find_entry_points] for its own list of names; and no path returned
    by [find_entry_points] runs through such a directory. *)
Theorem analyze_repository_under_ignored (repo_path : string) :
  (has_ignored_part AST_IGNORED_DIRS repo_path = true →
     analyze_repository fs rglob repo_path = ∅
     ∧ get_all_symbols fs rglob repo_path = [])
  ∧ (has_ignored_part ENTRY_IGNORED_DIRS repo_path = true →
     find_entry_points rglob repo_path = [])
  ∧ ∀ rel, rel ∈ find_entry_points rglob repo_path →
      has_ignored_part ENTRY_IGNORED_DIRS (joinpath repo_path rel) = false
      ∧ ∃ name, name ∈ COMMON_ENTRY_FILES ∧ rel ∈ rglob repo_path name.
Proof.
  split; [ | split ].
  - intros Hignored.
    assert (analyze_repository fs rglob repo_path = ∅) as Hempty.
    { apply map_eq. intros rel. rewrite lookup_empty.
      destruct (analyze_repository fs rglob repo_path !! rel) as [ a | ] eqn:Hrel;
        [ | done ].
      apply analyze_repository_file in Hrel as (Hno & _).
      by rewrite (has_ignored_part_joinpath _ _ rel Hignored) in Hno. }
    split; [ done | ]. unfold get_all_symbols. by rewrite Hempty.
  - intros Hignored. unfold find_entry_points.
    induction COMMON_ENTRY_FILES as [ | name names IH ]; [ done | ].
    cbn [flat_map]. rewrite IH, app_nil_r.
    induction (rglob repo_path name) as [ | rel rels IHr ]; [ done | ].
    cbn [List.filter].
    by rewrite (has_ignored_part_joinpath _ _ rel Hignored).
  - intros rel Hrel. unfold find_entry_points in Hrel.
    apply list_elem_of_In, in_flat_map in Hrel as (name & Hname & Hin).
    apply list_elem_of_In, elem_of_bool_filter in Hin as [Hin Hno].
    split; [ by apply negb_true_iff | ]. exists name.
    split; [ by apply list_elem_of_In | done ].
Qed.

End Repository_facts.

Lemma analyze_repository_under_ignored_witness :
  has_ignored_part AST_IGNORED_DIRS "work/build/proj" = true
  ∧ analyze_repository repo_example_fs repo_example_rglob "work/build/proj" = ∅.
Proof.
  split; [ reflexivity | ].
  refine (proj1 (proj1
    (analyze_repository_under_ignored repo_example_fs repo_example_rglob
       "work/build/proj") _)).
  reflexivity.
Defined.

(* --------------------------------------------------------------------- *)
(** ** Complexity of a repository                                         *)
(* --------------------------------------------------------------------- *)

Lemma Qleb_spec a b : Qleb a b = true ↔ (a <= b)%Q.
Proof. apply Qle_bool_iff. Qed.

Lemma Qgeb_spec a b : Qgeb a b = true ↔ (b <= a)%Q.
Proof. apply Qle_bool_iff. Qed.

Lemma Qgtb_false a b : Qgtb a b = false → (a <= b)%Q.
Proof.
  intros H. apply Qnot_lt_le. intros Hlt%Qgtb_spec. by rewrite Hlt in H.
Qed.

Lemma Qltb_false a b : Qltb a b = false → (b <= a)%Q.
Proof.
  intros H. apply Qnot_lt_le. intros Hlt%Qltb_spec. by rewrite Hlt in H.
Qed.

Section Complexity_repository_facts.

Variable fs : string → option string.
Variable rglob : string → string → list string.
Variable cc_visit : string → result (list cc_block).
Variable mi_visit : string → result Q.
Variable h_visit : string → result (option Q).

Let analyze_repository' := complexity_analyze_repository fs rglob cc_visit mi_visit h_visit.
Let file_values (repo_path : string) : list FileComplexity :=
  (map_to_list (analyze_repository' repo_path)).*2.

Lemma complexity_repository_lookup (repo_path rel : string) :
  analyze_repository' repo_path !! rel
  = if bool_decide (rel ∈ rglob repo_path "*.py")
    then if has_ignored_part COMPLEXITY_IGNORED_DIRS (joinpath repo_path rel)
         then None
         else complexity_analyze_file fs cc_visit mi_visit h_visit
                (joinpath repo_path rel)
    else None.
Proof.
  unfold analyze_repository', complexity_analyze_repository.
  rewrite (foldl_pointwise _
             (λ results rel,
                match (if has_ignored_part COMPLEXITY_IGNORED_DIRS
                            (joinpath repo_path rel)
                       then None
                       else complexity_analyze_file fs cc_visit mi_visit h_visit
                              (joinpath repo_path rel)) with
                | Some v => <[ rel := v ]> results
                | None => results
                end)).
  - rewrite foldl_store_lookup, lookup_empty. case_bool_decide; [ | done ].
    by repeat case_match.
  - intros results r. unfold complexity_analyze_match.
    by destruct (has_ignored_part _ _).
Qed.

(** X12.  [ComplexityAnalyzer.analyze_repository] maps a
    relative path to a file complexity exactly when the path matches
    [*.py], no component of the full path is an ignored directory (test
    directories included) and [analyze_file] accepts the full path; the
    value is what [analyze_file] returns, and its [file_path] is the full
    path, not the key.  A repository that lies under an ignored
    directory gives an empty result. *)
Theorem complexity_analyze_repository_entries (repo_path : string) :
  (∀ rel fc,
     analyze_repository' repo_path !! rel = Some fc
     ↔ rel ∈ rglob repo_path "*.py"
       ∧ has_ignored_part COMPLEXITY_IGNORED_DIRS (joinpath repo_path rel) = false
       ∧ complexity_analyze_file fs cc_visit mi_visit h_visit
           (joinpath repo_path rel) = Some fc)
  ∧ (∀ rel fc,
       analyze_repository' repo_path !! rel = Some fc →
       fc_file_path fc = path_str (joinpath repo_path rel))
  ∧ (has_ignored_part COMPLEXITY_IGNORED_DIRS repo_path = true →
     analyze_repository' repo_path = ∅).
Proof.
  assert (∀ rel fc,
     analyze_repository' repo_path !! rel = Some fc
     ↔ rel ∈ rglob repo_path "*.py"
       ∧ has_ignored_part COMPLEXITY_IGNORED_DIRS (joinpath repo_path rel) = false
       ∧ complexity_analyze_file fs cc_visit mi_visit h_visit
           (joinpath repo_path rel) = Some fc) as Hentries.
  { intros rel fc. rewrite complexity_repository_lookup.
    case_bool_decide as Hrel; [ | by split; [ | intros (? & _) ] ].
    destruct (has_ignored_part _ _); [ by split; [ | intros (_ & ? & _) ] | ].
    split; [ done | by intros (_ & _ & ?) ]. }
  split; [ done | ]. split.
  - intros rel fc (_ & _ & Hfile)%Hentries.
    apply complexity_analyze_file_ok in Hfile as (content & _ & _ & Hsrc).
    by apply analyze_source_ok in Hsrc as (_ & _ & ? & _).
  - intros Hignored. apply map_eq. intros rel. rewrite lookup_empty.
    destruct (analyze_repository' repo_path !! rel) as [ fc | ] eqn:Hrel;
      [ | done ].
    apply Hentries in Hrel as (_ & Hno & _).
    by rewrite (has_ignored_part_joinpath _ _ rel Hignored) in Hno.
Qed.

(** X13.  [get_simple_files] returns the files whose average
    complexity is at most the threshold, each once, in increasing order
    of the average; [get_complex_files] returns those with an average of
    at least the threshold, in decreasing order; and with a threshold
    for simple files below the one for complex files, no file is in both
    lists. *)
Theorem get_simple_and_complex_files (repo_path : string) (low_t high_t : Z) :
  let simple_files :=
    get_simple_files fs rglob cc_visit mi_visit h_visit repo_path low_t in
  let complex_files :=
    get_complex_files fs rglob cc_visit mi_visit h_visit repo_path high_t in
  simple_files
    ≡ₚ List.filter (λ fc, Qleb (fc_average_complexity fc) (inject_Z low_t))
         (file_values repo_path)
  ∧ complex_files
    ≡ₚ List.filter (λ fc, Qgeb (fc_average_complexity fc) (inject_Z high_t))
         (file_values repo_path)
  ∧ StronglySorted
      (λ a b, (fc_average_complexity a <= fc_average_complexity b)%Q)
      simple_files
  ∧ StronglySorted
      (λ a b, (fc_average_complexity b <= fc_average_complexity a)%Q)
      complex_files
  ∧ ((low_t < high_t)%Z →
     ∀ fc, fc ∈ simple_files → fc ∉ complex_files).
Proof.
  cbn zeta. unfold get_simple_files, get_complex_files.
  fold analyze_repository'. fold (file_values repo_path).
  split; [ apply sort_stable_perm | ]. split; [ apply sort_stable_perm | ].
  split; [ | split ].
  - apply sort_stable_sorted.
    + intros x y H%Qltb_spec. by apply Qlt_le_weak.
    + intros x y H. by apply Qltb_false.
    + intros x y z. apply Qle_trans.
  - apply sort_stable_sorted.
    + intros x y H%Qgtb_spec. by apply Qlt_le_weak.
    + intros x y H. by apply Qgtb_false.
    + intros x y z ? ?. by eapply Qle_trans.
  - intros Hlt fc. rewrite !sort_stable_elem, !elem_of_bool_filter.
    intros [_ Hlow%Qleb_spec] [_ Hhigh%Qgeb_spec].
    assert (inject_Z high_t <= inject_Z low_t)%Q as Hle
      by (eapply Qle_trans; [ exact Hhigh | exact Hlow ]).
    rewrite <- Zle_Qle in Hle. lia.
Qed.

(** X14.  [generate_complexity_report] counts the analysed files;
    for an empty repository every field is zero or empty; it lists at
    most ten simple and ten complex files, each the path of an analysed
    file with an average of at most 5, respectively at least 15; and
    [high_risk_files] holds the paths of exactly the analysed files with
    a high risk level, one entry for each such file. *)
Theorem generate_complexity_report_fields (repo_path : string) :
  let report :=
    generate_complexity_report fs rglob cc_visit mi_visit h_visit repo_path in
  total_files report = size (analyze_repository' repo_path)
  ∧ (analyze_repository' repo_path = ∅ →
     report = mkComplexityReport 0 0 [] [] [])
  ∧ length (simple_files report) ≤ 10
  ∧ length (complex_files report) ≤ 10
  ∧ (∀ p, p ∈ simple_files report →
       ∃ fc, fc ∈ file_values repo_path ∧ fc_file_path fc = p
             ∧ (fc_average_complexity fc <= 5)%Q)
  ∧ (∀ p, p ∈ complex_files report →
       ∃ fc, fc ∈ file_values repo_path ∧ fc_file_path fc = p
             ∧ (15 <= fc_average_complexity fc)%Q)
  ∧ high_risk_files report
    = fc_file_path
        <$> List.filter
              (λ fc, match fc_risk_level fc with high => true | _ => false end)
              (file_values repo_path).
Proof.
  cbn zeta. unfold generate_complexity_report.
  fold analyze_repository'. fold (file_values repo_path).
  case_bool_decide as Hsize.
  - apply map_size_empty_iff in Hsize.
    unfold file_values. rewrite Hsize. cbn.
    rewrite map_to_list_empty. repeat split; try done; try lia;
      by intros p ?%elem_of_nil.
  - cbn [total_files simple_files complex_files high_risk_files].
    split; [ done | ]. split.
    { intros Hempty. rewrite Hempty in Hsize. by rewrite map_size_empty in Hsize. }
    split; [ rewrite length_fmap, length_take; lia | ].
    split; [ rewrite length_fmap, length_take; lia | ].
    split; [ | split; [ | done ] ].
    + intros p (fc & -> & Hfc%subseteq_take)%list_elem_of_fmap.
      unfold get_simple_files in Hfc. fold analyze_repository' in Hfc.
      apply sort_stable_elem, elem_of_bool_filter in Hfc as [Hin Hle%Qleb_spec].
      by exists fc.
    + intros p (fc & -> & Hfc%subseteq_take)%list_elem_of_fmap.
      unfold get_complex_files in Hfc. fold analyze_repository' in Hfc.
      apply sort_stable_elem, elem_of_bool_filter in Hfc as [Hin Hle%Qgeb_spec].
      by exists fc.
Qed.

End Complexity_repository_facts.

(* --------------------------------------------------------------------- *)
(** ** Git history: hotspots, recent activity and counts                  *)
(* --------------------------------------------------------------------- *)

Section Git_history_facts.

Variable subprocess_run : list string → result string.
Variable datetime : Type.
Variable fromtimestamp : Z → result datetime.
Variable now : datetime.

Lemma rbind_ok {A B} (r : result A) (k : A → result B) (b : B) :
  rbind r k = Ok b → ∃ a, r = Ok a ∧ k a = Ok b.
Proof. destruct r as [ a | e ]; [ by exists a | done ]. Qed.

Lemma distinct_NoDup (l : list string) : NoDup (distinct l).
Proof. unfold distinct. apply NoDup_elements. Qed.

Lemma distinct_elem (l : list string) x : x ∈ distinct l ↔ x ∈ l.
Proof. unfold distinct. by rewrite elem_of_elements, elem_of_list_to_set. Qed.

Lemma file_history_shape self file_path (h : FileHistory datetime) :
  get_file_history subprocess_run datetime fromtimestamp now self file_path = Ok (Some h) →
  fh_file_path _ h = file_path
  ∧ fh_churn_score _ h = fh_commit_count _ h
  ∧ NoDup (fh_authors _ h)
  ∧ ∃ output,
      _run_git_command subprocess_run self
        [ "rev-list"; "--count"; "HEAD"; "--"; file_path ] = Ok output
      ∧ output ≠ ""
      ∧ py_int output = Ok (fh_commit_count _ h).
Proof.
  unfold get_file_history.
  intros (output & Hout & Hrun)%rbind_ok.
  case_bool_decide as Hempty; [ done | ].
  apply rbind_ok in Hrun as (count & Hcount & Hrun).
  apply rbind_ok in Hrun as (authors & _ & Hrun).
  apply rbind_ok in Hrun as (modified_output & _ & Hrun).
  apply rbind_ok in Hrun as (modified & _ & Hrun).
  apply rbind_ok in Hrun as (creation_output & _ & Hrun).
  apply rbind_ok in Hrun as (creation & _ & Hrun).
  injection Hrun as <-. cbn. split; [ done | ]. split; [ done | ].
  split; [ case_bool_decide; [ constructor | apply distinct_NoDup ] | ].
  by exists output.
Qed.

Lemma collect_histories_elem self files (hs : list (FileHistory datetime)) h :
  collect_histories subprocess_run datetime fromtimestamp now self files = Ok hs →
  h ∈ hs →
  ∃ file_path, file_path ∈ files ∧ get_file_history subprocess_run datetime fromtimestamp now self file_path = Ok (Some h).
Proof.
  revert hs. induction files as [ | f files IH ]; intros hs; cbn.
  - intros [= <-]. by intros ?%elem_of_nil.
  - intros (history & Hf & Hrun)%rbind_ok.
    apply rbind_ok in Hrun as (others & Hothers & [= <-]).
    destruct history as [ h0 | ].
    + intros [ -> | Hin ]%elem_of_cons.
      * exists f. split; [ left | done ].
      * destruct (IH others Hothers Hin) as (p & Hp & Hh).
        exists p. split; [ by right | done ].
    + intros Hin. destruct (IH others Hothers Hin) as (p & Hp & Hh).
      exists p. split; [ by right | done ].
Qed.

Lemma sort_by_churn_stable (l : list (FileHistory datetime)) :
  sort_by_churn datetime l
  = sort_stable
      (λ y x, negb (fh_churn_score _ y <=? fh_churn_score _ x)%Z) l.
Proof.
  unfold sort_by_churn, sort_stable. induction l as [ | h l IH ]; [ done | ].
  cbn [foldr]. rewrite IH. generalize (foldr
    (insert_stable
       (λ y x, negb (fh_churn_score datetime y <=? fh_churn_score datetime x)%Z))
    [] l). clear. intros sorted.
  induction sorted as [ | h' rest IH ]; [ done | ]. cbn.
  destruct (fh_churn_score _ h' <=? fh_churn_score _ h)%Z; cbn; [ done | ].
  by rewrite IH.
Qed.

(** X15.  For a limit that is not negative, [get_hotspots] returns
    at most [limit] histories in decreasing order of churn; each is the
    history of one of the files listed by [git ls-files], with a churn
    score equal to its commit count; and the histories it collected and
    left out have a churn no larger than any it returns. *)
Theorem get_hotspots_sorted self (limit : Z) (hs : list (FileHistory datetime)) :
  (0 ≤ limit)%Z →
  get_hotspots subprocess_run datetime fromtimestamp now self limit = Ok hs →
  length hs ≤ Z.to_nat limit
  ∧ StronglySorted (λ a b, (fh_churn_score _ b ≤ fh_churn_score _ a)%Z) hs
  ∧ (∀ h, h ∈ hs →
       fh_churn_score _ h = fh_commit_count _ h
       ∧ get_file_history subprocess_run datetime fromtimestamp now self (fh_file_path _ h) = Ok (Some h)
       ∧ ∃ files_output,
           _run_git_command subprocess_run self [ "ls-files" ] = Ok files_output
           ∧ fh_file_path _ h ∈ str_split NL files_output)
  ∧ ∃ all rest,
      (_run_git_command subprocess_run self [ "ls-files" ] = Ok ""
       ∧ all = []
       ∨ ∃ files_output,
           _run_git_command subprocess_run self [ "ls-files" ] = Ok files_output
           ∧ collect_histories subprocess_run datetime fromtimestamp now self (str_split NL files_output) = Ok all)
      ∧ hs ++ rest ≡ₚ all
      ∧ ∀ a b, a ∈ hs → b ∈ rest →
          (fh_churn_score _ b ≤ fh_churn_score _ a)%Z.
Proof.
  intros Hlimit. unfold get_hotspots.
  intros (files_output & Hls & Hrun)%rbind_ok.
  case_bool_decide as Hempty.
  { injection Hrun as <-. subst files_output. cbn.
    split; [ lia | ]. split; [ constructor | ].
    split; [ by intros h ?%elem_of_nil | ].
    exists [], []. split; [ by left | ]. split; [ done | ].
    by intros a b ?%elem_of_nil. }
  apply rbind_ok in Hrun as (all & Hall & [= <-]).
  rewrite slice_to_take by done. rewrite sort_by_churn_stable.
  set (before := λ y x : FileHistory datetime,
         negb (fh_churn_score _ y <=? fh_churn_score _ x)%Z).
  assert (StronglySorted
            (λ a b, (fh_churn_score _ b ≤ fh_churn_score _ a)%Z)
            (sort_stable before all)) as Hsorted.
  { apply sort_stable_sorted.
    - intros x y Hb%negb_true_iff%Z.leb_gt. lia.
    - intros x y Hb%negb_false_iff%Z.leb_le. lia.
    - intros x y z ? ?. lia. }
  split; [ rewrite length_take; lia | ].
  split; [ by apply StronglySorted_take | ].
  split.
  - intros h Hh%subseteq_take%sort_stable_elem.
    destruct (collect_histories_elem _ _ _ h Hall Hh) as (p & Hp & Hhist).
    destruct (file_history_shape _ _ _ Hhist) as (Hpath & Hchurn & _).
    split; [ done | ]. rewrite Hpath. split; [ done | ].
    by exists files_output.
  - exists all, (drop (Z.to_nat limit) (sort_stable before all)).
    split; [ right; by exists files_output | ].
    split; [ by rewrite take_drop, sort_stable_perm | ].
    intros a b Ha Hb. by eapply (StronglySorted_take_drop _ _ _ a b Hsorted).
Qed.

(** X16.  [get_file_history] returns [None] exactly when git
    prints no commit count for the file.  A history it returns carries
    the path asked for, the printed count as [commit_count] and as
    [churn_score], and as authors the distinct lines of the author log,
    each once (none when that log is empty). *)
Theorem get_file_history_result self (file_path : string) :
  (get_file_history subprocess_run datetime fromtimestamp now self file_path
   = Ok None
   ↔ _run_git_command subprocess_run self
       [ "rev-list"; "--count"; "HEAD"; "--"; file_path ] = Ok "")
  ∧ ∀ h,
      get_file_history subprocess_run datetime fromtimestamp now self file_path
      = Ok (Some h) →
      fh_file_path _ h = file_path
      ∧ fh_churn_score _ h = fh_commit_count _ h
      ∧ NoDup (fh_authors _ h)
      ∧ (∃ output,
           _run_git_command subprocess_run self
             [ "rev-list"; "--count"; "HEAD"; "--"; file_path ] = Ok output
           ∧ output ≠ ""
           ∧ int output = Some (fh_commit_count _ h))
      ∧ ∃ authors_output,
          _run_git_command subprocess_run self
            [ "log"; "--format=%an"; "--"; file_path ] = Ok authors_output
          ∧ ∀ a, a ∈ fh_authors _ h
                 ↔ authors_output ≠ "" ∧ a ∈ str_split NL authors_output.
Proof.
  split.
  - unfold get_file_history. split.
    + intros (output & Hout & Hrun)%rbind_ok.
      case_bool_decide as Hempty; [ by subst output | ]. exfalso.
      apply rbind_ok in Hrun as (count & _ & Hrun).
      apply rbind_ok in Hrun as (authors & _ & Hrun).
      apply rbind_ok in Hrun as (modified_output & _ & Hrun).
      apply rbind_ok in Hrun as (modified & _ & Hrun).
      apply rbind_ok in Hrun as (creation_output & _ & Hrun).
      by apply rbind_ok in Hrun as (creation & _ & Hrun).
    + intros ->. cbn [rbind]. by rewrite bool_decide_eq_true_2.
  - intros h Hrun. pose proof Hrun as (Hpath & Hchurn & Hnd & Hcount)%file_history_shape.
    split; [ done | ]. split; [ done | ]. split; [ done | ]. split.
    { destruct Hcount as (output & Hout & Hne & Hint). exists output.
      split; [ done | ]. split; [ done | ]. unfold py_int in Hint.
      destruct (int output); [ by injection Hint as -> | done ]. }
    unfold get_file_history in Hrun.
    apply rbind_ok in Hrun as (output & Hout & Hrun).
    case_bool_decide as Hempty; [ done | ].
    apply rbind_ok in Hrun as (count & _ & Hrun).
    apply rbind_ok in Hrun as (authors_output & Hauthors & Hrun).
    exists authors_output. split; [ done | ].
    apply rbind_ok in Hrun as (modified_output & _ & Hrun).
    apply rbind_ok in Hrun as (modified & _ & Hrun).
    apply rbind_ok in Hrun as (creation_output & _ & Hrun).
    apply rbind_ok in Hrun as (creation & _ & Hrun).
    injection Hrun as <-. cbn [fh_authors]. intros a.
    case_bool_decide as Hnone.
    + split; [ by intros ?%elem_of_nil | by intros [? _] ].
    + rewrite distinct_elem. split; [ done | by intros [_ ?] ].
Qed.

Lemma count_file_fold (lines : list string) (file_counts : gmap string Z)
    (p : string) :
  foldl count_file file_counts lines !! p
  = if bool_decide (strip p = "") then file_counts !! p
    else match filter (λ l, l = p) lines with
         | [] => file_counts !! p
         | occurrences =>
             Some (default 0 (file_counts !! p) + Z.of_nat (length occurrences))%Z
         end.
Proof.
  revert file_counts. induction lines as [ | l lines IH ]; intros file_counts.
  - cbn. by case_bool_decide.
  - cbn [foldl]. rewrite IH. clear IH.
    assert (∀ q, q ≠ l → count_file file_counts l !! q = file_counts !! q)
      as Hother.
    { intros q Hq. unfold count_file. case_bool_decide; [ done | ].
      by rewrite lookup_insert_ne. }
    destruct (decide (strip p = "")) as [ Hp | Hp ].
    { rewrite !bool_decide_eq_true_2 by done.
      destruct (decide (p = l)) as [ -> | Hne ]; [ | by apply Hother ].
      unfold count_file. by rewrite bool_decide_eq_true_2. }
    rewrite !(bool_decide_eq_false_2 (strip p = "")) by done.
    destruct (decide (l = p)) as [ -> | Hne ].
    + rewrite filter_cons_True by done.
      unfold count_file. rewrite bool_decide_eq_false_2 by done.
      rewrite lookup_insert_eq.
      destruct (filter _ lines) as [ | o os ]; cbn [default length];
        apply (f_equal Some); unfold id; lia.
    + rewrite filter_cons_False by done. by rewrite Hother.
Qed.

(** X17.  [get_recent_activity] counts, for every line of the git
    output that is not blank, how often that line occurs: a path is a key
    exactly when it is such a line, its value is the number of its
    occurrences, and so every value is at least 1. *)
Theorem get_recent_activity_counts self (days : Z) (file_counts : gmap string Z) :
  get_recent_activity subprocess_run self days = Ok file_counts →
  ∃ output,
    _run_git_command subprocess_run self
      [ "log"; "--since=" +:+ pretty days +:+ ".days.ago"; "--name-only";
        "--format=" ] = Ok output
    ∧ (∀ p n,
         file_counts !! p = Some n
         ↔ strip p ≠ "" ∧ p ∈ str_split NL output
           ∧ n = Z.of_nat (length (filter (λ l, l = p) (str_split NL output))))
    ∧ ∀ p n, file_counts !! p = Some n → (1 ≤ n)%Z.
Proof.
  unfold get_recent_activity. intros (output & Hout & Hrun)%rbind_ok.
  exists output. split; [ done | ].
  assert (∀ p n,
         file_counts !! p = Some n
         ↔ strip p ≠ "" ∧ p ∈ str_split NL output
           ∧ n = Z.of_nat (length (filter (λ l, l = p) (str_split NL output))))
    as Hcounts.
  { intros p n. case_bool_decide as Hempty.
    - injection Hrun as <-. subst output. rewrite lookup_empty.
      split; [ done | ].
      intros (Hp & Hin & _). change (str_split NL "") with [ "" ] in Hin.
      apply list_elem_of_singleton in Hin as ->. done.
    - injection Hrun as <-. rewrite count_file_fold, lookup_empty.
      case_bool_decide as Hp; [ by split; [ | intros (? & _) ] | ].
      destruct (filter (λ l, l = p) (str_split NL output)) as [ | o os ] eqn:Hocc.
      + split; [ done | ]. intros (_ & Hin & _).
        assert (p ∈ filter (λ l, l = p) (str_split NL output)) as Hmem
          by by apply list_elem_of_filter.
        rewrite Hocc in Hmem. by apply elem_of_nil in Hmem.
      + assert (p ∈ str_split NL output) as Hin.
        { assert (o ∈ filter (λ l, l = p) (str_split NL output)) as Hmem
            by (rewrite Hocc; left).
          by apply list_elem_of_filter in Hmem as [-> ?]. }
        change (default 0%Z (@None Z)) with 0%Z. rewrite Z.add_0_l. split.
        * intros [= <-]. done.
        * by intros (_ & _ & ->). }
  split; [ done | ]. intros p n (Hp & Hin & ->)%Hcounts.
  assert (p ∈ filter (λ l, l = p) (str_split NL output)) as Hmem
    by by apply list_elem_of_filter.
  destruct (filter _ _); [ by apply elem_of_nil in Hmem | cbn; lia ].
Qed.

(** X18.  [get_total_commits] and [get_branch_count] answer 0 when
    git exits with an error; a branch count of 0 means that git printed
    nothing, and otherwise the count is the number of lines printed;
    [is_actively_maintained] answers True exactly when git printed an
    integer greater than 0; and [get_total_commits] raises when git
    printed something that is not an integer. *)
Theorem git_counts self :
  (git_fails subprocess_run self [ "rev-list"; "--count"; "HEAD" ] →
     get_total_commits subprocess_run self = Ok 0%Z)
  ∧ (git_fails subprocess_run self [ "branch"; "-a" ] →
     get_branch_count subprocess_run self = Ok 0)
  ∧ (∀ n, get_branch_count subprocess_run self = Ok n →
       ∃ output,
         _run_git_command subprocess_run self [ "branch"; "-a" ] = Ok output
         ∧ (n = 0 ↔ output = "")
         ∧ (output ≠ "" → n = length (str_split NL output)))
  ∧ (is_actively_maintained subprocess_run self = Ok true
     ↔ ∃ output n,
         _run_git_command subprocess_run self
           [ "rev-list"; "--count"; "HEAD"; "--since=90.days.ago" ] = Ok output
         ∧ output ≠ "" ∧ int output = Some n ∧ (0 < n)%Z)
  ∧ (∀ output,
       _run_git_command subprocess_run self [ "rev-list"; "--count"; "HEAD" ]
         = Ok output →
       output ≠ "" → int output = None →
       raises (get_total_commits subprocess_run self)).
Proof.
  split; [ | split; [ | split; [ | split ] ] ].
  - intros Hfail. unfold get_total_commits. by rewrite (run_git_absorbs _ _ _ Hfail).
  - intros Hfail. unfold get_branch_count. by rewrite (run_git_absorbs _ _ _ Hfail).
  - intros n. unfold get_branch_count. intros (output & Hout & Hrun)%rbind_ok.
    exists output. split; [ done | ]. case_bool_decide as Hempty.
    + injection Hrun as <-. done.
    + injection Hrun as <-. pose proof (str_split_length NL output).
      split; [ split; [ lia | done ] | done ].
  - unfold is_actively_maintained. split.
    + intros (output & Hout & Hrun)%rbind_ok. case_bool_decide; [ done | ].
      apply rbind_ok in Hrun as (n & Hn & [= Hpos]). exists output, n.
      unfold py_int in Hn. destruct (int output) as [ m | ]; [ | done ].
      injection Hn as ->. split; [ done | ]. split; [ done | ].
      split; [ done | by apply Z.ltb_lt ].
    + intros (output & n & -> & Hne & Hint & Hpos). cbn [rbind].
      rewrite bool_decide_eq_false_2 by done. unfold py_int. rewrite Hint.
      cbn. f_equal. by apply Z.ltb_lt.
  - intros output Hout Hne Hint. unfold get_total_commits. rewrite Hout.
    cbn [rbind]. rewrite bool_decide_eq_false_2 by done.
    unfold py_int. by rewrite Hint.
Qed.

End Git_history_facts.

Lemma get_hotspots_sorted_witness :
  ∃ hs,
    get_hotspots example_git Z Ok 0%Z (mkGitAnalyzer "repo") 1 = Ok hs
    ∧ fh_file_path Z <$> hs = [ "b.py" ]
    ∧ length hs ≤ 1.
Proof.
  eexists. split; [ vm_compute; reflexivity | ]. split; [ reflexivity | ].
  refine (proj1 (get_hotspots_sorted example_git Z Ok 0%Z (mkGitAnalyzer "repo")
                   1 _ _ eq_refl)).
  done.
Defined.

Lemma get_recent_activity_counts_witness :
  ∃ file_counts,
    get_recent_activity example_git (mkGitAnalyzer "repo") 7 = Ok file_counts
    ∧ file_counts !! "a.py" = Some 2%Z
    ∧ ∀ p n, file_counts !! p = Some n → (1 ≤ n)%Z.
Proof.
  eexists. split; [ vm_compute; reflexivity | ]. split; [ reflexivity | ].
  destruct (get_recent_activity_counts example_git (mkGitAnalyzer "repo") 7 _
              eq_refl) as (output & _ & _ & Hpos).
  exact Hpos.
Defined.

Lemma git_counts_witness :
  get_total_commits failing_git (mkGitAnalyzer "repo") = Ok 0%Z
  ∧ get_branch_count failing_git (mkGitAnalyzer "repo") = Ok 0.
Proof.
  destruct (git_counts failing_git (mkGitAnalyzer "repo"))
    as (Htotal & Hbranch & _).
  split; [ apply Htotal | apply Hbranch ]; reflexivity.
Defined.

Lemma get_file_history_result_witness :
  ∃ h,
    get_file_history example_git Z Ok 0%Z (mkGitAnalyzer "repo") "a.py"
    = Ok (Some h)
    ∧ fh_commit_count Z h = 3%Z
    ∧ length (fh_authors Z h) = 2
    ∧ NoDup (fh_authors Z h).
Proof.
  eexists. split; [ vm_compute; reflexivity | ]. split; [ reflexivity | ].
  split; [ reflexivity | ].
  refine (proj1 (proj2 (proj2
    (proj2 (get_file_history_result example_git Z Ok 0%Z (mkGitAnalyzer "repo")
              "a.py") _ eq_refl)))).
Defined.

(* --------------------------------------------------------------------- *)
(** ** Scores and difficulty labels of the tools                          *)
(* --------------------------------------------------------------------- *)

(** A scoring loop adds its weight and one reason for every keyword that
    matches. *)
Lemma score_loop_total (matches : string → bool) (weight : nat)
    (reason : string → string) (keywords : list string)
    (acc : nat * list string) :
  foldl
    (λ acc keyword,
       if matches keyword
       then (acc.1 + weight, acc.2 ++ [ reason keyword ])
       else acc)
    acc keywords
  = (acc.1 + weight * length (List.filter matches keywords),
     acc.2 ++ (reason <$> List.filter matches keywords)).
Proof.
  revert acc. induction keywords as [ | k ks IH ]; intros [score reasons].
  - cbn. by rewrite Nat.mul_0_r, Nat.add_0_r, app_nil_r.
  - cbn [foldl List.filter]. rewrite IH. destruct (matches k); cbn; [ | done ].
    rewrite <- app_assoc. f_equal. lia.
Qed.

Lemma check_symbols_total (keywords : list string) (symbols : list CodeSymbol)
    (acc : nat * list string) :
  foldl (check_symbol keywords) acc symbols
  = (acc.1 + 5 * length (flat_map (λ s, hits keywords (sym_name s)) symbols),
     acc.2
     ++ flat_map
          (λ s, (λ _, "Contains symbol '" +:+ sym_name s +:+ "'")
                  <$> hits keywords (sym_name s))
          symbols).
Proof.
  revert acc. induction symbols as [ | s symbols IH ]; intros [score reasons].
  - cbn. by rewrite Nat.add_0_r, app_nil_r.
  - cbn [foldl flat_map]. rewrite IH. unfold check_symbol at 1 2.
    rewrite score_loop_total. cbn [fst snd]. fold (hits keywords (sym_name s)).
    rewrite length_app, <- app_assoc. f_equal. lia.
Qed.

Lemma keyword_matches_score_path (keywords : list string) (file_path : string)
    (analysis : FileAnalysis) :
  10 * length (hits keywords file_path)
  ≤ (keyword_matches keywords file_path analysis).1.
Proof.
  unfold keyword_matches, check_file_name.
  rewrite check_symbols_total, score_loop_total. cbn [fst snd].
  fold (hits keywords file_path). lia.
Qed.

(** X19.  The score that [EntryPointTool._run] gives a file before
    the importance bonus is 10 for every keyword found in the lower-cased
    path plus 5 for every pair of a symbol and a keyword found in its
    lower-cased name, and there is one reason for each of these matches,
    those for the path first; so the score is a multiple of 5 between 5
    and 10 times the number of reasons. *)
Theorem keyword_matches_score (keywords : list string) (file_path : string)
    (analysis : FileAnalysis) :
  let path_hits := hits keywords file_path in
  let symbol_hits :=
    flat_map (λ s, hits keywords (sym_name s)) (fa_symbols analysis) in
  let result := keyword_matches keywords file_path analysis in
  result.1 = 10 * length path_hits + 5 * length symbol_hits
  ∧ result.2
    = ((λ keyword, "File name contains '" +:+ keyword +:+ "'") <$> path_hits)
      ++ flat_map
           (λ s, (λ _, "Contains symbol '" +:+ sym_name s +:+ "'")
                   <$> hits keywords (sym_name s))
           (fa_symbols analysis)
  ∧ length result.2 = length path_hits + length symbol_hits
  ∧ 5 * length result.2 ≤ result.1 ≤ 10 * length result.2.
Proof.
  cbn zeta. unfold keyword_matches, check_file_name.
  rewrite check_symbols_total, score_loop_total. cbn [fst snd].
  fold (hits keywords file_path).
  assert (length
            (flat_map
               (λ s, (λ _, "Contains symbol '" +:+ sym_name s +:+ "'")
                       <$> hits keywords (sym_name s))
               (fa_symbols analysis))
          = length (flat_map (λ s, hits keywords (sym_name s))
                      (fa_symbols analysis))) as Hlen.
  { induction (fa_symbols analysis) as [ | s l IH ]; [ done | ].
    cbn [flat_map]. by rewrite !length_app, length_fmap, IH. }
  rewrite !app_nil_l, length_app, length_fmap, Hlen. repeat split; try done; lia.
Qed.

(** An empty keyword is found in every name. *)
Lemma contains_empty (s : string) : contains "" s = true.
Proof. by destruct s. Qed.

(** X20.  A word of [task_description] made of three or
    more punctuation marks from [,.!?] passes the tests of
    [_extract_keywords] and is stripped to the empty keyword, which
    occurs in every path: whenever the keywords contain the empty
    string, every analysed file is suggested. *)
Theorem empty_keyword_matches_all (task_description : string)
    (file_analyses : gmap string FileAnalysis) :
  "" ∈ _extract_keywords (lower task_description) →
  ∀ file_path, file_path ∈ dom file_analyses →
    file_path ∈ suggested_files task_description file_analyses.
Proof.
  intros Hempty file_path [analysis Hfile]%elem_of_dom.
  unfold suggested_files. apply list_elem_of_fmap. exists (file_path, analysis).
  split; [ done | ]. apply elem_of_bool_filter.
  split; [ by apply elem_of_map_to_list | ]. cbn [fst snd].
  apply Nat.ltb_lt.
  pose proof (keyword_matches_score_path
                (_extract_keywords (lower task_description)) file_path analysis)
    as Hscore.
  assert ("" ∈ hits (_extract_keywords (lower task_description)) file_path)
    as Hhit.
  { unfold hits. apply elem_of_bool_filter. split; [ done | ].
    apply contains_empty. }
  destruct (hits _ file_path) as [ | h hs ]; [ by apply elem_of_nil in Hhit | ].
  cbn [length] in Hscore. lia.
Qed.

Lemma empty_keyword_matches_all_witness :
  "" ∈ _extract_keywords (lower "Fix ... now")
  ∧ "simple.py" ∈ suggested_files "Fix ... now" scenario_files.
Proof.
  assert ("" ∈ _extract_keywords (lower "Fix ... now")) as Hempty.
  { vm_compute. left. }
  split; [ exact Hempty | ].
  apply (empty_keyword_matches_all "Fix ... now" scenario_files Hempty).
  apply elem_of_dom. eexists. vm_compute. reflexivity.
Defined.

Lemma Qleb_inject (a b : Z) : Qleb (inject_Z a) (inject_Z b) = (a <=? b)%Z.
Proof.
  destruct (a <=? b)%Z eqn:Hle.
  - apply Qleb_spec. rewrite <- Zle_Qle. by apply Z.leb_le.
  - apply not_true_iff_false. intros H%Qleb_spec. rewrite <- Zle_Qle in H.
    apply Z.leb_gt in Hle. lia.
Qed.

Lemma Qleb_trans_true (a b c : Q) :
  (a <= b)%Q → Qleb b c = true → Qleb a c = true.
Proof.
  intros Hab Hbc%Qleb_spec. apply Qleb_spec. by eapply Qle_trans.
Qed.

Lemma difficulty_label_monotone (a b : Q) :
  (a <= b)%Q →
  label_band (_get_difficulty_label a) ≤ label_band (_get_difficulty_label b).
Proof.
  intros Hab. unfold _get_difficulty_label.
  destruct (Qleb b 5) eqn:H5.
  { by rewrite (Qleb_trans_true a b 5 Hab H5). }
  destruct (Qleb b 10) eqn:H10.
  { rewrite (Qleb_trans_true a b 10 Hab H10). destruct (Qleb a 5); cbn; lia. }
  destruct (Qleb b 20) eqn:H20.
  { rewrite (Qleb_trans_true a b 20 Hab H20).
    destruct (Qleb a 5), (Qleb a 10); cbn; lia. }
  destruct (Qleb a 5), (Qleb a 10), (Qleb a 20); cbn; lia.
Qed.

Lemma difficulty_label_integer (c : Z) :
  label_band (_get_difficulty_label (inject_Z c)) = band (_classify_complexity c).
Proof.
  unfold _get_difficulty_label, _classify_complexity, SIMPLE, MODERATE, COMPLEX.
  change 5%Q with (inject_Z 5). change 10%Q with (inject_Z 10).
  change 20%Q with (inject_Z 20). rewrite !Qleb_inject.
  by repeat case_match.
Qed.

Section Difficulty_facts.

Variable fs : string → option string.
Variable cc_visit : string → result (list cc_block).
Variable mi_visit : string → result Q.
Variable h_visit : string → result (option Q).

(** X21.  The difficulty label of the learning path uses the bands
    of [_classify_complexity]: on an integer the two agree, and the
    label grows with the complexity.  For a file analysed by
    [ComplexityAnalyzer.analyze_file] the label of its average is
    therefore never above the band of its most complex function, and a
    file without functions is labelled Beginner. *)
Theorem difficulty_label_of_file (file_path : string) (fc : FileComplexity) :
  complexity_analyze_file fs cc_visit mi_visit h_visit file_path = Some fc →
  (∀ c : Z,
     label_band (_get_difficulty_label (inject_Z c))
     = band (_classify_complexity c))
  ∧ (∀ a b : Q,
       (a <= b)%Q →
       label_band (_get_difficulty_label a)
       ≤ label_band (_get_difficulty_label b))
  ∧ label_band (_get_difficulty_label (fc_average_complexity fc))
    ≤ band (_classify_complexity (fc_max_complexity fc))
  ∧ (fc_functions fc = [] →
     _get_difficulty_label (fc_average_complexity fc) = Beginner).
Proof.
  intros (content & _ & _ & Hrun)%complexity_analyze_file_ok.
  pose proof (analyze_source_aggregates cc_visit mi_visit h_visit
                file_path content fc Hrun) as (_ & Hempty & Hfull).
  split; [ apply difficulty_label_integer | ].
  split; [ apply difficulty_label_monotone | ].
  split.
  - rewrite <- difficulty_label_integer.
    destruct (nil_or_not (fc_functions fc)) as [ Hnil | Hcons ].
    + destruct (Hempty Hnil) as [-> ->]. done.
    + destruct (Hfull Hcons) as (_ & Hle & _).
      by apply difficulty_label_monotone.
  - intros Hnil. by destruct (Hempty Hnil) as [-> _].
Qed.

End Difficulty_facts.

Lemma difficulty_label_of_file_witness :
  ∃ fc,
    complexity_analyze_file radon_example_fs radon_example_cc radon_example_mi
      radon_example_h "pkg/util.py" = Some fc
    ∧ _get_difficulty_label (fc_average_complexity fc) = Intermediate
    ∧ label_band (_get_difficulty_label (fc_average_complexity fc))
      ≤ band (_classify_complexity (fc_max_complexity fc)).
Proof.
  eexists. split; [ vm_compute; reflexivity | ]. split; [ reflexivity | ].
  refine (proj1 (proj2 (proj2
    (difficulty_label_of_file radon_example_fs radon_example_cc
       radon_example_mi radon_example_h "pkg/util.py" _ eq_refl)))).
Defined.

(* --------------------------------------------------------------------- *)
(** ** Import statements                                                  *)
(* --------------------------------------------------------------------- *)

Lemma prefix_cons x p c s :
  String.prefix (String x p) (String c s)
  = bool_decide (x = c) && String.prefix p s.
Proof.
  change (String.prefix (String x p) (String c s))
    with (if ascii_dec x c then String.prefix p s else false).
  destruct (ascii_dec x c) as [ -> | Hne ].
  - by rewrite bool_decide_eq_true_2.
  - by rewrite bool_decide_eq_false_2.
Qed.

Lemma prefix_self p s : String.prefix p (p +:+ s) = true.
Proof. apply (startswith_app p s). Qed.

Lemma all_chars_app f a b :
  all_chars f (a +:+ b) = all_chars f a && all_chars f b.
Proof.
  induction a as [ | c a IH ]; [ done | ].
  rewrite app_cons. cbn. by rewrite IH, andb_assoc.
Qed.

Lemma all_chars_impl (f g : ascii → bool) s :
  (∀ c, f c = true → g c = true) → all_chars f s = true → all_chars g s = true.
Proof.
  intros Hfg. induction s as [ | c s IH ]; [ done | ]. cbn.
  intros [Hc Hs]%andb_true_iff. by rewrite (Hfg c Hc), IH.
Qed.

(** A separator whose first character does not occur in [a]. *)
Lemma clear_of_first x sep a b :
  all_chars (λ c, negb (Ascii.eqb c x)) a = true →
  clear_of (String x sep) a b.
Proof.
  intros Ha a1 a2 -> Hne. rewrite all_chars_app in Ha.
  apply andb_true_iff in Ha as [_ Ha]. destruct a2 as [ | c a2 ]; [ done | ].
  rewrite app_cons, prefix_cons. cbn in Ha.
  apply andb_true_iff in Ha as [Hc%negb_true_iff%Ascii.eqb_neq _].
  by rewrite bool_decide_eq_false_2 by congruence.
Qed.

(** A separator [p] followed by [sp] that starts inside a text without
    [sp] runs through to the end of that text. *)
Lemma prefix_through p sp a b :
  all_chars (λ c, negb (Ascii.eqb c sp)) a = true →
  String.prefix (p +:+ String sp "") (a +:+ b) = true →
  ∃ p', p = a +:+ p' ∧ String.prefix (p' +:+ String sp "") b = true.
Proof.
  revert a. induction p as [ | x p IH ]; intros [ | c a ] Ha Hprefix.
  - by exists "".
  - exfalso. rewrite app_cons in Hprefix.
    change ("" +:+ String sp "") with (String sp "") in Hprefix.
    rewrite prefix_cons in Hprefix. cbn in Ha.
    apply andb_true_iff in Ha as [Hc%negb_true_iff%Ascii.eqb_neq _].
    apply andb_true_iff in Hprefix as [Heq%bool_decide_eq_true _]. congruence.
  - by exists (String x p).
  - rewrite !app_cons, prefix_cons in Hprefix.
    apply andb_true_iff in Hprefix as [->%bool_decide_eq_true Hprefix].
    cbn in Ha. apply andb_true_iff in Ha as [_ Ha].
    destruct (IH a Ha Hprefix) as (p' & -> & Hp'). by exists p'.
Qed.

Lemma endswith_app a p : endswith (a +:+ p) p = true.
Proof.
  induction a as [ | c a IH ].
  - change ("" +:+ p) with p.
    destruct p; cbn [endswith]; by rewrite bool_decide_eq_true_2.
  - rewrite app_cons. cbn [endswith]. by rewrite IH, orb_true_r.
Qed.

(** The three ways in which a separator [p +:+ sp] stays clear of a text
    [a] without [sp]: nothing follows [a]; a character other than [sp]
    that is not in [p] follows; or [sp] follows and [a] does not end
    with [p]. *)
Lemma clear_of_end p sp a :
  all_chars (λ c, negb (Ascii.eqb c sp)) a = true →
  clear_of (p +:+ String sp "") a "".
Proof.
  intros Ha a1 a2 -> Hne. rewrite all_chars_app in Ha.
  apply andb_true_iff in Ha as [_ Ha]. apply not_true_iff_false.
  intros (p' & _ & Hp')%prefix_through; [ | done ].
  by destruct p'.
Qed.

Lemma clear_of_other p sp a c b :
  all_chars (λ c, negb (Ascii.eqb c sp)) a = true →
  all_chars (λ d, negb (Ascii.eqb d c)) (p +:+ String sp "") = true →
  clear_of (p +:+ String sp "") a (String c b).
Proof.
  intros Ha Hp a1 a2 -> Hne. rewrite all_chars_app in Ha.
  apply andb_true_iff in Ha as [_ Ha]. apply not_true_iff_false.
  intros (p' & -> & Hp')%prefix_through; [ | done ].
  rewrite app_assoc_str, all_chars_app in Hp.
  apply andb_true_iff in Hp as [_ Hp].
  destruct p' as [ | x p' ].
  - change ("" +:+ String sp "") with (String sp "") in *.
    rewrite prefix_cons in Hp'. cbn in Hp.
    apply andb_true_iff in Hp as [Hx%negb_true_iff%Ascii.eqb_neq _].
    apply andb_true_iff in Hp' as [Heq%bool_decide_eq_true _]. congruence.
  - rewrite app_cons in Hp, Hp'. rewrite prefix_cons in Hp'. cbn in Hp.
    apply andb_true_iff in Hp as [Hx%negb_true_iff%Ascii.eqb_neq _].
    apply andb_true_iff in Hp' as [Heq%bool_decide_eq_true _]. congruence.
Qed.

Lemma clear_of_space p sp a b :
  all_chars (λ c, negb (Ascii.eqb c sp)) a = true →
  all_chars (λ c, negb (Ascii.eqb c sp)) p = true →
  endswith a p = false →
  clear_of (p +:+ String sp "") a (String sp b).
Proof.
  intros Ha Hp Hend a1 a2 -> Hne. rewrite all_chars_app in Ha.
  apply andb_true_iff in Ha as [_ Ha]. apply not_true_iff_false.
  intros (p' & -> & Hp')%prefix_through; [ | done ].
  destruct p' as [ | x p' ].
  - rewrite app_empty_r in Hend. by rewrite endswith_app in Hend.
  - rewrite all_chars_app in Hp. apply andb_true_iff in Hp as [_ Hp].
    rewrite app_cons, prefix_cons in Hp'. cbn in Hp.
    apply andb_true_iff in Hp as [Hx%negb_true_iff%Ascii.eqb_neq _].
    apply andb_true_iff in Hp' as [Heq%bool_decide_eq_true _]. congruence.
Qed.

Lemma clear_of_tail sep c a b :
  clear_of sep (String c a) b → clear_of sep a b.
Proof.
  intros Hclear a1 a2 -> Hne. apply (Hclear (String c a1) a2); done.
Qed.

Lemma clear_of_head sep c a b :
  clear_of sep (String c a) b →
  String.prefix sep (String c (a +:+ b)) = false.
Proof. intros Hclear. by apply (Hclear "" (String c a)). Qed.

Lemma split_go_skip sep u s :
  split_go sep (String.length u) (u +:+ s) = split_go sep 0 s.
Proof. induction u as [ | c u IH ]; [ done | ]. by rewrite app_cons. Qed.

Lemma replace_go_skip old new u s :
  replace_go old new (String.length u) (u +:+ s) = replace_go old new 0 s.
Proof. induction u as [ | c u IH ]; [ done | ]. by rewrite app_cons. Qed.

Lemma str_split_sep c sep s :
  str_split (String c sep) (String c sep +:+ s)
  = "" :: str_split (String c sep) s.
Proof.
  unfold str_split. rewrite app_cons. cbn [split_go].
  assert (String.prefix (String c sep) (String c (sep +:+ s)) = true) as ->
    by (rewrite <- app_cons; apply prefix_self).
  cbn [String.length]. rewrite Nat.sub_succ, Nat.sub_0_r.
  by rewrite split_go_skip.
Qed.

Lemma replace_sep c old new s :
  replace (String c old) new (String c old +:+ s)
  = new +:+ replace (String c old) new s.
Proof.
  unfold replace. rewrite app_cons. cbn [replace_go].
  assert (String.prefix (String c old) (String c (old +:+ s)) = true) as ->
    by (rewrite <- app_cons; apply prefix_self).
  cbn [String.length]. rewrite Nat.sub_succ, Nat.sub_0_r.
  by rewrite replace_go_skip.
Qed.

Lemma str_split_clear sep a b :
  clear_of sep a b →
  str_split sep (a +:+ b)
  = match str_split sep b with
    | w :: ws => (a +:+ w) :: ws
    | [] => []
    end.
Proof.
  unfold str_split. induction a as [ | c a IH ]; intros Hclear.
  - change ("" +:+ b) with b. destruct (split_go sep 0 b); reflexivity.
  - rewrite app_cons. cbn [split_go]. rewrite (clear_of_head _ _ _ _ Hclear).
    rewrite IH by by eapply clear_of_tail.
    pose proof (split_go_nonempty sep 0 b).
    by destruct (split_go sep 0 b).
Qed.

Lemma first_part_clear sep a b :
  clear_of sep a b → first_part sep (a +:+ b) = a +:+ first_part sep b.
Proof.
  intros Hclear. unfold first_part. rewrite str_split_clear by done.
  pose proof (split_go_nonempty sep 0 b) as Hne. unfold str_split in *.
  by destruct (split_go sep 0 b).
Qed.

Lemma first_part_sep c sep s : first_part (String c sep) (String c sep +:+ s) = "".
Proof. unfold first_part. by rewrite str_split_sep. Qed.

Lemma first_part_empty sep : first_part sep "" = "".
Proof. done. Qed.

Lemma replace_clear old new a b :
  clear_of old a b → replace old new (a +:+ b) = a +:+ replace old new b.
Proof.
  unfold replace. induction a as [ | c a IH ]; intros Hclear; [ done | ].
  rewrite app_cons. cbn [replace_go]. rewrite (clear_of_head _ _ _ _ Hclear).
  rewrite IH by by eapply clear_of_tail. done.
Qed.

Lemma rstrip_by_clean f s :
  all_chars (λ c, negb (f c)) s = true → rstrip_by f s = s.
Proof.
  induction s as [ | c s IH ]; [ done | ]. cbn.
  intros [Hc%negb_true_iff Hs]%andb_true_iff. rewrite IH by done.
  destruct s; [ by rewrite Hc | done ].
Qed.

Lemma lstrip_by_clean f s :
  all_chars (λ c, negb (f c)) s = true → lstrip_by f s = s.
Proof.
  destruct s as [ | c s ]; [ done | ]. cbn.
  intros [Hc%negb_true_iff _]%andb_true_iff. by rewrite Hc.
Qed.

Lemma strip_clean s : all_chars (λ c, negb (isspace c)) s = true → strip s = s.
Proof.
  intros Hs. unfold strip. by rewrite lstrip_by_clean, rstrip_by_clean.
Qed.

Lemma plain_name_chars m :
  plain_name m = true →
  all_chars (λ c, negb (Ascii.eqb c " ")) m = true
  ∧ all_chars (λ c, negb (Ascii.eqb c ",")) m = true
  ∧ all_chars (λ c, negb (isspace c)) m = true.
Proof.
  intros Hm. repeat split; (eapply all_chars_impl; [ | exact Hm ]); cbn;
    intros c [Hspace Hcomma]%andb_true_iff; try done.
  destruct (Ascii.eqb_spec c " ") as [ -> | ]; [ done | done ].
Qed.

Lemma second_part_sep c sep s :
  second_part (String c sep) (String c sep +:+ s)
  = Some (first_part (String c sep) s).
Proof.
  unfold second_part, first_part. rewrite str_split_sep. cbn.
  pose proof (split_go_nonempty (String c sep) 0 s) as Hne.
  unfold str_split. by destruct (split_go (String c sep) 0 s).
Qed.

Lemma first_part_plain sep_head sep m :
  all_chars (λ c, negb (Ascii.eqb c sep_head)) m = true →
  first_part (String sep_head sep) m = m.
Proof.
  intros Hm. rewrite <- (app_empty_r m) at 1.
  rewrite first_part_clear by by apply clear_of_first.
  by rewrite first_part_empty, app_empty_r.
Qed.

(** X22.  The import that [_extract_imports_simple] records for a
    Python line.  Let the module name [m] have no white space and no
    comma.  A line that reads, apart from surrounding white space,
    [import m], [import m,...] or [import m as ...], or [from m
    import...], yields the single import [m]; for the form with [as] the
    name must not end with [import], and for the form with [from] it must
    not end with [from], because the separators are searched in the
    whole line. *)
Theorem python_import_statement (line m rest : string) :
  plain_name m = true →
  strip line = "import " +:+ m
  ∨ strip line = "import " +:+ m +:+ "," +:+ rest
  ∨ (strip line = "import " +:+ m +:+ " as " +:+ rest
     ∧ endswith m "import" = false)
  ∨ (strip line = "from " +:+ m +:+ " import" +:+ rest
     ∧ endswith m "from" = false) →
  python_imports_of_line line = [ m ].
Proof.
  intros (Hspace & Hcomma & Hwhite)%plain_name_chars Hforms.
  unfold python_imports_of_line.
  destruct Hforms as [ -> | [ -> | [ [-> Hend] | [-> Hend] ] ] ].
  - rewrite startswith_app, replace_sep.
    change ("" +:+ ?s) with s.
    rewrite <- (app_empty_r m) at 1.
    rewrite replace_clear by by apply (clear_of_end "import" " ").
    change (replace "import " "" "") with "". rewrite app_empty_r.
    rewrite (first_part_plain " " "as ") by done.
    rewrite (first_part_plain "," "") by done. by rewrite strip_clean.
  - rewrite startswith_app, replace_sep.
    change ("" +:+ ?s) with s.
    rewrite replace_clear by by apply (clear_of_other "import" " ").
    rewrite (replace_clear _ _ ",") by by apply clear_of_first.
    rewrite (first_part_clear " as " m) by by apply clear_of_first.
    rewrite (first_part_clear " as " ",") by by apply clear_of_first.
    rewrite (first_part_clear "," m) by by apply clear_of_first.
    rewrite first_part_sep, app_empty_r. by rewrite strip_clean.
  - rewrite startswith_app, replace_sep.
    change ("" +:+ ?s) with s.
    rewrite replace_clear by by apply (clear_of_space "import" " ").
    rewrite (replace_clear _ _ " as ") by by apply clear_of_first.
    rewrite (first_part_clear " as " m) by by apply clear_of_first.
    rewrite first_part_sep, app_empty_r.
    rewrite (first_part_plain "," "") by done. by rewrite strip_clean.
  - assert (startswith ("from " +:+ m +:+ " import" +:+ rest) "import " = false)
      as -> by done.
    rewrite startswith_app, second_part_sep.
    rewrite (first_part_clear "from " m)
      by by apply (clear_of_space "from" " ").
    rewrite (first_part_clear "from " " import") by by apply clear_of_first.
    rewrite (first_part_clear " import" m) by by apply clear_of_first.
    rewrite first_part_sep, app_empty_r. by rewrite strip_clean.
Qed.

Lemma python_import_statement_witness :
  plain_name "os.path" = true
  ∧ python_imports_of_line "    import os.path as osp  " = [ "os.path" ].
Proof.
  split; [ reflexivity | ].
  apply (python_import_statement _ "os.path" "osp"); [ reflexivity | ].
  right. right. left. split; reflexivity.
Defined.

Lemma clear_of_app sep a a' b :
  clear_of sep a (a' +:+ b) → clear_of sep a' b → clear_of sep (a +:+ a') b.
Proof.
  intros Ha Ha'. revert Ha. induction a as [ | c a IH ]; intros Ha a1 a2 Heq Hne.
  - by apply (Ha' a1 a2).
  - destruct a1 as [ | c1 a1 ].
    + change ("" +:+ a2) with a2 in Heq. subst a2.
      rewrite app_assoc_str. by apply (Ha "" (String c a)).
    + rewrite !app_cons in Heq. injection Heq as <- Heq.
      apply (IH (clear_of_tail _ _ _ _ Ha) a1 a2 Heq Hne).
Qed.

Lemma lstrip_by_head f c s : f c = true → lstrip_by f (String c s) = lstrip_by f s.
Proof. intros Hc. cbn. by rewrite Hc. Qed.

Lemma lstrip_by_all f s : all_chars f s = true → lstrip_by f s = "".
Proof.
  induction s as [ | c s IH ]; [ done | ]. cbn.
  intros [Hc Hs]%andb_true_iff. rewrite Hc. by apply IH.
Qed.

Lemma rstrip_by_all f s : all_chars f s = true → rstrip_by f s = "".
Proof.
  induction s as [ | c s IH ]; [ done | ]. cbn.
  intros [Hc Hs]%andb_true_iff. by rewrite IH, Hc.
Qed.

Lemma rstrip_by_app f a b :
  all_chars f b = true → rstrip_by f (a +:+ b) = rstrip_by f a.
Proof.
  intros Hb. induction a as [ | c a IH ].
  - by apply rstrip_by_all.
  - rewrite app_cons. cbn. by rewrite IH.
Qed.

Lemma lstrip_by_app_all f a b :
  all_chars f a = true → lstrip_by f (a +:+ b) = lstrip_by f b.
Proof.
  induction a as [ | c a IH ]; [ done | ]. cbn [all_chars].
  intros [Hc Ha]%andb_true_iff. rewrite app_cons, lstrip_by_head by done.
  by apply IH.
Qed.

Lemma strip_chars_between chars lead m tail :
  all_chars (char_in chars) lead = true →
  all_chars (char_in chars) tail = true →
  all_chars (λ c, negb (char_in chars c)) m = true →
  strip_chars chars (lead +:+ m +:+ tail) = m.
Proof.
  intros Hlead Htail Hm. unfold strip_chars.
  rewrite lstrip_by_app_all by done. destruct m as [ | c m ].
  - change ("" +:+ tail) with tail. by rewrite lstrip_by_all.
  - rewrite app_cons. cbn [lstrip_by]. cbn [all_chars] in Hm.
    pose proof Hm as [Hc%negb_true_iff _]%andb_true_iff. rewrite Hc.
    rewrite <- app_cons, rstrip_by_app by done.
    by apply rstrip_by_clean.
Qed.

Lemma quote_chars_not_space c :
  char_in (";" +:+ DQUOTE +:+ "'") c = true →
  negb (isspace c) && negb (Ascii.eqb c " ") = true.
Proof.
  change (";" +:+ DQUOTE +:+ "'")
    with (String ";" (String "034" (String "'" ""))).
  cbn [char_in]. rewrite !orb_true_iff.
  intros [ ->%Ascii.eqb_eq | [ ->%Ascii.eqb_eq | [ ->%Ascii.eqb_eq | ? ] ] ];
    done.
Qed.

(** X23.  The import that [_extract_imports_simple] records for
    a JavaScript or TypeScript line of the form [import name from
    'module';]: when the imported name has no white space or comma and
    does not end with [from], and the module text, free of white space,
    quotes and semicolons, stands between runs of quotes and semicolons,
    the line yields the single import [module], with the quotes and the
    semicolon removed. *)
Theorem js_import_statement (line name lead m tail : string) :
  plain_name name = true →
  endswith name "from" = false →
  all_chars (char_in (";" +:+ DQUOTE +:+ "'")) lead = true →
  all_chars (char_in (";" +:+ DQUOTE +:+ "'")) tail = true →
  all_chars
    (λ c, negb (isspace c) && negb (char_in (";" +:+ DQUOTE +:+ "'") c)) m
  = true →
  strip line = "import " +:+ name +:+ " from " +:+ lead +:+ m +:+ tail →
  js_imports_of_line line = [ m ].
Proof.
  intros (Hspace & _ & _)%plain_name_chars Hend Hlead Htail Hm Hline.
  unfold js_imports_of_line. rewrite Hline. clear Hline line.
  set (R := lead +:+ m +:+ tail).
  change (" from " +:+ R) with (" " +:+ "from " +:+ R).
  assert (all_chars (λ c, negb (isspace c) && negb (Ascii.eqb c " ")) R = true)
    as HR.
  { unfold R. rewrite !all_chars_app, !andb_true_iff. repeat split.
    - eapply all_chars_impl; [ apply quote_chars_not_space | done ].
    - eapply all_chars_impl; [ | exact Hm ]. cbn.
      intros c [Hc _]%andb_true_iff. rewrite Hc.
      by destruct (Ascii.eqb_spec c " ") as [ -> | ].
    - eapply all_chars_impl; [ apply quote_chars_not_space | done ]. }
  assert (all_chars (λ c, negb (Ascii.eqb c " ")) R = true) as HRspace.
  { eapply all_chars_impl; [ | exact HR ]. cbn. by intros c [_ ?]%andb_true_iff. }
  assert (all_chars (λ c, negb (isspace c)) R = true) as HRwhite.
  { eapply all_chars_impl; [ | exact HR ]. cbn. by intros c [? _]%andb_true_iff. }
  rewrite startswith_app.
  assert (contains "from " ("import " +:+ name +:+ " " +:+ "from " +:+ R) = true)
    as ->.
  { apply contains_spec. exists ("import " +:+ name +:+ " "), R.
    by rewrite !app_assoc_str. }
  assert (second_part "from " ("import " +:+ name +:+ " " +:+ "from " +:+ R)
          = Some R) as ->.
  { unfold second_part.
    rewrite (str_split_clear "from " "import ") by by apply clear_of_first.
    rewrite (str_split_clear "from " name)
      by by apply (clear_of_space "from" " ").
    rewrite (str_split_clear "from " " ") by by apply clear_of_first.
    rewrite str_split_sep. cbn [lookup list_lookup].
    rewrite <- (app_empty_r R) at 1.
    rewrite str_split_clear by by apply (clear_of_end "from" " ").
    change (str_split "from " "") with [ "" ]. cbn. by rewrite app_empty_r. }
  rewrite strip_clean by done. unfold R.
  rewrite strip_chars_between; [ done | done | done | ].
  eapply all_chars_impl; [ | exact Hm ]. cbn. by intros c [_ ?]%andb_true_iff.
Qed.

Lemma js_import_statement_witness :
  plain_name "React" = true
  ∧ js_imports_of_line ("import React from " +:+ DQUOTE +:+ "react" +:+ DQUOTE +:+ ";")
    = [ "react" ].
Proof.
  split; [ reflexivity | ].
  apply (js_import_statement _ "React" DQUOTE "react" (DQUOTE +:+ ";"));
    reflexivity.
Defined.

(* --------------------------------------------------------------------- *)
(** ** GitHub URLs                                                        *)
(* --------------------------------------------------------------------- *)

Lemma clear_of_nil sep b : clear_of sep "" b.
Proof.
  intros a1 a2 Heq Hne. by destruct a1, a2.
Qed.

Lemma clear_of_cons sep c a b :
  String.prefix sep (String c (a +:+ b)) = false →
  clear_of sep a b →
  clear_of sep (String c a) b.
Proof.
  intros Hhead Htail a1 a2 Heq Hne. destruct a1 as [ | c1 a1 ].
  - change ("" +:+ a2) with a2 in Heq. subst a2. by rewrite app_cons.
  - rewrite app_cons in Heq. injection Heq as <- Heq. by apply (Htail a1 a2).
Qed.

Lemma contains_false_clear sep a : contains sep a = false → clear_of sep a "".
Proof.
  induction a as [ | c a IH ]; intros Hno; [ apply clear_of_nil | ].
  cbn [contains] in Hno. apply orb_false_iff in Hno as [Hhead Hrest].
  apply clear_of_cons; [ by rewrite app_empty_r | by apply IH ].
Qed.

Lemma prefix_git_short (a2 b : string) :
  String.length a2 < 4 → a2 ≠ "" →
  String.prefix ".git" (a2 +:+ String "." b) = false.
Proof.
  intros Hlen Hne.
  destruct a2 as [ | c1 [ | c2 [ | c3 [ | c4 a2 ] ] ] ]; [ done | | | | cbn in Hlen; lia ];
    rewrite ?app_cons; change ("" +:+ String "." b) with (String "." b);
    rewrite !prefix_cons; repeat case_bool_decide; done.
Qed.

Lemma prefix_git_long (a2 b : string) :
  4 ≤ String.length a2 →
  String.prefix ".git" (a2 +:+ b) = String.prefix ".git" a2.
Proof.
  intros Hlen.
  destruct a2 as [ | c1 [ | c2 [ | c3 [ | c4 a2 ] ] ] ]; try (cbn in Hlen; lia).
  assert (∀ s, String.prefix "" s = true) as Hnil by (by intros [ | ? ? ]).
  by rewrite !app_cons, !prefix_cons, !Hnil.
Qed.

(** No occurrence of [.git] begins in a text free of it and runs into a
    following text that starts with a dot. *)
Lemma clear_of_git p b :
  contains ".git" p = false → clear_of ".git" p (String "." b).
Proof.
  intros Hno a1 a2 -> Hne.
  destruct (decide (String.length a2 < 4)) as [ Hshort | Hlong ].
  - by apply prefix_git_short.
  - rewrite prefix_git_long by lia.
    pose proof (contains_false_clear _ _ Hno a1 a2 eq_refl Hne) as Hclear.
    by rewrite app_empty_r in Hclear.
Qed.

Lemma rstrip_by_keep f a b :
  b ≠ "" → rstrip_by f b = b → rstrip_by f (a +:+ b) = a +:+ b.
Proof.
  intros Hne Hb. induction a as [ | c a IH ]; [ done | ].
  rewrite app_cons. cbn [rstrip_by]. rewrite IH.
  destruct (a +:+ b) eqn:Hab; [ | done ].
  destruct a; [ | done ]. by change ("" +:+ b) with b in Hab.
Qed.

Lemma rstrip_slash_keep p :
  endswith p "/" = false → rstrip_by (char_in "/") p = p.
Proof.
  induction p as [ | c p IH ]; [ done | ]. cbn [endswith rstrip_by].
  intros [Hhead Htail]%orb_false_iff. rewrite IH by done.
  destruct p as [ | c' p ]; [ | done ].
  apply bool_decide_eq_false in Hhead.
  assert (char_in "/" c = false) as ->; [ | done ].
  cbn. rewrite orb_false_r. apply Ascii.eqb_neq. congruence.
Qed.

Ltac clear_of_literal :=
  repeat (apply clear_of_cons; [ reflexivity | ]); apply clear_of_nil.

(** X24.  [normalize_github_url] on the three shapes of its docstring.
    For a repository part [p] in which [.git] does not occur: the SSH
    form [git@github.com:p.git] becomes [https://github.com/p] (when the
    SSH prefix does not occur in [p] again); a bare [github.com/p] gets
    the scheme; and an HTTPS URL loses trailing slashes and a [.git]
    suffix.  Whatever the input, the result starts with [http]. *)
Theorem normalize_github_url_forms (p : string) :
  contains ".git" p = false →
  (contains "git@github.com:" p = false →
     normalize_github_url ("git@github.com:" +:+ p +:+ ".git")
     = "https://github.com/" +:+ p)
  ∧ (p ≠ "" → endswith p "/" = false →
     normalize_github_url ("github.com/" +:+ p) = "https://github.com/" +:+ p
     ∧ ∀ slashes, all_chars (char_in "/") slashes = true →
         normalize_github_url ("https://github.com/" +:+ p +:+ slashes)
         = "https://github.com/" +:+ p)
  ∧ normalize_github_url ("https://github.com/" +:+ p +:+ ".git")
    = "https://github.com/" +:+ p
  ∧ ∀ url, startswith (normalize_github_url url) "http" = true.
Proof.
  intros Hgit.
  assert (replace ".git" "" p = p) as Hp.
  { rewrite <- (app_empty_r p) at 1.
    rewrite replace_clear by by apply contains_false_clear.
    by rewrite app_empty_r. }
  assert (replace ".git" "" (p +:+ ".git") = p) as Hpgit.
  { rewrite replace_clear by by apply clear_of_git.
    rewrite <- (app_empty_r ".git") at 2.
    rewrite (replace_sep "." "git"). by rewrite app_empty_r. }
  assert (p +:+ ".git" ≠ "") as Hne_git by by destruct p.
  assert (rstrip_by (char_in "/") (p +:+ ".git") = p +:+ ".git") as Hkeep
    by by apply rstrip_by_keep.
  split; [ | split; [ | split ] ].
  - intros Hssh. unfold normalize_github_url.
    rewrite (rstrip_by_keep _ "git@github.com:" (p +:+ ".git")) by done.
    rewrite (replace_clear ".git" "" "git@github.com:") by clear_of_literal.
    assert (replace "git@github.com:" "https://github.com/" p = p) as Hsame.
    { rewrite <- (app_empty_r p) at 1.
      rewrite replace_clear by by apply contains_false_clear.
      by rewrite app_empty_r. }
    by rewrite Hpgit, startswith_app, replace_sep, !Hsame.
  - intros Hne Hend. split.
    + unfold normalize_github_url.
      rewrite (rstrip_by_keep _ "github.com/" p)
        by (try done; by apply rstrip_slash_keep).
      rewrite (replace_clear ".git" "" "github.com/") by clear_of_literal.
      by rewrite Hp.
    + intros slashes Hslashes. unfold normalize_github_url.
      rewrite <- (app_assoc_str "https://github.com/" p slashes).
      rewrite rstrip_by_app by done.
      rewrite (rstrip_by_keep _ "https://github.com/" p)
        by (try done; by apply rstrip_slash_keep).
      rewrite (replace_clear ".git" "" "https://github.com/") by clear_of_literal.
      by rewrite Hp.
  - unfold normalize_github_url.
    rewrite (rstrip_by_keep _ "https://github.com/" (p +:+ ".git")) by done.
    rewrite (replace_clear ".git" "" "https://github.com/") by clear_of_literal.
    by rewrite Hpgit.
  - intros url. unfold normalize_github_url.
    destruct (startswith (if startswith _ _ then _ else _) "http") eqn:Hhttp;
      [ done | ]. cbn [negb]. apply (startswith_app "http" _).
Qed.

Lemma normalize_github_url_forms_witness :
  contains ".git" "user/repo" = false
  ∧ normalize_github_url "git@github.com:user/repo.git"
    = "https://github.com/user/repo".
Proof.
  split; [ reflexivity | ].
  apply (normalize_github_url_forms "user/repo"); reflexivity.
Defined.

(* --------------------------------------------------------------------- *)
(** ** The dependency report                                              *)
(* --------------------------------------------------------------------- *)

Lemma entry_point_final_counts m :
  path (entry_point_final m) = path m
  ∧ dependency_count (entry_point_final m) = dependency_count m
  ∧ dependent_count (entry_point_final m) = dependent_count m.
Proof. unfold entry_point_final. by destruct (has_common_name m). Qed.

Lemma length_bool_filter_le {A} (f : A → bool) (l : list A) :
  length (List.filter f l) ≤ length l.
Proof. induction l as [ | x l IH ]; cbn; [ done | ]. destruct (f x); cbn; lia. Qed.

Lemma length_filter_fmap {A B} (g : A → B) (f : B → bool) (l : list A) :
  length (List.filter f (g <$> l)) = length (List.filter (f ∘ g) l).
Proof.
  induction l as [ | x l IH ]; [ done | ]. cbn.
  destruct (f (g x)); cbn; by rewrite IH.
Qed.

Lemma length_bool_filter_perm {A} (f : A → bool) (l l' : list A) :
  l ≡ₚ l' → length (List.filter f l) = length (List.filter f l').
Proof.
  induction 1 as [ | x l l' _ IH | x y l | l l' l'' _ IH _ IH' ]; cbn.
  - done.
  - destruct (f x); cbn; by rewrite IH.
  - by destruct (f x), (f y).
  - by rewrite IH.
Qed.

Section Report_facts.

Variable simple_cycles : DiGraph → result (list (list string)).
Variable file_analyses : gmap string FileAnalysis.

Let built := build_dependency_graph file_analyses fresh_analyzer.

(** X25.  After [build_dependency_graph] on a new
    analyzer, [generate_dependency_report] returns a report without an
    exception from the graph library: [total_modules] is the number of
    analysed files; [core_modules] holds min(10, total) paths of analysed
    files; [entry_points] holds paths of analysed files, among them
    every module with at most three dependencies; the leaf count is the
    one before entry points were flagged and at most the total; at most
    five cycles are listed; every cluster has at least two modules; and
    the graph is left as it was. *)
Theorem generate_dependency_report_built :
  ∃ report self',
    generate_dependency_report simple_cycles built = Ok (report, self')
    ∧ dependency_graph self' = dependency_graph built
    ∧ dr_total_modules report = size file_analyses
    ∧ length (dr_core_modules report) = Nat.min 10 (size file_analyses)
    ∧ (∀ p, p ∈ dr_core_modules report → p ∈ dom file_analyses)
    ∧ (∀ p, p ∈ dr_entry_points report → p ∈ dom file_analyses)
    ∧ (∀ p m, modules built !! p = Some m → dependency_count m ≤ 3 →
         p ∈ dr_entry_points report)
    ∧ dr_leaf_modules_count report = length (identify_leaf_modules built)
    ∧ dr_leaf_modules_count report ≤ dr_total_modules report
    ∧ dr_circular_dependencies report
      = length (detect_circular_dependencies simple_cycles built)
    ∧ length (dr_circular_dependency_chains report) ≤ 5
    ∧ ∀ name count, (name, count) ∈ dr_clusters report → 2 ≤ count.
Proof.
  assert (∀ key m, modules built !! key = Some m → path m = key) as Hpaths
    by apply build_module_paths.
  destruct (identify_entry_points_run built Hpaths) as (Hentries & Htable & Hgraph).
  assert (dom (modules built) = dom file_analyses) as Hdom
    by apply build_modules_dom.
  assert (size (modules built) = size file_analyses) as Hsize.
  { by rewrite <- !size_dom, Hdom. }
  set (self' := (identify_entry_points built).2) in *.
  assert (dom (modules self') ⊆ nodes (dependency_graph self')) as Hnodes.
  { rewrite Htable, Hgraph, dom_fmap_L, Hdom. unfold built.
    by rewrite build_nodes. }
  destruct (identify_clusters_run self' Hnodes)
    as (clusters & Hclusters & _ & Hnames & _).
  assert (module_values self' ≡ₚ entry_point_final <$> module_values built)
    as Hvalues.
  { unfold module_values. rewrite Htable, map_to_list_fmap.
    by rewrite <- !list_fmap_compose. }
  eexists _, self'. unfold generate_dependency_report.
  fold self'. rewrite Hclusters. cbn [rbind]. split; [ reflexivity | ].
  cbn [dr_total_modules dr_core_modules dr_entry_points dr_leaf_modules_count
         dr_circular_dependencies dr_circular_dependency_chains dr_clusters].
  assert (size (modules self') = size file_analyses) as Hsize'.
  { by rewrite Htable, map_size_fmap. }
  assert (length (identify_leaf_modules self')
          = length (identify_leaf_modules built)) as Hleaf.
  { unfold identify_leaf_modules.
    rewrite (length_bool_filter_perm _ _ _ Hvalues), length_filter_fmap.
    f_equal. apply List.filter_ext. intros m. cbn.
    by destruct (entry_point_final_counts m) as (_ & _ & ->). }
  split; [ done | ]. split; [ done | ]. split.
  { rewrite length_fmap. unfold identify_core_modules.
    rewrite slice_to_take, length_take, sort_stable_length by done.
    unfold module_values. by rewrite length_fmap, length_map_to_list, Hsize. }
  split.
  { intros p (m & -> & Hm)%list_elem_of_fmap. unfold identify_core_modules in Hm.
    rewrite slice_to_take in Hm by done.
    apply subseteq_take, sort_stable_elem, elem_of_module_values in Hm
      as [key Hkey].
    rewrite (Hpaths key m Hkey), <- Hdom. apply elem_of_dom. by exists m. }
  split.
  { intros p (m' & -> & Hm')%list_elem_of_fmap. rewrite Hentries in Hm'.
    apply list_elem_of_fmap in Hm' as (m & -> & Hm).
    destruct (entry_point_final_counts m) as (-> & _).
    assert (m ∈ module_values built) as [key Hkey]%elem_of_module_values.
    { apply elem_of_app in Hm as [ Hm | Hm ];
        by apply elem_of_bool_filter in Hm as [? _]. }
    rewrite (Hpaths key m Hkey), <- Hdom. apply elem_of_dom. by exists m. }
  split.
  { intros p m Hm Hfew. apply list_elem_of_fmap. exists (entry_point_final m).
    split; [ destruct (entry_point_final_counts m) as (-> & _);
             by rewrite (Hpaths p m Hm) | ].
    rewrite Hentries. apply list_elem_of_fmap. exists m. split; [ done | ].
    apply elem_of_app. left. apply elem_of_bool_filter.
    split; [ apply elem_of_module_values; by exists p | by apply Nat.leb_le ]. }
  split; [ done | ]. split.
  { rewrite Hleaf, Hsize'. unfold identify_leaf_modules.
    etrans; [ apply length_bool_filter_le | ].
    unfold module_values. by rewrite length_fmap, length_map_to_list, Hsize. }
  split.
  { unfold detect_circular_dependencies. by rewrite Hgraph. }
  split; [ rewrite length_take; lia | ].
  intros name count (c & [= -> ->] & Hc)%list_elem_of_fmap.
  assert (cluster_name c ∈ cluster_name <$> clusters) as Hname
    by (apply list_elem_of_fmap; by exists c).
  apply Hnames in Hname.
  destruct (identify_clusters_run self' Hnodes)
    as (clusters' & Hclusters' & _ & _ & Hshape).
  rewrite Hclusters in Hclusters'. injection Hclusters' as <-.
  destruct (Hshape c Hc) as (-> & _). done.
Qed.

End Report_facts.
